(** * Doctrail enrichment engine: a shallow embedding and its properties

    The development follows the Python sources module by module:

    - [Py]        Python values as the code handles them (str, None, bool,
                  int, list, dict), truthiness, [dict.get], [str.lower];
    - [Lang]      [schema_managers.contains_hanzi], [validate_language] and
                  [pydantic_schema.validate_languages];
    - [EnumList]  [schema_managers.EnumListSchemaManager.validate_response];
    - [Tokens]    [estimate_tokens] and the two [truncate_input_for_model];
    - [Query]     [utils/query_utils.py] over a small regular-expression
                  matcher;
    - [Strategy]  [enrichment_config.determine_enrichment_strategy];
    - [Store]     the audit table, derived tables and the source table;
    - [Engine]    [llm_operations.process_batch] and the per-row pipeline;
    - [Enum]      [schema_managers.EnumSchemaManager.validate_response].

    The properties come in two groups: the modules named [...Facts] hold
    the statements of the specification, the modules named [...Laws] what
    the code guarantees besides (error and edge behaviour, invariants,
    idempotence).

    A Python [str] is a sequence of Unicode code points; effects (database
    writes, provider calls) are threaded through an explicit state that also
    records the order in which they happen. *)

From Stdlib Require Import List Bool NArith ZArith Lia String Ascii DecimalString.
Import ListNotations.

Set Implicit Arguments.
Set Warnings "-register-all".

(* ================================================================== *)
(** * Python values *)
(* ================================================================== *)

Module Py.

Local Open Scope N_scope.

(** A Python [str]: its code points, in order. *)
Definition pystr := list N.

(** An ASCII literal of the source, as a [pystr]. *)
Definition lit (s : string) : pystr :=
  map N_of_ascii (list_ascii_of_string s).

Fixpoint pystr_eqb (a b : pystr) : bool :=
  match a, b with
  | [], [] => true
  | x :: a', y :: b' => (x =? y) && pystr_eqb a' b'
  | _, _ => false
  end.

(** [a <= b] on Python strings: lexicographic on code points, a proper
    prefix being smaller. *)
Fixpoint str_leb (a b : pystr) : bool :=
  match a, b with
  | [], _ => true
  | _ :: _, [] => false
  | x :: a', y :: b' =>
      if x <? y then true else if x =? y then str_leb a' b' else false
  end.

(** [str.lower()] on the ASCII letters.  The two language tags and the
    string "null" that the code compares lowered text with are ASCII, and no
    character outside ASCII lowers to one of their letters. *)
Definition lower_char (c : N) : N :=
  if (65 <=? c) && (c <=? 90) then c + 32 else c.

Definition lower (s : pystr) : pystr := map lower_char s.

(** [needle in hay] for strings. *)
Fixpoint starts_with (p s : pystr) : bool :=
  match p, s with
  | [], _ => true
  | x :: p', y :: s' => (x =? y) && starts_with p' s'
  | _ :: _, [] => false
  end.

Fixpoint contains (needle hay : pystr) : bool :=
  starts_with needle hay ||
  match hay with
  | [] => false
  | _ :: hay' => contains needle hay'
  end.

(** The values that flow through rows, results and tables.  Floats are
    left out: no branch of the modelled code inspects one.  [PJson v] is
    the text that [json.dumps(v)] (or [model_dump_json()]) returns: a [str],
    never empty, of which only the value it encodes is kept. *)
Inductive pyval : Type :=
| PNone
| PBool (b : bool)
| PInt (z : Z)
| PStr (s : pystr)
| PList (l : list pyval)
| PDict (d : list (pystr * pyval))
| PJson (v : pyval).

(** [bool(v)] *)
Definition truthy (v : pyval) : bool :=
  match v with
  | PNone => false
  | PBool b => b
  | PInt z => negb (Z.eqb z 0)
  | PStr s => match s with [] => false | _ => true end
  | PList l => match l with [] => false | _ => true end
  | PDict d => match d with [] => false | _ => true end
  | PJson _ => true
  end.

Fixpoint pyval_eqb (a b : pyval) {struct a} : bool :=
  match a, b with
  | PNone, PNone => true
  | PBool x, PBool y => Bool.eqb x y
  | PInt x, PInt y => Z.eqb x y
  | PStr x, PStr y => pystr_eqb x y
  | PList x, PList y =>
      (fix go (x y : list pyval) {struct x} : bool :=
         match x, y with
         | [], [] => true
         | u :: x', v :: y' => pyval_eqb u v && go x' y'
         | _, _ => false
         end) x y
  | PDict x, PDict y =>
      (fix go (x y : list (pystr * pyval)) {struct x} : bool :=
         match x, y with
         | [], [] => true
         | (k, u) :: x', (k', v) :: y' =>
             pystr_eqb k k' && pyval_eqb u v && go x' y'
         | _, _ => false
         end) x y
  | PJson x, PJson y => pyval_eqb x y
  | _, _ => false
  end.

(** A [dict] keeps insertion order; lookup finds the binding of the key. *)
Definition dict := list (pystr * pyval).

Fixpoint lookup (d : dict) (k : pystr) : option pyval :=
  match d with
  | [] => None
  | (k', v) :: d' => if pystr_eqb k' k then Some v else lookup d' k
  end.

(** [d.get(k, default)] *)
Definition get (d : dict) (k : pystr) (default : pyval) : pyval :=
  match lookup d k with Some v => v | None => default end.

(** [d.get(k)] where the key itself is a value (it may be [None], which is
    never a key of a row). *)
Definition get_val (d : dict) (k : pyval) : pyval :=
  match k with
  | PStr s => get d s PNone
  | _ => PNone
  end.

Definition has_key (d : dict) (k : pystr) : bool :=
  match lookup d k with Some _ => true | None => false end.

Definition keys (d : dict) : list pystr := map fst d.

(** [d[k] = v]: the binding is replaced in place, or added at the end. *)
Fixpoint set (d : dict) (k : pystr) (v : pyval) : dict :=
  match d with
  | [] => [(k, v)]
  | (k', v') :: d' =>
      if pystr_eqb k' k then (k, v) :: d' else (k', v') :: set d' k v
  end.

(** Exceptions, by the classes the code tells apart.
    [LanguageValidationError] is a subclass of [SchemaValidationError];
    every other class is [OtherError].  The argument is [str(e)]. *)
Inductive exn : Type :=
| LanguageValidationError (msg : pystr)
| SchemaValidationError (msg : pystr)
| OtherError (msg : pystr).

Definition exn_str (e : exn) : pystr :=
  match e with
  | LanguageValidationError m | SchemaValidationError m | OtherError m => m
  end.

(** [isinstance(e, SchemaValidationError)] *)
Definition is_schema_validation_error (e : exn) : bool :=
  match e with
  | LanguageValidationError _ | SchemaValidationError _ => true
  | OtherError _ => false
  end.

(** What a call yields: a value, or a raised exception. *)
Inductive outcome (A : Type) : Type :=
| Ret (a : A)
| Raise (e : exn).

Arguments Ret {A} a.
Arguments Raise {A} e.

(** Decimal digits of a number, as [str(n)] prints them. *)
Definition decimal (n : N) : pystr :=
  lit (NilEmpty.string_of_uint (N.to_uint n)).

(** [str(v)], also what an f-string prints for [v]; [repr] renders the
    containers. *)
Definition str_with (repr : pyval -> pystr) (v : pyval) : pystr :=
  match v with
  | PStr s => s
  | PNone => lit "None"
  | PBool true => lit "True"
  | PBool false => lit "False"
  | PInt z =>
      if (z <? 0)%Z then lit "-" ++ decimal (Z.abs_N z) else decimal (Z.abs_N z)
  | _ => repr v
  end.

End Py.

Import Py.

(* ================================================================== *)
(** * Language validation (schema_managers.py, pydantic_schema.py) *)
(* ================================================================== *)

Module Lang.

Local Open Scope N_scope.

(** [lo <= char <= hi] as the source writes it: a comparison of strings,
    [char] being the one-character string. *)
Definition between (lo hi : pystr) (c : N) : bool :=
  str_leb lo [c] && str_leb [c] hi.

(** The body of the loop of [contains_hanzi].  A [\u] escape takes exactly
    four hexadecimal digits, so the literals written with five digits are
    two-character strings: the literal written u20000 is U+2000 followed by
    the digit 0, the literal written u2a6df is U+2A6D followed by the letter
    f, and so on. *)
Definition hanzi_char (c : N) : bool :=
  between [0x4e00] [0x9fff] c
  || between [0x3400] [0x4dbf] c
  || between [0x2000; 0x30] [0x2a6d; 0x66] c
  || between [0x2a70; 0x30] [0x2b73; 0x66] c
  || between [0x2b74; 0x30] [0x2b81; 0x66] c
  || between [0x2b82; 0x30] [0x2cea; 0x66] c
  || between [0xf900] [0xfaff] c
  || between [0x2f80; 0x30] [0x2fa1; 0x66] c.

Definition contains_hanzi (text : pystr) : bool := existsb hanzi_char text.

Definition zh : pystr := lit "zh".
Definition en : pystr := lit "en".

Definition validate_language (text lang : pystr) : bool :=
  match text, lang with
  | [], _ => true                       (* if not text or not lang *)
  | _, [] => true
  | _, _ =>
      let has_hanzi := contains_hanzi text in
      if pystr_eqb (lower lang) zh then has_hanzi
      else if pystr_eqb (lower lang) en then negb has_hanzi
      else true
  end.

(** The blocks the specification names: U+4E00-U+9FFF, U+3400-U+4DBF
    (Extension A), Extensions B to F, and the two compatibility blocks.
    This definition follows the specification's words, not the source. *)
Definition spec_cjk_ideograph (c : N) : bool :=
  ((0x4E00 <=? c) && (c <=? 0x9FFF))
  || ((0x3400 <=? c) && (c <=? 0x4DBF))
  || ((0x20000 <=? c) && (c <=? 0x2A6DF))
  || ((0x2A700 <=? c) && (c <=? 0x2B73F))
  || ((0x2B740 <=? c) && (c <=? 0x2B81F))
  || ((0x2B820 <=? c) && (c <=? 0x2CEAF))
  || ((0x2CEB0 <=? c) && (c <=? 0x2EBEF))
  || ((0xF900 <=? c) && (c <=? 0xFAFF))
  || ((0x2F800 <=? c) && (c <=? 0x2FA1F)).

(** Characters of the Basic Multilingual Plane outside U+2001-U+2FA1. *)
Definition plain_char (c : N) : bool :=
  (c <=? 0x2000) || ((0x2FA2 <=? c) && (c <=? 0xFFFF)).

(** What [create_pydantic_model_from_schema] attaches to the model it
    builds: the [lang] of each field that declares one, and the [lang] of
    the items of each array field that declares one.  A [lang] is whatever
    the YAML holds. *)
Record requirements : Type := {
  language_requirements : list (pystr * pyval);
  array_language_requirements : list (pystr * pyval)
}.

Section Validate.

(** [str(value)] for a list or a dict. *)
Variable repr : pyval -> pystr.

Definition str_of (v : pyval) : pystr := str_with repr v.

Definition expected_desc (lang : pystr) : pystr :=
  if pystr_eqb (lower lang) zh then lit "Chinese characters"
  else lit "English (no Chinese characters)".

(** [validate_language(str(value), expected_lang)]; [lang.lower()] raises
    when the YAML gave something that is not a string. *)
Definition check_value (v lang : pyval) : outcome bool :=
  match lang with
  | PStr l => Ret (validate_language (str_of v) l)
  | _ =>
      if truthy (PStr (str_of v))
      then Raise (OtherError (lit "object has no attribute 'lower'"))
      else Ret true
  end.

Definition field_message (field : pystr) (lang v : pyval) : pystr :=
  lit "Field '" ++ field ++ lit "' must be in " ++ str_of lang ++ lit " ("
  ++ expected_desc (str_of lang) ++ lit "), got: "
  ++ firstn 50 (str_of v) ++ lit "...".

Definition item_message (field : pystr) (i : nat) (lang v : pyval) : pystr :=
  lit "Array field '" ++ field ++ lit "' item " ++ decimal (N.of_nat i)
  ++ lit " must be in " ++ str_of lang ++ lit " ("
  ++ expected_desc (str_of lang) ++ lit "), got: "
  ++ firstn 50 (str_of v) ++ lit "...".

(** First loop of [validate_languages]: the fields themselves. *)
Fixpoint validate_fields (instance : dict) (reqs : list (pystr * pyval))
  : outcome unit :=
  match reqs with
  | [] => Ret tt
  | (field_name, expected_lang) :: reqs' =>
      let value := get instance field_name PNone in
      match value with
      | PNone => validate_fields instance reqs'
      | _ =>
          match check_value value expected_lang with
          | Raise e => Raise e
          | Ret false =>
              Raise (LanguageValidationError
                       (field_message field_name expected_lang value))
          | Ret true => validate_fields instance reqs'
          end
      end
  end.

Fixpoint validate_items (field_name : pystr) (expected_lang : pyval)
  (i : nat) (items : list pyval) : outcome unit :=
  match items with
  | [] => Ret tt
  | item :: items' =>
      match item with
      | PNone => validate_items field_name expected_lang (S i) items'
      | _ =>
          match check_value item expected_lang with
          | Raise e => Raise e
          | Ret false =>
              Raise (LanguageValidationError
                       (item_message field_name i expected_lang item))
          | Ret true => validate_items field_name expected_lang (S i) items'
          end
      end
  end.

(** Second loop: the items of array fields. *)
Fixpoint validate_arrays (instance : dict) (reqs : list (pystr * pyval))
  : outcome unit :=
  match reqs with
  | [] => Ret tt
  | (field_name, expected_lang) :: reqs' =>
      match get instance field_name PNone with
      | PList value_list =>
          match validate_items field_name expected_lang 0 value_list with
          | Raise e => Raise e
          | Ret _ => validate_arrays instance reqs'
          end
      | _ => validate_arrays instance reqs'
      end
  end.

Definition validate_languages (r : requirements) (instance : dict)
  : outcome unit :=
  match validate_fields instance (language_requirements r) with
  | Raise e => Raise e
  | Ret _ => validate_arrays instance (array_language_requirements r)
  end.

End Validate.

End Lang.

(* ================================================================== *)
(** * Enum lists (schema_managers.EnumListSchemaManager) *)
(* ================================================================== *)

Module EnumList.

Record EnumListSchemaManager : Type := {
  choices : list pystr;
  case_sensitive : bool;
  min_items : option Z;        (* an int, or None *)
  max_items : option Z;
  unique_items : bool
}.

(** [if self.min_items and ...]: neither [None] nor [0]. *)
Definition bound_set (b : option Z) : bool :=
  match b with
  | Some z => negb (Z.eqb z 0)
  | None => false
  end.

Definition bound_value (b : option Z) : Z :=
  match b with Some z => z | None => 0%Z end.

Definition mem (x : pystr) (l : list pystr) : bool :=
  existsb (pystr_eqb x) l.

(** The three messages of [validate_response]; each is raised as a
    [SchemaValidationError]. *)
Inductive rejection : Type :=
| NotAllowed (item : pystr)
| TooFew (min : Z) (got : nat)
| TooMany (max : Z) (got : nat).

(** "Find the original case version": the choice at the first index whose
    lowered spelling is the lowered item. *)
Fixpoint original_case (choices lowered : list pystr) (item : pystr)
  : option pystr :=
  match choices, lowered with
  | c :: choices', l :: lowered' =>
      if pystr_eqb l item then Some c else original_case choices' lowered' item
  | _, _ => None
  end.

(** The loop "Validate each item". *)
Fixpoint validate_each (m : EnumListSchemaManager)
  (choices_to_check : list pystr) (parsed_list : list pystr)
  : rejection + list pystr :=
  match parsed_list with
  | [] => inr []
  | item :: rest =>
      let item_to_check := if case_sensitive m then item else lower item in
      if mem item_to_check choices_to_check then
        match validate_each m choices_to_check rest with
        | inl r => inl r
        | inr validated =>
            if case_sensitive m then inr (item :: validated)
            else
              match original_case (choices m) choices_to_check item_to_check with
              | Some c => inr (c :: validated)
              | None => inr validated
              end
        end
      else inl (NotAllowed item)
  end.

(** "Preserve order while removing duplicates": the loop over
    [validated_items] with its [seen] set. *)
Fixpoint deduplicate (seen : list pystr) (items : list pystr) : list pystr :=
  match items with
  | [] => []
  | item :: rest =>
      if mem item seen then deduplicate seen rest
      else item :: deduplicate (item :: seen) rest
  end.

(** [validate_response], from the parsed list on. *)
Definition validate_response (m : EnumListSchemaManager)
  (parsed_list : list pystr) : rejection + list pystr :=
  let choices_to_check :=
    if case_sensitive m then choices m else map lower (choices m) in
  match validate_each m choices_to_check parsed_list with
  | inl r => inl r
  | inr validated_items =>
      let validated_items :=
        if unique_items m then deduplicate [] validated_items
        else validated_items in
      let n := List.length validated_items in
      if bound_set (min_items m) && (Z.of_nat n <? bound_value (min_items m))%Z
      then inl (TooFew (bound_value (min_items m)) n)
      else if bound_set (max_items m)
              && (bound_value (max_items m) <? Z.of_nat n)%Z
      then inl (TooMany (bound_value (max_items m)) n)
      else inr validated_items
  end.

(** The specification's [dedupe_preserving_order]: an element stays iff it
    does not occur earlier in the list.  This definition follows the
    specification's words. *)
Fixpoint keep_first_from (earlier : list pystr) (xs : list pystr)
  : list pystr :=
  match xs with
  | [] => []
  | x :: xs' =>
      (if mem x earlier then [] else [x]) ++ keep_first_from (earlier ++ [x]) xs'
  end.

Definition dedupe_preserving_order (xs : list pystr) : list pystr :=
  keep_first_from [] xs.

(** [xs] intersected with the allowed set, in the order of [xs]. *)
Definition inter (xs allowed : list pystr) : list pystr :=
  filter (fun x => mem x allowed) xs.

(** The law of the specification for an enum list with allowed set
    [allowed] and bounds [lo] and [hi]: a value outside the set rejects the
    reply; otherwise the reply, restricted to the set and deduplicated, is
    checked against the bounds and stored.  This definition follows the
    specification's words; a bound that is absent or 0 is not enforced. *)
Definition enum_list_law (allowed : list pystr) (lo hi : option Z)
  (xs : list pystr) : rejection + list pystr :=
  match find (fun x => negb (mem x allowed)) xs with
  | Some x => inl (NotAllowed x)
  | None =>
      let stored := dedupe_preserving_order (inter xs allowed) in
      let n := List.length stored in
      if bound_set lo && (Z.of_nat n <? bound_value lo)%Z
      then inl (TooFew (bound_value lo) n)
      else if bound_set hi && (bound_value hi <? Z.of_nat n)%Z
      then inl (TooMany (bound_value hi) n)
      else inr stored
  end.

(** What pydantic enforces for the type [yaml_to_pydantic_type] builds for
    an [enum_list] field, [List[enum_class]] with [min_length] and
    [max_length]: every item is a member of the enum and the length of the
    list as received is within the bounds that the YAML gave. *)
Definition pydantic_accepts (choices : list pystr)
  (min_length max_length : option Z) (xs : list pystr) : bool :=
  forallb (fun x => mem x choices) xs
  && match min_length with
     | Some lo => (lo <=? Z.of_nat (List.length xs))%Z
     | None => true
     end
  && match max_length with
     | Some hi => (Z.of_nat (List.length xs) <=? hi)%Z
     | None => true
     end.

End EnumList.

(* ================================================================== *)
(** * Token estimation and truncation *)
(* ================================================================== *)

Module Tokens.

Local Open Scope Z_scope.

Definition len (s : pystr) : Z := Z.of_nat (List.length s).

(** [MODEL_CONTEXT_LIMITS], the same table in llm_operations.py and in
    llm/token_utils.py. *)
Definition MODEL_CONTEXT_LIMITS : list (pystr * Z) :=
  [ (lit "gpt-4o-mini", 128000);
    (lit "gpt-4o", 128000);
    (lit "gpt-4", 8192);
    (lit "gpt-4-32k", 32768);
    (lit "gpt-3.5-turbo", 16384);
    (lit "gpt-3.5-turbo-16k", 16384);
    (lit "gemini-2.5-flash-preview-05-20", 1000000);
    (lit "models/gemini-2.5-flash-preview-05-20", 1000000);
    (lit "gemini-2.5-flash", 1000000);
    (lit "models/gemini-2.5-flash", 1000000);
    (lit "gemini-2.0-flash", 1000000);
    (lit "models/gemini-2.0-flash", 1000000) ].

Fixpoint limit_of (table : list (pystr * Z)) (model : pystr) : Z :=
  match table with
  | [] => 8192
  | (m, l) :: table' => if pystr_eqb m model then l else limit_of table' model
  end.

(** [MODEL_CONTEXT_LIMITS.get(model, 8192)] *)
Definition context_limit (model : pystr) : Z :=
  limit_of MODEL_CONTEXT_LIMITS model.

(** [len(text) // 4] *)
Definition estimate_tokens (text : pystr) : Z := len text / 4.

(** [s[:n]] *)
Definition slice_to (s : pystr) (n : Z) : pystr :=
  if 0 <=? n then firstn (Z.to_nat n) s
  else firstn (List.length s - Z.to_nat (- n)) s.

(** [s.rfind(' ')]: the index of the last space, or -1. *)
Fixpoint rfind_from (i : Z) (found : Z) (s : pystr) : Z :=
  match s with
  | [] => found
  | c :: s' => rfind_from (i + 1) (if N.eqb c 32 then i else found) s'
  end.

Definition rfind_space (s : pystr) : Z := rfind_from 0 (-1) s.

Definition DEFAULT_SAFETY_MARGIN : Z := 2000.

(** [truncate_input_for_model] of llm_operations.py, the one that
    [process_row_structured] and [process_row] call.  The test
    [last_space > max_input_chars * 0.8] is on exact values, so it is
    [5 * last_space > 4 * max_input_chars]. *)
Definition truncate_input_for_model (full_prompt input_text model : pystr)
  (safety_margin : Z) : pystr * bool :=
  let context_limit := context_limit model in
  let prompt_tokens := estimate_tokens full_prompt in
  let input_tokens := estimate_tokens input_text in
  let total_tokens := prompt_tokens + input_tokens in
  let max_allowed_tokens := context_limit - safety_margin in
  if total_tokens <=? max_allowed_tokens then (input_text, false)
  else
    let max_input_tokens := max_allowed_tokens - prompt_tokens in
    if max_input_tokens <=? 0 then ([], true)
    else
      let max_input_chars := max_input_tokens * 4 in
      let truncated_input := slice_to input_text max_input_chars in
      let truncated_input :=
        if len truncated_input <? len input_text then
          let last_space := rfind_space truncated_input in
          if 4 * max_input_chars <? 5 * last_space
          then slice_to truncated_input last_space
          else truncated_input
        else truncated_input in
      (truncated_input, true).

Definition newlines : pystr := [10; 10]%N.

(** Lines 693-714 of [process_row_structured]: the text that is sent to the
    provider and recorded as [full_prompt], with the [was_truncated] flag. *)
Definition full_prompt_content (truncate : bool)
  (templated_prompt input_text model : pystr) : pystr * bool :=
  let '(final_input_text, was_truncated) :=
    if truncate
    then truncate_input_for_model templated_prompt input_text model
           DEFAULT_SAFETY_MARGIN
    else (input_text, false) in
  (templated_prompt ++ newlines ++ final_input_text, was_truncated).

Definition TRUNCATED : pystr := lit "[TRUNCATED]".

(** [s.replace(old, new)]: the occurrences of [old], leftmost first and
    not overlapping.  [skip] counts the characters of the occurrence being
    replaced that are still to be dropped. *)
Fixpoint replace_go (old new : pystr) (skip : nat) (s : pystr) : pystr :=
  match skip with
  | S k =>
      match s with
      | [] => []
      | _ :: s' => replace_go old new k s'
      end
  | O =>
      match s with
      | [] => []
      | c :: s' =>
          if starts_with old s
          then new ++ replace_go old new (List.length old - 1) s'
          else c :: replace_go old new 0 s'
      end
  end.

(** With an empty [old], [new] goes before every character and at the
    end. *)
Definition replace (old new s : pystr) : pystr :=
  match old with
  | [] => flat_map (fun c => new ++ [c]) s ++ new
  | _ => replace_go old new 0 s
  end.

(** [truncate_input_for_model] of llm/token_utils.py, the one that
    llm/processors/enrichment.py calls. *)
Definition token_utils_truncate_input_for_model
  (full_prompt input_text model : pystr) (safety_margin : Z) : pystr * bool :=
  let context_limit := context_limit model in
  let estimated_tokens := estimate_tokens full_prompt in
  if estimated_tokens <=? context_limit - safety_margin
  then (full_prompt, false)
  else
    let base_prompt := replace input_text [] full_prompt in
    let base_tokens := estimate_tokens base_prompt in
    let available_for_input := context_limit - safety_margin - base_tokens in
    if available_for_input <=? 0 then (full_prompt, true)
    else
      let max_input_chars := available_for_input * 4 in
      if max_input_chars <? len input_text then
        let truncated_input :=
          slice_to input_text max_input_chars ++ lit "... [TRUNCATED]" in
        (replace input_text truncated_input full_prompt, true)
      else (full_prompt, false).

End Tokens.

(* ================================================================== *)
(** * The query planner (utils/query_utils.py) *)
(* ================================================================== *)

Module Query.

Local Open Scope N_scope.

(** ** The regular expressions of the module

    Every pattern of query_utils.py is a sequence of literals, [\s+],
    [\d+], [\b] and the lookahead [(?=\s|$)], matched with
    [re.IGNORECASE].  Character classes and case folding are those of
    ASCII text, which is what SQL statements are made of. *)

(** [\s] *)
Definition is_space (c : N) : bool :=
  ((9 <=? c) && (c <=? 13)) || ((28 <=? c) && (c <=? 32)).

(** [\d] *)
Definition is_digit (c : N) : bool := (48 <=? c) && (c <=? 57).

(** [\w] *)
Definition is_word (c : N) : bool :=
  is_digit c || ((65 <=? c) && (c <=? 90)) || ((97 <=? c) && (c <=? 122))
  || (c =? 95).

Definition upper_char (c : N) : N :=
  if (97 <=? c) && (c <=? 122) then c - 32 else c.

(** [str.upper()] *)
Definition upper (s : pystr) : pystr := map upper_char s.

Inductive atom : Type :=
| Lit (text : pystr)        (* the text itself, in any case *)
| Plus (cls : N -> bool)    (* one or more of a class, greedy *)
| WordBoundary              (* \b *)
| SpaceOrEndAhead.          (* (?=\s|$) *)

Definition regex := list atom.

(** A literal at the head of [s], case ignored: what it matched and the
    rest. *)
Fixpoint match_lit (text s : pystr) : option (pystr * pystr) :=
  match text, s with
  | [], _ => Some ([], s)
  | x :: text', y :: s' =>
      if lower_char x =? lower_char y then
        match match_lit text' s' with
        | Some (m, rest) => Some (y :: m, rest)
        | None => None
        end
      else None
  | _ :: _, [] => None
  end.

Definition word_before (prev : option N) : bool :=
  match prev with Some c => is_word c | None => false end.

Definition word_after (s : pystr) : bool :=
  match s with c :: _ => is_word c | [] => false end.

Definition last_of (prev : option N) (m : pystr) : option N :=
  match rev m with c :: _ => Some c | [] => prev end.

(** [match_here r prev s]: the pattern [r] at the head of [s], [prev] being
    the character before it.  The result is the text matched by each atom
    and what follows the match; [Plus] takes as much as it can and gives
    back when the rest of the pattern fails. *)
Fixpoint match_here (r : regex) (prev : option N) (s : pystr)
  : option (list pystr * pystr) :=
  match r with
  | [] => Some ([], s)
  | a :: r' =>
      match a with
      | Lit text =>
          match match_lit text s with
          | Some (m, rest) =>
              match match_here r' (last_of prev m) rest with
              | Some (ms, rest') => Some (m :: ms, rest')
              | None => None
              end
          | None => None
          end
      | Plus cls =>
          (fix more (taken : pystr) (s : pystr) {struct s}
             : option (list pystr * pystr) :=
             match s with
             | [] => None
             | c :: s' =>
                 if cls c then
                   match more (taken ++ [c]) s' with
                   | Some res => Some res
                   | None =>
                       match match_here r' (Some c) s' with
                       | Some (ms, rest') => Some ((taken ++ [c]) :: ms, rest')
                       | None => None
                       end
                   end
                 else None
             end) [] s
      | WordBoundary =>
          if xorb (word_before prev) (word_after s) then
            match match_here r' prev s with
            | Some (ms, rest') => Some ([] :: ms, rest')
            | None => None
            end
          else None
      | SpaceOrEndAhead =>
          if match s with [] => true | c :: _ => is_space c end then
            match match_here r' prev s with
            | Some (ms, rest') => Some ([] :: ms, rest')
            | None => None
            end
          else None
      end
  end.

(** [re.search(r, s)]: is there a match at some position? *)
Fixpoint search_from (r : regex) (prev : option N) (s : pystr) : bool :=
  match match_here r prev s with
  | Some _ => true
  | None =>
      match s with
      | [] => false
      | c :: s' => search_from r (Some c) s'
      end
  end.

Definition search (r : regex) (s : pystr) : bool := search_from r None s.

(** [re.sub(r, repl, s)]: every match, leftmost first and not overlapping,
    is replaced by [repl] applied to the texts its atoms matched.  [skip]
    counts the characters of the current match still to be dropped.  None
    of the patterns below matches the empty string. *)
Fixpoint sub_from (r : regex) (repl : list pystr -> pystr)
  (prev : option N) (skip : nat) (s : pystr) : pystr :=
  match skip with
  | S k =>
      match s with
      | [] => []
      | c :: s' => sub_from r repl (Some c) k s'
      end
  | O =>
      match s with
      | [] => []
      | c :: s' =>
          match match_here r prev s with
          | Some (ms, rest) =>
              let n := (List.length s - List.length rest)%nat in
              match n with
              | O => repl ms ++ c :: sub_from r repl (Some c) 0 s'
              | S k => repl ms ++ sub_from r repl (Some c) k s'
              end
          | None => c :: sub_from r repl (Some c) 0 s'
          end
      end
  end.

Definition sub (r : regex) (repl : list pystr -> pystr) (s : pystr) : pystr :=
  sub_from r repl None 0 s.

Definition group (ms : list pystr) (i : nat) : pystr := nth i ms [].

(** ** ensure_rowid_in_query *)

(** [\browid\b] *)
Definition rowid_word : regex := [WordBoundary; Lit (lit "rowid"); WordBoundary].

(** [(SELECT\s+)\*(\s+FROM)] *)
Definition select_star_pattern : regex :=
  [Lit (lit "SELECT"); Plus is_space; Lit (lit "*"); Plus is_space;
   Lit (lit "FROM")].

Definition ensure_rowid_in_query (query : pystr) : pystr :=
  if search rowid_word query then query
  else if search select_star_pattern query then
    sub select_star_pattern
      (fun ms => group ms 0 ++ group ms 1 ++ lit "rowid, *"
                 ++ group ms 3 ++ group ms 4)
      query
  else query.

(** ** apply_null_filters *)

(** [WHERE\s+<column>\s+IS\s+NULL\s+AND] *)
Definition where_null_and (column : pystr) : regex :=
  [Lit (lit "WHERE"); Plus is_space; Lit column; Plus is_space;
   Lit (lit "IS"); Plus is_space; Lit (lit "NULL"); Plus is_space;
   Lit (lit "AND")].

(** [WHERE\s+<column>\s+IS\s+NULL(?=\s|$)] *)
Definition where_null (column : pystr) : regex :=
  [Lit (lit "WHERE"); Plus is_space; Lit column; Plus is_space;
   Lit (lit "IS"); Plus is_space; Lit (lit "NULL"); SpaceOrEndAhead].

(** [AND\s+<column>\s+IS\s+NULL(?=\s|$)] *)
Definition and_null (column : pystr) : regex :=
  [Lit (lit "AND"); Plus is_space; Lit column; Plus is_space;
   Lit (lit "IS"); Plus is_space; Lit (lit "NULL"); SpaceOrEndAhead].

(** [<column>\s+IS\s+NULL] *)
Definition is_null (column : pystr) : regex :=
  [Lit column; Plus is_space; Lit (lit "IS"); Plus is_space; Lit (lit "NULL")].

(** [(\s+WHERE\s+)] *)
Definition where_clause : regex :=
  [Plus is_space; Lit (lit "WHERE"); Plus is_space].

Definition strip_with (pattern : regex) (query : pystr) : pystr :=
  if search pattern query
  then sub pattern (fun _ => lit "WHERE 1=1") query
  else query.

(** [re.sub] reads its replacement as a template.  In
    [rf'\1{column} IS NULL AND '] a column name that starts with a digit
    continues the group reference [\1] (a reference to a group that the
    pattern lacks, which raises [re.error], or an octal escape), and a
    backslash in the name starts an escape.  For a name that is an
    identifier (letters, digits and [_], no digit first) the template is
    group 1 followed by the name and [ IS NULL AND ], which is what
    [apply_null_filters] below puts in; it is defined for such names. *)
Definition is_identifier (column : pystr) : bool :=
  forallb is_word column
  && match column with
     | c :: _ => negb (is_digit c)
     | [] => true
     end.

Definition apply_null_filters (query column : pystr) (overwrite : bool)
  : pystr :=
  if overwrite then
    fold_left (fun q pattern => strip_with pattern q)
      [where_null_and column; where_null column; and_null column] query
  else if negb (search (is_null column) query) then
    if contains (lit "WHERE") (upper query) then
      sub where_clause
        (fun ms => group ms 0 ++ group ms 1 ++ group ms 2 ++ column
                   ++ lit " IS NULL AND ")
        query
    else query ++ lit " WHERE " ++ column ++ lit " IS NULL"
  else query.

(** ** add_order_and_limit *)

(** [(\s+LIMIT\s+)] *)
Definition limit_clause : regex :=
  [Plus is_space; Lit (lit "LIMIT"); Plus is_space].

(** [LIMIT\s+\d+] *)
Definition limit_number : regex :=
  [Lit (lit "LIMIT"); Plus is_space; Plus is_digit].

(** [limit] is [None] or an int; [if limit:] passes for an int other
    than 0. *)
Definition add_order_and_limit (query : pystr) (limit : option N) : pystr :=
  let query :=
    if negb (contains (lit "ORDER BY") (upper query)) then
      if contains (lit "LIMIT") (upper query) then
        sub limit_clause
          (fun ms => lit " ORDER BY rowid" ++ group ms 0 ++ group ms 1
                     ++ group ms 2)
          query
      else query ++ lit " ORDER BY rowid"
    else query in
  match limit with
  | Some n =>
      if n =? 0 then query
      else if negb (contains (lit "LIMIT") (upper query))
      then query ++ lit " LIMIT " ++ decimal n
      else sub limit_number (fun _ => lit "LIMIT " ++ decimal n) query
  | None => query
  end.

(** ** The pipeline, as [EnrichmentService._build_query] composes it for a
    named or raw query (neither [--rowid] nor [--sha1]). *)
Definition plan (base_query column : pystr) (direct_column overwrite : bool)
  (limit : option N) : pystr :=
  let base_query :=
    if direct_column then apply_null_filters base_query column overwrite
    else base_query in
  ensure_rowid_in_query (add_order_and_limit base_query limit).

End Query.

(* ================================================================== *)
(** * Strategy resolution (enrichment_config.py, pydantic_schema.py) *)
(* ================================================================== *)

Module Strategy.

Inductive storage : Type := direct_column | separate_table.

(** The dynamic model, as far as the engine uses it: its fields and the
    language requirements attached to it. *)
Record DynamicModel : Type := {
  model_fields : list pystr;
  requirements : Lang.requirements
}.

Record EnrichmentStrategy : Type := {
  input_table : pyval;
  input_columns : pyval;
  storage_mode : storage;
  output_table : pyval;               (* None in direct_column mode *)
  output_columns : list pystr;
  key_column : pyval;
  schema_dict : pyval;
  pydantic_model : option DynamicModel
}.

(** [analyze_schema_complexity] *)
Record analysis : Type := {
  field_count : nat;
  is_simple : bool;
  is_complex : bool;
  field_names : list pystr;
  requires_separate_table : bool
}.

Definition analyze_schema_complexity (schema : pyval) : analysis :=
  match schema with
  | PDict d =>
      {| field_count := List.length d;
         is_simple := Nat.eqb (List.length d) 1;
         is_complex := Nat.ltb 1 (List.length d);
         field_names := keys d;
         requires_separate_table := Nat.ltb 1 (List.length d) |}
  | _ =>
      {| field_count := 0; is_simple := false; is_complex := false;
         field_names := []; requires_separate_table := false |}
  end.

(** [a or b] on values *)
Definition por (a b : pyval) : pyval := if truthy a then a else b.

Section Compile.

(** The two library calls of pydantic_schema.py: [Enum(name, {val: val})]
    on the values of an enum, and [Field] (on the keyword arguments) with [create_model] on
    the fields of the schema.  Each one builds or raises. *)
Variable enum_builds : list pyval -> bool.
Variable create_model_builds : dict -> bool.

Definition type_mapping : list pystr :=
  map lit ["string"; "str"; "float"; "integer"; "int"; "boolean"; "bool";
           "array"; "list"; "object"; "dict"]%string.

Definition in_strs (s : pystr) (l : list pystr) : bool :=
  existsb (pystr_eqb s) l.

Definition is_str (v : pyval) (s : string) : bool :=
  match v with PStr x => pystr_eqb x (lit s) | _ => false end.

(** Does [yaml_to_pydantic_type] return for this definition?  It raises on
    an empty or ill-typed enum, a missing or unsupported [type], and on the
    Python errors that a definition of the wrong shape runs into.  [fuel]
    bounds the descent into [items]. *)
Fixpoint yaml_type_builds (fuel : nat) (def : pyval) : bool :=
  let on_dict (d : dict) :=
    if has_key d (lit "enum") then
      match get d (lit "enum") PNone with
      | PList (v :: vs) => enum_builds (v :: vs)
      | _ => false
      end
    else if has_key d (lit "enum_list") then
      match get d (lit "enum_list") PNone with
      | PList (v :: vs) => enum_builds (v :: vs)
      | _ => false
      end
    else
      match get d (lit "type") PNone with
      | PStr base_type =>
          let base_type :=
            if pystr_eqb base_type (lit "number") then lit "float"
            else base_type in
          if in_strs base_type type_mapping then
            if in_strs base_type [lit "array"; lit "list"] then
              match get d (lit "items") PNone with
              | PDict items =>
                  match items, fuel with
                  | [], _ => true
                  | _, S fuel' => yaml_type_builds fuel' (PDict items)
                  | _, O => false
                  end
              | _ => true
              end
            else true
          else false
      | _ => false
      end in
  match def with
  | PStr s => on_dict [(lit "type", PStr s)]
  | PDict d => on_dict d
  | PList l =>
      if existsb (fun v => is_str v "enum" || is_str v "enum_list") l
      then false
      else enum_builds l
  | _ => false
  end.

(** Nesting depth of a value: enough fuel for [yaml_type_builds]. *)
Fixpoint depth (v : pyval) : nat :=
  match v with
  | PList l => S (fold_right (fun x n => Nat.max (depth x) n) 0 l)
  | PDict d => S (fold_right (fun kv n => Nat.max (depth (snd kv)) n) 0 d)
  | PJson x => S (depth x)
  | _ => 0
  end.

(** The loop that collects [language_requirements] and
    [array_language_requirements]. *)
Definition field_lang (field : pystr * pyval) : list (pystr * pyval) :=
  match snd field with
  | PDict d =>
      if truthy (get d (lit "lang") PNone)
      then [(fst field, get d (lit "lang") PNone)] else []
  | _ => []
  end.

Definition field_array_lang (field : pystr * pyval) : list (pystr * pyval) :=
  match snd field with
  | PDict d =>
      if is_str (get d (lit "type") PNone) "array" then
        match get d (lit "items") PNone with
        | PDict items =>
            if truthy (get items (lit "lang") PNone)
            then [(fst field, get items (lit "lang") PNone)] else []
        | _ => []
        end
      else []
  | _ => []
  end.

Definition create_pydantic_model_from_schema (schema : pyval)
  : outcome DynamicModel :=
  match schema with
  | PDict [] => Raise (OtherError (lit "Schema cannot be empty"))
  | PDict d =>
      if forallb (fun f => yaml_type_builds (depth (snd f)) (snd f)) d then
        if create_model_builds d then
          Ret {| model_fields := keys d;
                 requirements :=
                   {| Lang.language_requirements := flat_map field_lang d;
                      Lang.array_language_requirements :=
                        flat_map field_array_lang d |} |}
        else Raise (OtherError (lit "Failed to create Pydantic model"))
      else Raise (OtherError (lit "Error processing field"))
  | _ => Raise (OtherError (lit "Schema must be a dictionary"))
  end.

(** [enrichment_name.title()]: the name is a [str]. *)
Definition name_is_text (enrichment_config : dict) : bool :=
  match get enrichment_config (lit "name") (PStr (lit "unnamed")) with
  | PStr _ => true
  | _ => false
  end.

(** [enrichment_config.get('input', {}).get]: the entry is a mapping. *)
Definition input_is_mapping (enrichment_config : dict) : bool :=
  match get enrichment_config (lit "input") (PDict []) with
  | PDict _ => true
  | _ => false
  end.

(** [constraints.get("optional", False) or constraints.get("nullable",
    False)], which [yaml_to_pydantic_type] reaches for a definition with
    neither [enum] nor [enum_list]. *)
Definition marked_optional (def : pyval) : bool :=
  match def with
  | PDict d =>
      negb (has_key d (lit "enum")) && negb (has_key d (lit "enum_list"))
      && (truthy (get d (lit "optional") (PBool false))
          || truthy (get d (lit "nullable") (PBool false)))
  | _ => false
  end.

(** The loop over [pydantic_model.model_fields] that fills
    [sql_column_types].  The annotation of a field is the type that
    [yaml_to_pydantic_type] returned: a class, [List[...]] or
    [Dict[...]], for which [get_sql_type_from_pydantic_type] returns; or
    that type wrapped in [Optional], for which it reaches
    [issubclass(python_type, Enum)] with something that is not a class,
    and a TypeError is raised. *)
Definition sql_types_build (enrichment_config : dict) (schema : pyval)
  : bool :=
  match schema with
  | PDict d =>
      negb (truthy (get enrichment_config (lit "all_fields_optional")
                      (PBool false)))
      && forallb (fun f => negb (marked_optional (snd f))) d
  | _ => true
  end.

Definition determine_enrichment_strategy (enrichment_config : dict)
  (default_table : pystr) : outcome EnrichmentStrategy :=
  let schema_dict := get enrichment_config (lit "schema") PNone in
  if negb (truthy schema_dict)
  then Raise (OtherError (lit "must specify a schema"))
  else
    let schema_analysis := analyze_schema_complexity schema_dict in
    let input_table :=
      por (get enrichment_config (lit "input_table") PNone)
        (por (get enrichment_config (lit "table") PNone)
           (PStr default_table)) in
    match get enrichment_config (lit "input") (PDict []) with
    | PDict input_config =>
        let input_columns :=
          get input_config (lit "input_columns")
            (PList [PStr (lit "raw_content")]) in
        let input_columns :=
          match input_columns with
          | PStr s => PList [PStr s]
          | _ => input_columns
          end in
        let output_table := get enrichment_config (lit "output_table") PNone in
        if is_complex schema_analysis && negb (truthy output_table)
        then Raise (OtherError
                      (lit "Complex schemas require output_table."))
        else
          let storage_mode :=
            if truthy output_table then separate_table else direct_column in
          let output_columns := field_names schema_analysis in
          if negb (name_is_text enrichment_config)
          then Raise (OtherError (lit "object has no attribute 'title'"))
          else
          match create_pydantic_model_from_schema schema_dict with
          | Raise e => Raise e
          | Ret built =>
              if negb (sql_types_build enrichment_config schema_dict)
              then Raise (OtherError
                            (lit "issubclass() arg 1 must be a class"))
              else
              Ret {| input_table := input_table;
                     input_columns := input_columns;
                     storage_mode := storage_mode;
                     output_table :=
                       match storage_mode with
                       | separate_table => output_table
                       | direct_column => PNone
                       end;
                     output_columns := output_columns;
                     key_column :=
                       get enrichment_config (lit "key_column")
                         (PStr (lit "sha1"));
                     schema_dict := schema_dict;
                     pydantic_model := Some built |}
          end
    | _ => Raise (OtherError (lit "object has no attribute 'get'"))
    end.

(** What the configuration has to provide besides a schema and, for a
    schema of several fields, an output table: a name that is text, an
    [input] entry that is a mapping (or none), a schema from which the
    model builds, and no optional field. *)
Definition well_formed (enrichment_config : dict) : bool :=
  name_is_text enrichment_config
  && input_is_mapping enrichment_config
  && match create_pydantic_model_from_schema
             (get enrichment_config (lit "schema") PNone) with
     | Ret _ => true
     | Raise _ => false
     end
  && sql_types_build enrichment_config
       (get enrichment_config (lit "schema") PNone).

End Compile.

End Strategy.

(* ================================================================== *)
(** * The store (db_operations.py) *)
(* ================================================================== *)

Module Store.

(** A row of the query result.  [sha1] is the TEXT key written by the
    ingest and [rowid] SQLite's integer row id; either may be missing from
    the projection.  The other columns are in [columns]. *)
Record Row : Type := {
  row_sha1 : option pystr;
  row_rowid : option Z;
  columns : dict
}.

(** [row.get(k, default)] *)
Definition row_get (row : Row) (k : pystr) (default : pyval) : pyval :=
  if pystr_eqb k (lit "sha1") then
    match row_sha1 row with Some s => PStr s | None => default end
  else if pystr_eqb k (lit "rowid") then
    match row_rowid row with Some z => PInt z | None => default end
  else get (columns row) k default.

(** [row.get(k)] for a key that may be [None]. *)
Definition row_get_val (row : Row) (k : pyval) : pyval :=
  match k with
  | PStr s => row_get row s PNone
  | _ => PNone
  end.

Definition NO_SHA1 : pystr := lit "NO_SHA1".
Definition NO_ROWID : pyval := PStr (lit "NO_ROWID").
Definition NO_KEY : pyval := PStr (lit "NO_KEY").

(** [row.get('sha1', 'NO_SHA1')] *)
Definition sha1_of (row : Row) : pystr :=
  match row_sha1 row with Some s => s | None => NO_SHA1 end.

(** [column = ?] in a WHERE clause: NULL equals nothing. *)
Definition sql_eq (a b : pyval) : bool :=
  match a, b with
  | PNone, _ | _, PNone => false
  | _, _ => pyval_eqb a b
  end.

(** A row of [enrichment_responses] ([id] and [created_at] left out). *)
Record audit_row : Type := {
  enrichment_id : pyval;
  sha1 : pystr;
  enrichment_name : pystr;
  raw_json : pyval;
  model_used : pystr;
  prompt_id : pyval;
  full_prompt : pyval
}.

(** [SELECT 1 FROM enrichment_responses WHERE sha1 = ? AND
    enrichment_name = ? AND model_used = ? LIMIT 1] returns a row. *)
Definition already_processed (audit : list audit_row)
  (s name model : pystr) : bool :=
  existsb (fun a => pystr_eqb (sha1 a) s
                    && pystr_eqb (enrichment_name a) name
                    && pystr_eqb (model_used a) model) audit.

(** An output table: its column names and its rows. *)
Record table : Type := {
  column_names : list pystr;
  rows : list dict
}.

Definition tables := list (pystr * table).

(** [SELECT name FROM sqlite_master WHERE type='table' AND name=?] *)
Fixpoint find_table (ts : tables) (name : pyval) : option table :=
  match ts with
  | [] => None
  | (n, t) :: ts' =>
      if sql_eq (PStr n) name then Some t else find_table ts' name
  end.

Fixpoint put_table (ts : tables) (name : pystr) (t : table) : tables :=
  match ts with
  | [] => [(name, t)]
  | (n, t') :: ts' =>
      if pystr_eqb n name then (n, t) :: ts' else (n, t') :: put_table ts' name t
  end.

Definition has_column (t : table) (c : string) : bool :=
  existsb (pystr_eqb (lit c)) (column_names t).

(** The WHERE clause of the lookups in an output table: the key, and the
    model when the table has a [model_used] column. *)
Definition key_matches (key_column : pystr) (key_value : pyval)
  (with_model : bool) (model : pystr) (r : dict) : bool :=
  sql_eq (get r key_column PNone) key_value
  && (if with_model then sql_eq (get r (lit "model_used") PNone) (PStr model)
      else true).

(** "Skip null-like values" and empty lists and dicts. *)
Definition is_null_like (val : pyval) : bool :=
  match val with
  | PNone => true
  | PStr s => match s with
              | [] => true
              | _ => pystr_eqb (lower s) (lit "null")
              end
  | PJson PNone => true
  | PList [] => true
  | PDict [] => true
  | _ => false
  end.

Definition cleaned_data (output_data : dict) : dict :=
  filter (fun cv => negb (is_null_like (snd cv))) output_data.

(** "Serialize complex types to JSON strings" *)
Definition serialize (val : pyval) : pyval :=
  match val with
  | PList _ | PDict _ => PJson val
  | _ => val
  end.

Definition serialized_data (cleaned : dict) : dict :=
  map (fun cv => (fst cv, serialize (snd cv))) cleaned.

Definition set_all (r : dict) (bindings : dict) : dict :=
  fold_left (fun r cv => set r (fst cv) (snd cv)) bindings r.

Definition add_column (cs : list pystr) (c : string) : list pystr :=
  if existsb (pystr_eqb (lit c)) cs then cs else cs ++ [lit c].

(** What [update_output_table] did: nothing but the two ALTER TABLE, or an
    UPDATE or INSERT of the cleaned data. *)
Inductive upsert : Type :=
| NoMeaningfulData
| Updated
| Inserted.

(** The two ALTER TABLE ... ADD COLUMN of [update_output_table]. *)
Definition with_timestamps (t : table) : table :=
  {| column_names :=
       add_column (add_column (column_names t) "updated_at") "created_at";
     rows := rows t |}.

(** The tables after the two ALTER TABLE.  Each runs outside a transaction,
    so that the new columns stay when a later statement raises. *)
Definition altered (ts : tables) (output_table : pyval) : tables :=
  match output_table, find_table ts output_table with
  | PStr name, Some t => put_table ts name (with_timestamps t)
  | _, _ => ts
  end.

(** A statement that names a column which the table lacks raises
    [sqlite3.OperationalError] ("no such column", "has no column named"). *)
Definition no_such_column : exn := OtherError (lit "no such column").

Definition columns_exist (cols : list pystr) (bindings : dict) : bool :=
  forallb (fun cv => existsb (pystr_eqb (fst cv)) cols) bindings.

(** The row that an INSERT adds: a column that the statement names twice
    gets the first of its values.  (An UPDATE that sets a column twice
    keeps the last one, which is what [set_all] does.) *)
Definition inserted (bindings : dict) : dict :=
  fold_left (fun r cv => if has_key r (fst cv) then r else r ++ [cv])
    bindings [].

(** [update_output_table].  It raises (an [sqlite3.Error]) when the table
    does not exist, and when the SELECT, the UPDATE or the INSERT names a
    column that the table lacks: the key column, a column of the data, or
    [enrichment_id].  Column names are compared as Python compares the
    names of PRAGMA table_info.  A value is kept as it was bound: what
    SQLite makes of it under the declared type of the column is not
    modelled. *)
Definition update_output_table (current_time : pyval) (ts : tables)
  (output_table : pyval) (key_column : pystr) (key_value : pyval)
  (output_data : dict) (enrichment_id : pyval) (model_used : pystr)
  : outcome (upsert * tables) :=
  match output_table, find_table ts output_table with
  | PStr name, Some t =>
      let has_model_column := has_column t "model_used" in
      let cols := column_names (with_timestamps t) in
      let with_model :=
        has_model_column && truthy (PStr model_used) in
      if negb (existsb (pystr_eqb key_column) cols)
      then Raise no_such_column
      else
      let exists_ :=
        existsb (key_matches key_column key_value with_model model_used)
          (rows t) in
      let cleaned := cleaned_data output_data in
      match cleaned with
      | [] =>
          Ret (NoMeaningfulData,
               put_table ts name {| column_names := cols; rows := rows t |})
      | _ =>
          let serialized := serialized_data cleaned in
          let id_binding :=
            if truthy enrichment_id
            then [(lit "enrichment_id", enrichment_id)] else [] in
          if exists_ then
            let bindings :=
              serialized ++ id_binding ++ [(lit "updated_at", current_time)] in
            if negb (columns_exist cols bindings)
            then Raise no_such_column
            else
            let rows' :=
              map (fun r =>
                     if key_matches key_column key_value with_model
                          model_used r
                     then set_all r bindings else r) (rows t) in
            Ret (Updated,
                 put_table ts name {| column_names := cols; rows := rows' |})
          else
            let bindings :=
              [(key_column, key_value)]
              ++ (if with_model
                  then [(lit "model_used", PStr model_used)] else [])
              ++ id_binding ++ serialized
              ++ [(lit "created_at", current_time);
                  (lit "updated_at", current_time)] in
            if negb (columns_exist cols bindings)
            then Raise no_such_column
            else
            Ret (Inserted,
                 put_table ts name
                   {| column_names := cols;
                      rows := rows t ++ [inserted bindings] |})
      end
  | _, _ => Raise (OtherError (lit "no such table"))
  end.

(** sqlite3 binds None, int, str (and bytes, float); a list or a dict
    makes [cursor.execute] raise, which the loop of [update_database]
    catches and logs. *)
Definition bindable (v : pyval) : bool :=
  match v with
  | PList _ | PDict _ => false
  | _ => true
  end.

(** The key of the UPDATE that [update_database] runs for one entry of
    [results]. *)
Definition update_key (primary_key : pystr) (entry : dict) : pyval :=
  if pystr_eqb primary_key (lit "rowid")
  then get entry (lit "rowid") NO_ROWID
  else get entry primary_key (get entry (lit "rowid") NO_KEY).

End Store.

(* ================================================================== *)
(** * The engine (llm_operations.py) *)
(* ================================================================== *)

Module Engine.

Import Store.

(** ** What the engine does to the outside, in the order it does it *)

Inductive call_kind : Type :=
| structured     (* provider.generate_structured, through call_llm_structured *)
| text           (* provider.generate_text, through call_llm *)
| chunk.         (* openai_client...parse, in process_translation *)

Inductive action : Type :=
| ProviderCall (kind : call_kind) (index : nat)
| AuditAppend (a : audit_row)
| OutputTableWrite (output_table : pyval) (key_column : pystr)
    (key_value : pyval) (how : upsert) (data : dict)
    (enrichment_id : pyval)       (* the argument of update_output_table *)
| ColumnUpdate (table : pyval) (column : pyval) (key_column : pystr)
    (key_value : pyval) (value : pyval).

(** An event is tagged with the row being processed and with the number of
    the [enrichment_id] minted for the pass that causes it. *)
Record event : Type := {
  ev_pass : nat;
  ev_row : Row;
  ev_action : action
}.

Record state : Type := {
  audit : list audit_row;       (* enrichment_responses, oldest first *)
  output_tables : tables;
  calls : nat;                  (* provider calls made so far *)
  passes : nat;                 (* enrichment ids minted so far *)
  trace : list event            (* oldest first *)
}.

(** ** What the outside answers *)

Inductive structured_reply : Type :=
| Parsed (instance : dict)      (* the validated model, conversions applied,
                                   as [model_dump(mode='json')] shows it *)
| CallRaised (e : exn).

Inductive text_reply : Type :=
| Text (s : pystr)
| TextRaised (e : exn).

(** [process_translation]: how many chunk calls it made, and the three
    columns it returns or the exception it caught. *)
Record translation_reply : Type := {
  chunk_calls : nat;
  translated : outcome (pystr * pystr * pystr)
}.

Record world : Type := {
  generate_structured : nat -> structured_reply;   (* by call number *)
  generate_text : nat -> text_reply;
  translation : nat -> translation_reply;
  (** [templated_prompt] and [input_text] for a row *)
  prompt_parts : Row -> pystr * pystr;
  (** [get_schema_prompt_instructions(config, output_schema)] *)
  schema_instructions : pystr;
  (** the schema manager that [validate_with_schema] obtains, applied to a
      response: [None] when its construction raises *)
  manager_verdict : pyval -> pystr -> option (outcome pyval);
  repr : pyval -> pystr;
  current_time : pyval
}.

(** The arguments of [process_batch] that stay fixed during a run. *)
Record params : Type := {
  model : pystr;
  name : pystr;                       (* enrichment_config['name'] *)
  run_prompt_id : pyval;              (* get_or_create_prompt_id(...) *)
  output_cols : list pyval;
  output_table : pyval;
  key_column : pystr;
  table : pyval;
  primary_key : pystr;                (* get_table_primary_key(db_path, table) *)
  overwrite : bool;
  truncate : bool;
  output_schema : pyval;              (* enrichment_config.get('schema') *)
  config : bool;                      (* bool(config) *)
  enrichment_strategy : option Strategy.EnrichmentStrategy
}.

(** ** A state monad *)

Definition M (A : Type) : Type := state -> A * state.

Definition ret {A : Type} (a : A) : M A := fun st => (a, st).

Definition bind {A B : Type} (m : M A) (k : A -> M B) : M B :=
  fun st => let (a, st') := m st in k a st'.

Declare Scope engine_scope.
Delimit Scope engine_scope with engine.
Notation "x <- m ;; k" := (bind m (fun x => k))
  (at level 61, m at next level, right associativity) : engine_scope.
Notation "m ;;; k" := (bind m (fun _ => k))
  (at level 61, right associativity) : engine_scope.
Local Open Scope engine_scope.

Definition emit (u : nat) (row : Row) (a : action) : M unit :=
  fun st =>
    (tt, {| audit := audit st; output_tables := output_tables st;
            calls := calls st; passes := passes st;
            trace := trace st ++ [{| ev_pass := u; ev_row := row;
                                     ev_action := a |}] |}).

(** [str(uuid.uuid4())]: a fresh identifier. *)
Definition fresh_pass : M nat :=
  fun st =>
    (passes st, {| audit := audit st; output_tables := output_tables st;
                   calls := calls st; passes := S (passes st);
                   trace := trace st |}).

Definition uuid (u : nat) : pyval := PStr (lit "uuid-" ++ [N.of_nat u]).

(** A provider call: it gets the next call number. *)
Definition provider_call (kind : call_kind) (u : nat) (row : Row) : M nat :=
  fun st =>
    (calls st,
     {| audit := audit st; output_tables := output_tables st;
        calls := S (calls st); passes := passes st;
        trace := trace st ++ [{| ev_pass := u; ev_row := row;
                                 ev_action := ProviderCall kind (calls st) |}]
     |}).

(** [store_raw_enrichment_response] *)
Definition store_raw_enrichment_response (u : nat) (row : Row)
  (a : audit_row) : M unit :=
  fun st =>
    (tt, {| audit := audit st ++ [a]; output_tables := output_tables st;
            calls := calls st; passes := passes st;
            trace := trace st ++ [{| ev_pass := u; ev_row := row;
                                     ev_action := AuditAppend a |}] |}).

Definition set_tables (ts : tables) : M unit :=
  fun st =>
    (tt, {| audit := audit st; output_tables := ts; calls := calls st;
            passes := passes st; trace := trace st |}).

(** [update_output_table], with the event when it writes. *)
Definition write_output_table (w : world) (u : nat) (row : Row)
  (output_table : pyval) (key_column : pystr) (key_value : pyval)
  (output_data : dict) (enrichment_id : pyval) (model_used : pystr)
  : M (outcome unit) :=
  fun st =>
    match update_output_table (current_time w) (output_tables st) output_table
            key_column key_value output_data enrichment_id model_used with
    | Raise e =>
        (Raise e, snd (set_tables (altered (output_tables st) output_table) st))
    | Ret (how, ts) =>
        (match how with
         | NoMeaningfulData => ret tt
         | _ => emit u row (OutputTableWrite output_table key_column
                              key_value how
                              (serialized_data (cleaned_data output_data))
                              enrichment_id)
         end ;;; ret (Ret tt)) (snd (set_tables ts st))
    end.

(** [update_database] for one entry of [results]: the UPDATE of the source
    table, unless a parameter cannot be bound. *)
Definition update_database (p : params) (u : nat) (row : Row)
  (output_col : pyval) (entry : dict) : M unit :=
  let key_value := update_key (primary_key p) entry in
  let value := get entry (lit "updated") PNone in
  if bindable value && bindable key_value
  then emit u row (ColumnUpdate (table p) output_col (primary_key p)
                     key_value value)
  else ret tt.

(** ** process_row_structured *)

Definition max_retries : nat := 2.

Definition rowid_or (row : Row) (default : pyval) : pyval :=
  row_get row (lit "rowid") default.

Definition error_json (msg : pystr) : pyval :=
  PJson (PDict [(lit "error", PStr msg)]).

Definition structured_success (u : nat) (row : Row) (full_prompt : pystr)
  (result_dict : dict) : dict :=
  [ (lit "enrichment_id", uuid u);
    (lit "rowid", rowid_or row NO_ROWID);
    (lit "sha1", PStr (sha1_of row));
    (lit "original", PDict []);
    (lit "updated", PDict result_dict);
    (lit "raw_json", PJson (PDict result_dict));
    (lit "full_prompt", PStr full_prompt) ].

Definition language_failure (msg : pystr) : pystr :=
  lit "Language validation failed after " ++ decimal (N.of_nat (max_retries + 1))
  ++ lit " attempts: " ++ msg.

Definition structured_error (u : nat) (row : Row) (full_prompt : pystr)
  (rowid : pyval) (msg : pystr) : dict :=
  [ (lit "enrichment_id", uuid u);
    (lit "rowid", rowid);
    (lit "sha1", PStr (sha1_of row));
    (lit "original", PDict []);
    (lit "updated", PNone);
    (lit "error", PStr msg);
    (lit "raw_json", error_json msg);
    (lit "full_prompt", PStr full_prompt) ].

(** The call, then [validate_languages] on what it returned. *)
Definition checked_reply (w : world) (reqs : Lang.requirements) (i : nat)
  : outcome dict :=
  match generate_structured w i with
  | CallRaised e => Raise e
  | Parsed instance =>
      match Lang.validate_languages (repr w) reqs instance with
      | Raise e => Raise e
      | Ret _ => Ret instance
      end
  end.

(** [for attempt in range(max_retries + 1)]; the function returns [None]
    when the loop ends without a [return]. *)
Fixpoint attempts (w : world) (reqs : Lang.requirements) (u : nat)
  (row : Row) (full_prompt : pystr) (todo : list nat) : M (option dict) :=
  match todo with
  | [] => ret None
  | attempt :: todo' =>
      i <- provider_call structured u row ;;
      match checked_reply w reqs i with
      | Ret result_dict =>
          ret (Some (structured_success u row full_prompt result_dict))
      | Raise (LanguageValidationError msg) =>
          if Nat.ltb attempt max_retries
          then attempts w reqs u row full_prompt todo'
          else ret (Some (structured_error u row full_prompt
                            (rowid_or row NO_ROWID) (language_failure msg)))
      | Raise e =>
          ret (Some (structured_error u row full_prompt
                       (rowid_or row (PStr (lit "unknown"))) (exn_str e)))
      end
  end.

(** The pass number is returned with the result, for the events of the
    caller. *)
Definition process_row_structured (w : world) (p : params)
  (pydantic_model : Strategy.DynamicModel) (row : Row)
  : M (nat * option dict) :=
  u <- fresh_pass ;;
  let '(templated_prompt, input_text) := prompt_parts w row in
  let full_prompt_content :=
    fst (Tokens.full_prompt_content (truncate p) templated_prompt input_text
           (model p)) in
  result <- attempts w (Strategy.requirements pydantic_model) u row
              full_prompt_content (seq 0 (max_retries + 1)) ;;
  ret (u, result).

(** ** The legacy row processors *)

(** [create_inline_schema_manager] reaches a constructor for a list, and
    for a dict with one of the keys it knows; a named schema is looked up
    in the configuration.  Anything else is "Unsupported inline schema
    definition". *)
Definition reaches_manager (schema_def : pyval) : bool :=
  match schema_def with
  | PStr _ | PList _ => true
  | PDict d =>
      has_key d (lit "enum") || has_key d (lit "enum_list")
      || has_key d (lit "boolean") || has_key d (lit "type")
  | _ => false
  end.

(** [validate_with_schema]: an exception of the manager that is not a
    [SchemaValidationError] is wrapped into one. *)
Definition validate_with_schema (w : world) (schema_def : pyval)
  (response : pystr) : outcome pyval :=
  if reaches_manager schema_def then
    match manager_verdict w schema_def response with
    | None => Raise (OtherError (lit "schema manager not available"))
    | Some (Ret v) => Ret v
    | Some (Raise e) =>
        if is_schema_validation_error e then Raise e
        else Raise (SchemaValidationError
                      (lit "Schema validation failed: " ++ exn_str e))
    end
  else Raise (OtherError (lit "Unsupported inline schema definition")).

Definition legacy_result (u : nat) (row : Row) (rowid original updated : pyval)
  (error : option pystr) (full_prompt : pystr) : dict :=
  [ (lit "enrichment_id", uuid u);
    (lit "rowid", rowid);
    (lit "sha1", PStr (sha1_of row));
    (lit "original", original);
    (lit "updated", updated) ]
  ++ match error with
     | Some msg => [(lit "error", PStr msg)]
     | None => []
     end
  ++ [ (lit "full_prompt", PStr full_prompt) ].

(** [process_row] *)
Definition process_row (w : world) (p : params) (row : Row)
  (output_col : pyval) : M (nat * dict) :=
  u <- fresh_pass ;;
  let '(templated_prompt, input_text) := prompt_parts w row in
  let validating := truthy (output_schema p) && config p in
  let full_prompt :=
    if validating && truthy (PStr (schema_instructions w))
    then templated_prompt ++ Tokens.newlines ++ schema_instructions w
    else templated_prompt in
  let full_prompt_content :=
    fst (Tokens.full_prompt_content (truncate p) full_prompt input_text
           (model p)) in
  let original :=
    match output_col with
    | PStr c => row_get row c (PStr [])
    | _ => PStr []
    end in
  i <- provider_call text u row ;;
  match generate_text w i with
  | TextRaised e =>
      ret (u, legacy_result u row (rowid_or row (PStr (lit "unknown")))
                original PNone (Some (exn_str e)) full_prompt_content)
  | Text result =>
      let validated :=
        if validating then
          match validate_with_schema w (output_schema p) result with
          | Ret v => Ret (PStr (str_with (repr w) v))
          | Raise e => Raise e
          end
        else Ret (PStr result) in
      match validated with
      | Ret validated_result =>
          ret (u, legacy_result u row (rowid_or row NO_ROWID) original
                    validated_result None full_prompt_content)
      | Raise e =>
          if is_schema_validation_error e then
            ret (u, legacy_result u row (rowid_or row NO_ROWID) original PNone
                      (Some (lit "Schema validation failed: " ++ exn_str e))
                      full_prompt_content)
          else
            ret (u, legacy_result u row (rowid_or row (PStr (lit "unknown")))
                      original PNone (Some (exn_str e)) full_prompt_content)
      end
  end.

Fixpoint chunk_parses (u : nat) (row : Row) (n : nat) : M unit :=
  match n with
  | O => ret tt
  | S n' => _ <- provider_call chunk u row ;; chunk_parses u row n'
  end.

Definition originals (row : Row) (output_cols : list pyval) : dict :=
  flat_map (fun col =>
              match col with
              | PStr c => [(c, row_get row c (PStr []))]
              | _ => []
              end) output_cols.

(** [process_translation].  A row without [rowid] makes the successful
    return raise, which the function catches like any other error. *)
Definition process_translation (w : world) (p : params) (row : Row)
  : M (nat * dict) :=
  u <- fresh_pass ;;
  st_calls <- (fun st => (calls st, st)) ;;
  let reply := translation w st_calls in
  chunk_parses u row (chunk_calls reply) ;;;
  let failed (msg : pystr) : dict :=
    [ (lit "enrichment_id", uuid u);
      (lit "rowid", rowid_or row (PStr (lit "unknown")));
      (lit "sha1", PStr (sha1_of row));
      (lit "original", PDict (originals row (output_cols p)));
      (lit "updated", PNone);
      (lit "error", PStr msg) ] in
  match translated reply, row_rowid row with
  | Ret (zh_json, en_json, english_translation), Some rowid =>
      ret (u, [ (lit "enrichment_id", uuid u);
                (lit "rowid", PInt rowid);
                (lit "sha1", PStr (sha1_of row));
                (lit "original", PDict (originals row (output_cols p)));
                (lit "updated",
                 PDict [ (lit "zh_json", PStr zh_json);
                         (lit "en_json", PStr en_json);
                         (lit "english_translation",
                          PStr english_translation) ]) ])
  | Ret _, None => ret (u, failed (lit "'rowid'"))
  | Raise e, _ => ret (u, failed (exn_str e))
  end.

(** ** process_and_save *)

Definition translate_to_english : pystr := lit "translate_to_english".
Definition translate_to_english_by_line : pystr :=
  lit "translate_to_english_by_line".

(** [d.get(k, default)] for a key that is a value. *)
Definition get_by (d : dict) (k default : pyval) : pyval :=
  match k with
  | PStr s => get d s default
  | _ => default
  end.

Definition audit_of (p : params) (result : dict) (raw_json : pyval)
  : audit_row :=
  {| enrichment_id := get result (lit "enrichment_id") PNone;
     sha1 := match get result (lit "sha1") PNone with
             | PStr s => s
             | _ => NO_SHA1
             end;
     enrichment_name := name p;
     raw_json := raw_json;
     model_used := model p;
     prompt_id := run_prompt_id p;
     full_prompt := get result (lit "full_prompt") PNone |}.

Definition unknown_error (result : dict) : pyval :=
  PJson (PDict [(lit "error",
                 get result (lit "error") (PStr (lit "Unknown error")))]).

(** The two branches of the legacy code that end in [process_row]: the
    audit row, then the write when [updated] is truthy. *)
Definition save_legacy (w : world) (p : params) (row : Row)
  (output_col : pyval) : M (outcome (option dict)) :=
  ur <- process_row w p row output_col ;;
  let '(u, result) := ur in
  let updated := get result (lit "updated") PNone in
  let raw_json :=
    if truthy updated then PJson (PDict [(lit "result", updated)])
    else unknown_error result in
  store_raw_enrichment_response u row (audit_of p result raw_json) ;;;
  if truthy updated then
    if truthy (output_table p) then
      let key_value :=
        get result (key_column p) (get result (lit "sha1") NO_KEY) in
      r <- write_output_table w u row (output_table p) (key_column p)
             key_value [(str_with (repr w) output_col, updated)]
             (get result (lit "enrichment_id") PNone) (model p) ;;
      match r with
      | Raise e => ret (Raise e)
      | Ret _ => ret (Ret (Some result))
      end
    else
      update_database p u row output_col result ;;;
      ret (Ret (Some result))
  else ret (Ret (Some result)).

Definition translation_columns : list pystr :=
  [lit "zh_json"; lit "en_json"; lit "english_translation"].

Fixpoint update_columns (p : params) (u : nat) (row : Row)
  (result : dict) (cols : list pystr) : M unit :=
  match cols with
  | [] => ret tt
  | col :: cols' =>
      let field (k : pystr) :=
        match get result k PNone with
        | PDict d => get d col (PStr [])
        | _ => PStr []
        end in
      update_database p u row (PStr col)
        [ (lit "rowid", get result (lit "rowid") PNone);
          (lit "original", field (lit "original"));
          (lit "updated", field (lit "updated")) ] ;;;
      update_columns p u row result cols'
  end.

(** "LEGACY: Existing hardcoded processing logic" *)
Definition legacy (w : world) (p : params) (row : Row)
  : M (outcome (option dict)) :=
  if pystr_eqb (name p) translate_to_english_by_line then
    ur <- process_translation w p row ;;
    let '(u, result) := ur in
    let updated := get result (lit "updated") PNone in
    let raw_json :=
      if truthy updated then PJson updated else unknown_error result in
    store_raw_enrichment_response u row (audit_of p result raw_json) ;;;
    (if truthy updated
     then update_columns p u row result translation_columns
     else ret tt) ;;;
    ret (Ret (Some result))
  else
    if pystr_eqb (name p) translate_to_english
       && starts_with (lit "gemini") (model p)
       && Nat.ltb 1 (List.length (output_cols p))
    then ret (Raise (OtherError
                       (lit "can only output to one column for translation")))
    else
      match output_cols p with
      | [] => ret (Raise (OtherError (lit "list index out of range")))
      | output_col :: _ => save_legacy w p row output_col
      end.

(** [enrichment_strategy and enrichment_strategy.pydantic_model] *)
Definition schema_driven (p : params)
  : option (Strategy.EnrichmentStrategy * Strategy.DynamicModel) :=
  match enrichment_strategy p with
  | Some strategy =>
      match Strategy.pydantic_model strategy with
      | Some pydantic_model => Some (strategy, pydantic_model)
      | None => None
      end
  | None => None
  end.

(** The nested function [process_and_save] of [process_batch].  Whatever
    is raised inside the schema-driven part is caught, and the legacy code
    runs: this happens when [update_output_table] raises, and when
    [result['updated']] is [None] where [.get] is called on it. *)
Definition process_and_save (w : world) (p : params) (row : Row)
  : M (outcome (option dict)) :=
  match schema_driven p with
  | Some (strategy, pydantic_model) =>
      ur <- process_row_structured w p pydantic_model row ;;
      let '(u, result) := ur in
      match result with
      | None => ret (Ret None)
      | Some result =>
          let updated := get result (lit "updated") PNone in
          let raw_json := get result (lit "raw_json") PNone in
          let raw_json :=
            if truthy raw_json then raw_json
            else if truthy updated then PJson updated
            else unknown_error result in
          store_raw_enrichment_response u row (audit_of p result raw_json) ;;;
          match Strategy.storage_mode strategy, truthy updated, updated with
          | Strategy.separate_table, true, PDict output_data =>
              let key_value :=
                get_by result (Strategy.key_column strategy)
                  (get result (lit "sha1") NO_KEY) in
              r <- write_output_table w u row
                     (Strategy.output_table strategy)
                     (str_with (repr w) (Strategy.key_column strategy))
                     key_value output_data
                     (get result (lit "enrichment_id") PNone) (model p) ;;
              match r with
              | Raise _ => legacy w p row
              | Ret _ => ret (Ret (Some result))
              end
          | _, _, _ =>
              match Strategy.output_columns strategy with
              | [column_name] =>
                  match updated with
                  | PDict d =>
                      update_database p u row (PStr column_name)
                        [ (lit "rowid", get result (lit "rowid") PNone);
                          (lit "sha1", get result (lit "sha1") PNone);
                          (lit "original", PStr []);
                          (lit "updated", get d column_name PNone) ] ;;;
                      ret (Ret (Some result))
                  | _ => legacy w p row
                  end
              | _ => ret (Ret (Some result))
              end
          end
      end
  | None => legacy w p row
  end.

(** ** process_batch *)

Definition skip_record (row : Row) (original : pyval) : dict :=
  [ (lit "rowid", rowid_or row NO_ROWID);
    (lit "sha1", PStr (sha1_of row));
    (lit "original", original);
    (lit "updated", PNone) ].

(** "ALWAYS check enrichment_responses table for prior attempts" *)
Definition skipped_by_audit (audit : list audit_row) (p : params)
  (results : list Row) : list dict :=
  flat_map
    (fun row =>
       let sha1 := sha1_of row in
       if negb (pystr_eqb sha1 NO_SHA1)
          && already_processed audit sha1 (name p) (model p)
       then [skip_record row
               (PStr (lit "already processed (enrichment_responses)"))]
       else [])
    results.

(** The test of [skipped_by_audit] on a row, and the [original] of its
    skip records. *)
Definition audit_skipped (st : state) (p : params) (row : Row) : bool :=
  negb (pystr_eqb (sha1_of row) NO_SHA1)
  && already_processed (audit st) (sha1_of row) (name p) (model p).

Definition already_msg : pyval :=
  PStr (lit "already processed (enrichment_responses)").

(** [{r['sha1'] for r in skipped_rows}] *)
Definition sha1s_of (skipped_rows : list dict) : list pyval :=
  map (fun r => get r (lit "sha1") PNone) skipped_rows.

Definition in_values (v : pyval) (l : list pyval) : bool :=
  existsb (pyval_eqb v) l.

(** The name under which a table was found, as the f-string prints it. *)
Definition table_name (output_table : pyval) : pystr :=
  match output_table with
  | PStr s => s
  | _ => []
  end.

(** "For backward compatibility, also check output location", when
    [output_table] is set. *)
Definition skipped_by_output_table (ts : tables) (p : params)
  (skipped_sha1s : list pyval) (results : list Row) : list dict :=
  match find_table ts (output_table p) with
  | Some t =>
      let has_model_column := has_column t "model_used" in
      flat_map
        (fun row =>
           if negb (in_values (PStr (sha1_of row)) skipped_sha1s)
              && existsb
                   (key_matches (key_column p)
                      (row_get row (key_column p) NO_KEY)
                      has_model_column (model p))
                   (rows t)
           then [skip_record row
                   (PStr (lit "exists in " ++ table_name (output_table p)
                          ++ (if has_model_column
                              then lit " for model " ++ model p else [])))]
           else [])
        results
  | None => []
  end.

(** "For direct column mode, check source table column".  It raises on
    [output_cols[0]] when there is a row and no output column. *)
Definition skipped_by_column (p : params) (skipped_sha1s : list pyval)
  (results : list Row) : outcome (list dict) :=
  match results, output_cols p with
  | [], _ => Ret []
  | _, [] => Raise (OtherError (lit "list index out of range"))
  | _, output_col :: _ =>
      Ret (flat_map
             (fun row =>
                if truthy (row_get_val row output_col)
                   && negb (in_values (PStr (sha1_of row)) skipped_sha1s)
                then [skip_record row (row_get_val row output_col)]
                else [])
             results)
  end.

(** The rows to skip: none with [overwrite]. *)
Definition skipped_rows (st : state) (p : params) (results : list Row)
  : outcome (list dict) :=
  if overwrite p then Ret []
  else
    let by_audit := skipped_by_audit (audit st) p results in
    if truthy (output_table p) then
      Ret (by_audit
           ++ skipped_by_output_table (output_tables st) p
                (sha1s_of by_audit) results)
    else
      match skipped_by_column p (sha1s_of by_audit) results with
      | Raise e => Raise e
      | Ret additional_skipped => Ret (by_audit ++ additional_skipped)
      end.

(** [(r['rowid'], r['sha1'])] *)
Definition id_of (r : dict) : pyval * pyval :=
  (get r (lit "rowid") PNone, get r (lit "sha1") PNone).

Definition row_id (row : Row) : pyval * pyval :=
  (rowid_or row NO_ROWID, PStr (sha1_of row)).

Definition in_ids (i : pyval * pyval) (ids : list (pyval * pyval)) : bool :=
  existsb (fun j => pyval_eqb (fst i) (fst j) && pyval_eqb (snd i) (snd j)) ids.

(** "Filter out skipped rows - using both rowid and sha1 for comparison" *)
Definition rows_to_process (skipped : list dict) (results : list Row)
  : list Row :=
  filter (fun row => negb (in_ids (row_id row) (map id_of skipped))) results.

(** [asyncio.gather] over the tasks, one row after the other.  Every task
    runs; the first exception raised, if any, is what [gather] raises. *)
Fixpoint gather (w : world) (p : params) (rows : list Row)
  : M (outcome (list (option dict))) :=
  match rows with
  | [] => ret (Ret [])
  | row :: rows' =>
      r <- process_and_save w p row ;;
      rs <- gather w p rows' ;;
      match r, rs with
      | Raise e, _ => ret (Raise e)
      | Ret _, Raise e => ret (Raise e)
      | Ret result, Ret results => ret (Ret (result :: results))
      end
  end.

(** What [process_batch] returns: the results of the rows it processed
    ([None] where a processor returned nothing), then the skip records. *)
Definition process_batch (w : world) (p : params) (results : list Row)
  : M (outcome (list (option dict))) :=
  fun st =>
    match skipped_rows st p results with
    | Raise e => (Raise e, st)
    | Ret skipped =>
        match rows_to_process skipped results with
        | [] => (Ret (map Some skipped), st)
        | todo =>
            (processed <- gather w p todo ;;
             match processed with
             | Raise e => ret (Raise e)
             | Ret processed_results =>
                 ret (Ret (processed_results ++ map Some skipped))
             end) st
        end
    end.

End Engine.

(* ================================================================== *)
(** * Reading a trace *)
(* ================================================================== *)

Module Trace.

Import Store Engine.

Definition is_call (e : event) : bool :=
  match ev_action e with ProviderCall _ _ => true | _ => false end.

Definition is_audit (e : event) : bool :=
  match ev_action e with AuditAppend _ => true | _ => false end.

(** A projected write: an UPDATE or INSERT in an output table, or an
    UPDATE of a column of the source table. *)
Definition is_write (e : event) : bool :=
  match ev_action e with
  | OutputTableWrite _ _ _ _ _ _ | ColumnUpdate _ _ _ _ _ => true
  | _ => false
  end.

(** The enrichment id that a projected write is given: the [enrichment_id]
    argument of [update_output_table], which the UPDATE or INSERT stores
    in the column of that name.  The UPDATE of a column of the source
    table is given none. *)
Definition written_id (e : event) : option pyval :=
  match ev_action e with
  | OutputTableWrite _ _ _ _ _ enrichment_id => Some enrichment_id
  | _ => None
  end.

(** The audit rows appended by a sequence of events. *)
Definition audits_of (evs : list event) : list audit_row :=
  flat_map (fun e => match ev_action e with
                     | AuditAppend a => [a]
                     | _ => []
                     end) evs.

Definition in_pass (u : nat) (e : event) : bool := Nat.eqb (ev_pass e) u.

(** The events of one pass over a row: its provider calls, then its audit
    row, which carries the sha1 of the row and the enrichment id of the
    pass, then its projected writes. *)
Definition call_event (u : nat) (row : Row) (e : event) : Prop :=
  ev_pass e = u /\ ev_row e = row /\ is_call e = true.

Definition audit_event (u : nat) (row : Row) (e : event) : Prop :=
  ev_pass e = u /\ ev_row e = row
  /\ exists a, ev_action e = AuditAppend a
               /\ sha1 a = sha1_of row /\ enrichment_id a = uuid u.

Definition write_event (u : nat) (row : Row) (e : event) : Prop :=
  ev_pass e = u /\ ev_row e = row /\ is_write e = true
  /\ forall i, written_id e = Some i -> i = uuid u.

Inductive pass_block (u : nat) (row : Row) : list event -> Prop :=
| PassBlock (cs : list event) (ea : event) (ws : list event) :
    Forall (call_event u row) cs ->
    audit_event u row ea ->
    Forall (write_event u row) ws ->
    pass_block u row (cs ++ ea :: ws).

(** Passes [lo], [lo + 1], ..., [hi - 1], one after the other, each over a
    row taken from [among]. *)
Inductive blocks (among : Row -> Prop) : nat -> nat -> list event -> Prop :=
| blocks_nil (u : nat) : blocks among u u []
| blocks_cons (u hi : nat) (row : Row) (b rest : list event) :
    among row ->
    pass_block u row b ->
    blocks among (S u) hi rest ->
    blocks among u hi (b ++ rest).

(** What a computation did between two states: the events it added to the
    trace, whose audit rows are the rows it added to the audit table. *)
Definition step (st st' : state) (evs : list event) : Prop :=
  trace st' = trace st ++ evs /\ audit st' = audit st ++ audits_of evs.

(** What the audit row of a pass is built from. *)
Definition result_of (u : nat) (row : Row) (res : dict) : Prop :=
  get res (lit "enrichment_id") PNone = uuid u
  /\ get res (lit "sha1") PNone = PStr (sha1_of row).

(** Among the events [pre] there is the audit row of the pass of [e], for
    the row of [e], carrying the enrichment id of the pass. *)
Definition audited_in (pre : list event) (e : event) : Prop :=
  exists e' a,
    In e' pre /\ ev_action e' = AuditAppend a
    /\ ev_pass e' = ev_pass e /\ ev_row e' = ev_row e
    /\ enrichment_id a = uuid (ev_pass e).

Definition audit_of_pass (u : nat) (e : event) : bool :=
  is_audit e && in_pass u e.

(** What an event is, without its payload. *)
Inductive mark : Type :=
| Call (kind : call_kind)
| Audit
| Written.

Definition mark_of (e : event) : nat * mark :=
  (ev_pass e,
   match ev_action e with
   | ProviderCall kind _ => Call kind
   | AuditAppend _ => Audit
   | _ => Written
   end).

End Trace.

(* ================================================================== *)
(** * Concrete configurations and runs *)
(* ================================================================== *)

Module Scenarios.

Import EnumList Strategy Store Engine.

(** [topics: { enum_list: [a, b, c, d], min_items: 1, max_items: 3 }] *)
Definition topics : EnumListSchemaManager :=
  {| choices := [lit "a"; lit "b"; lit "c"; lit "d"];
     case_sensitive := true;
     min_items := Some 1%Z;
     max_items := Some 3%Z;
     unique_items := true |}.

(** An input column of 30000 characters, and a prompt of 40000. *)
Definition long_input : pystr := repeat 97%N (Z.to_nat 30000).
Definition long_prompt : pystr := repeat 97%N (Z.to_nat 40000).

(** The first scenario of the specification:
    [schema: { sentiment: { enum: [positive, negative, neutral] } }]. *)
Definition sentiment_schema : pyval :=
  PDict [(lit "sentiment",
          PDict [(lit "enum",
                  PList [PStr (lit "positive"); PStr (lit "negative");
                         PStr (lit "neutral")])])].

Definition sentiment_config : dict :=
  [ (lit "name", PStr (lit "sentiment"));
    (lit "prompt", PStr (lit "Classify: {raw_content}"));
    (lit "input",
     PDict [(lit "query", PStr (lit "all_docs"));
            (lit "input_columns", PList [PStr (lit "raw_content")])]);
    (lit "schema", sentiment_schema) ].

(** The libraries accept every schema of this section. *)
Definition builds {A : Type} (_ : A) : bool := true.

(** ** Runs of the engine *)

(** The strategy that the resolver gives for a configuration. *)
Definition resolved (enrichment_config : dict) : option EnrichmentStrategy :=
  match determine_enrichment_strategy builds builds enrichment_config
          (lit "documents") with
  | Ret s => Some s
  | Raise _ => None
  end.

(** A row of [documents(sha1, raw_content)], read with its rowid. *)
Definition document (sha1 : string) (rowid : Z) (raw_content : string) : Row :=
  {| row_sha1 := Some (lit sha1);
     row_rowid := Some rowid;
     columns := [(lit "raw_content", PStr (lit raw_content))] |}.

Definition doc_a : Row := document "aaaa" 1 "text A".
Definition doc_b : Row := document "bbbb" 2 "text B".
Definition doc_c : Row := document "cccc" 3 "text C".

(** A provider stub: what it answers to the structured and to the text
    calls, by call number. *)
Definition stub (structured_replies : nat -> structured_reply)
  (text_replies : nat -> text_reply) : world :=
  {| generate_structured := structured_replies;
     generate_text := text_replies;
     translation :=
       fun _ => {| chunk_calls := 0;
                   translated := Raise (OtherError (lit "no translation")) |};
     prompt_parts :=
       fun row =>
         (lit "Classify: ",
          match row_get row (lit "raw_content") (PStr []) with
          | PStr s => s
          | _ => []
          end);
     schema_instructions := [];
     manager_verdict := fun _ _ => None;
     repr := fun _ => lit "<object>";
     current_time := PStr (lit "2025-01-01 00:00:00") |}.

(** The arguments that [process_enrichment] passes for a configuration
    that names no output column, no output table and no key column. *)
Definition task (enrichment_config : dict) : params :=
  {| model := lit "gpt-4o-mini";
     name := match get enrichment_config (lit "name") PNone with
             | PStr s => s
             | _ => lit "unknown"
             end;
     run_prompt_id := PStr (lit "prompt-1");
     output_cols := [get enrichment_config (lit "output_column") PNone];
     output_table := PNone;
     key_column := lit "sha1";
     table := PStr (lit "documents");
     primary_key := lit "sha1";
     overwrite := false;
     truncate := false;
     output_schema := get enrichment_config (lit "schema") PNone;
     config := true;
     enrichment_strategy := resolved enrichment_config |}.

Definition fresh : state :=
  {| audit := []; output_tables := []; calls := 0; passes := 0; trace := [] |}.

(** Scenario 1: the stub returns [positive] for all. *)
Definition positive : world :=
  stub (fun _ => Parsed [(lit "sentiment", PStr (lit "positive"))])
       (fun _ => Text (lit "positive")).

Definition after_first_run : state :=
  snd (process_batch positive (task sentiment_config) [doc_a; doc_b; doc_c]
         fresh).

(** Scenario 4: [schema: { summary_zh: { type: string, lang: zh } }]. *)
Definition summary_zh_config : dict :=
  [ (lit "name", PStr (lit "summary_zh"));
    (lit "prompt", PStr (lit "Summarise: {raw_content}"));
    (lit "input",
     PDict [(lit "query", PStr (lit "all_docs"));
            (lit "input_columns", PList [PStr (lit "raw_content")])]);
    (lit "schema",
     PDict [(lit "summary_zh",
             PDict [(lit "type", PStr (lit "string"));
                    (lit "lang", PStr (lit "zh"))])]) ].

Definition hello_world : dict :=
  [(lit "summary_zh", PStr (lit "Hello world"))].

(** U+4F60 U+597D U+4E16 U+754C *)
Definition ni_hao_shi_jie : dict :=
  [(lit "summary_zh", PStr [0x4F60; 0x597D; 0x4E16; 0x754C]%N)].

(** [Hello world] on the first attempt, then the Chinese text. *)
Definition second_attempt_succeeds : world :=
  stub (fun i => match i with
                 | O => Parsed hello_world
                 | _ => Parsed ni_hao_shi_jie
                 end)
       (fun _ => Text (lit "Hello world")).

(** [Hello world] on every attempt. *)
Definition never_chinese : world :=
  stub (fun _ => Parsed hello_world) (fun _ => Text (lit "Hello world")).

(** The provider raises on every structured call. *)
Definition provider_down : world :=
  stub (fun _ => CallRaised (OtherError (lit "timeout")))
       (fun _ => TextRaised (OtherError (lit "timeout"))).

(** [schema: { summary: { type: string } }], and a provider that returns
    the empty string for the field. *)
Definition summary_config : dict :=
  [ (lit "name", PStr (lit "summary"));
    (lit "prompt", PStr (lit "Summarise: {raw_content}"));
    (lit "input",
     PDict [(lit "query", PStr (lit "all_docs"));
            (lit "input_columns", PList [PStr (lit "raw_content")])]);
    (lit "schema",
     PDict [(lit "summary", PDict [(lit "type", PStr (lit "string"))])]) ].

Definition empty_summary : world :=
  stub (fun _ => Parsed [(lit "summary", PStr [])]) (fun _ => Text []).

(** A configuration that names its output column, and a row that has a
    value in it. *)
Definition sentiment_column_config : dict :=
  sentiment_config ++ [(lit "output_column", PStr (lit "sentiment"))].

Definition doc_d : Row :=
  {| row_sha1 := Some (lit "dddd");
     row_rowid := Some 4%Z;
     columns := [(lit "raw_content", PStr (lit "text D"));
                 (lit "sentiment", PStr (lit "neutral"))] |}.

(** The runs of the fourth scenario, of a provider that is down, and of a
    provider that returns an empty summary, on one document. *)
Definition retry_run : outcome (list (option dict)) * state :=
  process_batch second_attempt_succeeds (task summary_zh_config) [doc_a] fresh.

Definition exhausted_run : outcome (list (option dict)) * state :=
  process_batch never_chinese (task summary_zh_config) [doc_a] fresh.

Definition provider_down_run : outcome (list (option dict)) * state :=
  process_batch provider_down (task summary_zh_config) [doc_a] fresh.

Definition empty_summary_run : outcome (list (option dict)) * state :=
  process_batch empty_summary (task summary_config) [doc_a] fresh.

End Scenarios.

Unset Implicit Arguments.

(* ================================================================== *)
(** * Further models and notions *)
(* ================================================================== *)

(** ** Text in the range where [lower], [upper] and the patterns of the
    model are those of Python *)

Module Text.

Local Open Scope N_scope.

(** Text of the ASCII range, on which [str.lower()], [str.upper()], [\s],
    [\d], [\w] and [re.IGNORECASE] are what the definitions above say. *)
Definition ascii_char (c : N) : bool := c <? 128.

Definition ascii (s : pystr) : bool := forallb ascii_char s.

End Text.

(* ================================================================== *)
(** * Single choices (schema_managers.EnumSchemaManager) *)
(* ================================================================== *)

Module Enum.

Local Open Scope N_scope.

(** The characters that [str.strip()] removes: those for which
    [str.isspace()] holds. *)
Definition isspace (c : N) : bool :=
  ((9 <=? c) && (c <=? 13)) || ((28 <=? c) && (c <=? 32))
  || (c =? 0x85) || (c =? 0xA0) || (c =? 0x1680)
  || ((0x2000 <=? c) && (c <=? 0x200A))
  || (c =? 0x2028) || (c =? 0x2029) || (c =? 0x202F) || (c =? 0x205F)
  || (c =? 0x3000).

(** The two characters that the second [strip] removes: the double and
    the single quotation mark. *)
Definition is_quote (c : N) : bool := (c =? 34) || (c =? 39).

Fixpoint lstrip (cls : N -> bool) (s : pystr) : pystr :=
  match s with
  | [] => []
  | c :: s' => if cls c then lstrip cls s' else s
  end.

Definition rstrip (cls : N -> bool) (s : pystr) : pystr :=
  rev (lstrip cls (rev s)).

(** [s.strip()] and [s.strip(chars)] *)
Definition strip_chars (cls : N -> bool) (s : pystr) : pystr :=
  rstrip cls (lstrip cls s).

(** [response.strip()] followed by the [strip] of quotation marks *)
Definition clean (response : pystr) : pystr :=
  strip_chars is_quote (strip_chars isspace response).

Record EnumSchemaManager : Type := {
  choices : list pystr;
  case_sensitive : bool
}.

Inductive verdict : Type :=
| Accepted (value : pystr)
| NotAChoice (cleaned_response : pystr).   (* SchemaValidationError *)

(** [EnumSchemaManager.validate_response] *)
Definition validate_response (m : EnumSchemaManager) (response : pystr)
  : verdict :=
  let cleaned_response := clean response in
  let choices_to_check :=
    if case_sensitive m then choices m else map lower (choices m) in
  let response_to_check :=
    if case_sensitive m then cleaned_response else lower cleaned_response in
  if EnumList.mem response_to_check choices_to_check then
    if case_sensitive m then Accepted cleaned_response
    else
      match EnumList.original_case (choices m) choices_to_check
              response_to_check with
      | Some choice => Accepted choice
      | None => NotAChoice cleaned_response
      end
  else NotAChoice cleaned_response.

(** [choices: [Positive, Negative, Neutral]] with [case_sensitive: false]. *)
Definition sentiment_choices : EnumSchemaManager :=
  {| choices := [lit "Positive"; lit "Negative"; lit "Neutral"];
     case_sensitive := false |}.

(** Text that neither starts nor ends with a character of the class. *)
Definition bare (cls : N -> bool) (s : pystr) : Prop :=
  lstrip cls s = s /\ rstrip cls s = s.

End Enum.

(** ** Notions for the properties *)

Module EnumListNotions.

Import EnumList.

(** What the manager checks the items against. *)
Definition checked (m : EnumListSchemaManager) : list pystr :=
  if case_sensitive m then choices m else map lower (choices m).

(** An item that the loop of [validate_response] returns as it is. *)
Definition settled (m : EnumListSchemaManager) (c : pystr) : Prop :=
  In c (choices m)
  /\ validate_each m (checked m) [c] = inr [c].

End EnumListNotions.

Module EngineNotions.
Import Store Engine Trace.

(** The result of [process_row_structured] for the reply that ended the
    loop after [n] provider calls. *)
Definition final_result (u : nat) (row : Row) (full_prompt : pystr)
  (n : nat) (reply : outcome dict) (res : dict) : Prop :=
  match reply with
  | Ret result_dict => res = structured_success u row full_prompt result_dict
  | Raise (LanguageValidationError msg) =>
      n = 3
      /\ res = structured_error u row full_prompt (rowid_or row NO_ROWID)
                 (language_failure msg)
  | Raise e =>
      res = structured_error u row full_prompt
              (rowid_or row (PStr (lit "unknown"))) (exn_str e)
  end.

Definition is_language_failure (reply : outcome dict) : Prop :=
  exists msg, reply = Raise (LanguageValidationError msg).

(** The audit table has a record for the sha1 of the row, the enrichment
    and the model: what [process_batch] asks before it processes a row. *)
Definition audited (st : state) (p : params) (row : Row) : bool :=
  already_processed (audit st) (sha1_of row) (name p) (model p).

(** A computation that only adds to the trace and to the audit table. *)
Definition appends {A : Type} (m : M A) : Prop :=
  forall st,
    (exists evs, step st (snd (m st)) evs)
    /\ passes st <= passes (snd (m st)).

End EngineNotions.

Module QueryNotions.
Import Query.

(** The character before the position that follows [a], when the one
    before [a] is [prev]. *)
Definition after (prev : option N) (a : pystr) : option N :=
  fold_left (fun _ c => Some c) a prev.

(** [Plus cls] followed by a pattern whose matcher is [k]: the loop of
    [match_here]. *)
Fixpoint more (cls : N -> bool)
  (k : option N -> pystr -> option (list pystr * pystr))
  (taken : pystr) (s : pystr) : option (list pystr * pystr) :=
  match s with
  | [] => None
  | c :: s' =>
      if cls c then
        match more cls k (taken ++ [c]) s' with
        | Some res => Some res
        | None =>
            match k (Some c) s' with
            | Some (ms, rest') => Some ((taken ++ [c]) :: ms, rest')
            | None => None
            end
        end
      else None
  end.

End QueryNotions.

(** ** More scenarios *)

Module MoreScenarios.

Import Strategy Store Engine Trace Scenarios.

(** The strategy of the first scenario ([unresolved] stands for a
    configuration that the resolver refuses). *)
Definition unresolved : EnrichmentStrategy :=
  {| input_table := PNone; input_columns := PNone;
     storage_mode := direct_column; Strategy.output_table := PNone;
     output_columns := []; Strategy.key_column := PNone; schema_dict := PNone;
     pydantic_model := None |}.

Definition sentiment_resolved : EnrichmentStrategy :=
  match resolved sentiment_config with
  | Some s => s
  | None => unresolved
  end.

(** A configuration with two fields and an output table, and the
    arguments that [process_enrichment] passes for it. *)
Definition review_config : dict :=
  [ (lit "name", PStr (lit "review"));
    (lit "prompt", PStr (lit "Review: {raw_content}"));
    (lit "input",
     PDict [(lit "query", PStr (lit "all_docs"));
            (lit "input_columns", PList [PStr (lit "raw_content")])]);
    (lit "output_table", PStr (lit "reviews"));
    (lit "schema",
     PDict [(lit "sentiment",
             PDict [(lit "enum",
                     PList [PStr (lit "positive"); PStr (lit "negative")])]);
            (lit "summary", PDict [(lit "type", PStr (lit "string"))])]) ].

Definition review_task : params :=
  {| model := lit "gpt-4o-mini";
     name := lit "review";
     run_prompt_id := PStr (lit "prompt-1");
     output_cols := [PNone];
     output_table := PStr (lit "reviews");
     key_column := lit "sha1";
     table := PStr (lit "documents");
     primary_key := lit "sha1";
     overwrite := false;
     truncate := false;
     output_schema := get review_config (lit "schema") PNone;
     config := true;
     enrichment_strategy := resolved review_config |}.

Definition review_resolved : EnrichmentStrategy :=
  match resolved review_config with
  | Some s => s
  | None => unresolved
  end.

Definition review_model : DynamicModel :=
  match Strategy.pydantic_model review_resolved with
  | Some m => m
  | None => {| model_fields := [];
               requirements :=
                 {| Lang.language_requirements := [];
                    Lang.array_language_requirements := [] |} |}
  end.

(** The prompt of the stub for the first document. *)
Definition prompt_a : pystr := lit "Classify: " ++ [10; 10]%N ++ lit "text A".

(** The same arguments with [--overwrite]. *)
Definition overwriting (p : params) : params :=
  {| model := model p;
     name := name p;
     run_prompt_id := run_prompt_id p;
     output_cols := output_cols p;
     output_table := output_table p;
     key_column := key_column p;
     table := table p;
     primary_key := primary_key p;
     overwrite := true;
     truncate := truncate p;
     output_schema := output_schema p;
     config := config p;
     enrichment_strategy := enrichment_strategy p |}.

(** A run of the first scenario on document D, whose [sentiment] column
    holds a value: the configuration has a schema and names no output
    column. *)
Definition schema_only_run : outcome (list (option dict)) * state :=
  process_batch positive (task sentiment_config) [doc_d] fresh.

(** The second scenario of the specification,
    [topics: { enum_list: [a, b, c, d], min_items: 1, max_items: 3 }],
    with an output table. *)
Definition topics_config : dict :=
  [ (lit "name", PStr (lit "topics"));
    (lit "prompt", PStr (lit "Topics: {raw_content}"));
    (lit "input",
     PDict [(lit "query", PStr (lit "all_docs"));
            (lit "input_columns", PList [PStr (lit "raw_content")])]);
    (lit "output_table", PStr (lit "labels"));
    (lit "schema",
     PDict [(lit "topics",
             PDict [(lit "enum_list",
                     PList [PStr (lit "a"); PStr (lit "b"); PStr (lit "c");
                            PStr (lit "d")]);
                    (lit "min_items", PInt 1);
                    (lit "max_items", PInt 3)])]) ].

Definition topics_task : params :=
  {| model := lit "gpt-4o-mini";
     name := lit "topics";
     run_prompt_id := PStr (lit "prompt-1");
     output_cols := [PNone];
     output_table := PStr (lit "labels");
     key_column := lit "sha1";
     table := PStr (lit "documents");
     primary_key := lit "sha1";
     overwrite := false;
     truncate := false;
     output_schema := get topics_config (lit "schema") PNone;
     config := true;
     enrichment_strategy := resolved topics_config |}.

(** The table [labels] as [ensure_output_table] creates it for this
    configuration (a derived table with key [sha1] and output column
    [topics]), in a database with no audit row. *)
Definition labels : Store.table :=
  {| column_names :=
       [lit "id"; lit "sha1"; lit "model_used"; lit "enrichment_id";
        lit "topics"; lit "created_at"; lit "updated_at"];
     rows := [] |}.

Definition with_labels : state :=
  {| audit := []; output_tables := [(lit "labels", labels)];
     calls := 0; passes := 0; trace := [] |}.

(** The provider answers [a, b, a]. *)
Definition a_b_a : list pystr := [lit "a"; lit "b"; lit "a"].

Definition repeated_topics : world :=
  stub (fun _ => Parsed [(lit "topics", PList (map PStr a_b_a))])
       (fun _ => Text (lit "a, b, a")).

Definition repeated_topics_run : outcome (list (option dict)) * state :=
  process_batch repeated_topics topics_task [doc_a] with_labels.

(** What a run returned, [[]] if it raised. *)
Definition returned_by (run : outcome (list (option dict)) * state)
  : list (option dict) :=
  match fst run with
  | Ret returned => returned
  | Raise _ => []
  end.

Definition three_docs : list Row := [doc_a; doc_b; doc_c].

Definition first_run : outcome (list (option dict)) * state :=
  process_batch positive (task sentiment_config) three_docs fresh.

Definition overwrite_run : outcome (list (option dict)) * state :=
  process_batch positive (overwriting (task sentiment_config)) three_docs
    after_first_run.

End MoreScenarios.

(* ================================================================== *)
(** * Properties *)
(* ================================================================== *)

Unset Implicit Arguments.

Module PyFacts.

Local Open Scope N_scope.

Lemma pystr_eqb_eq (a b : pystr) : pystr_eqb a b = true <-> a = b.
Proof.
  revert b; induction a as [|x a IH]; intros [|y b]; simpl;
    try (split; [discriminate | congruence]); try tauto.
  rewrite andb_true_iff, N.eqb_eq, IH. split.
  - intros [-> ->]; reflexivity.
  - intros H; injection H as -> ->; auto.
Qed.

Lemma pystr_eqb_refl (a : pystr) : pystr_eqb a a = true.
Proof. apply pystr_eqb_eq; reflexivity. Qed.

Lemma pystr_eqb_neq (a b : pystr) : pystr_eqb a b = false <-> a <> b.
Proof.
  split.
  - intros H E. apply pystr_eqb_eq in E. congruence.
  - intros H. destruct (pystr_eqb a b) eqn:E; [|reflexivity].
    apply pystr_eqb_eq in E. contradiction.
Qed.

Lemma starts_with_app (n x t : pystr) :
  starts_with n x = true -> starts_with n (x ++ t) = true.
Proof.
  revert x; induction n as [|c n IH]; intros [|y x]; simpl; auto;
    try discriminate.
  rewrite !andb_true_iff. intros [? ?]; split; auto.
Qed.

(** A needle found in a text is found in any extension of the text. *)
Lemma contains_app_r (n x t : pystr) :
  contains n x = true -> contains n (x ++ t) = true.
Proof.
  induction x as [|y x IH]; simpl.
  - rewrite orb_false_r. destruct n; simpl; [ | discriminate].
    intros _. destruct t; reflexivity.
  - rewrite !orb_true_iff. intros [H | H].
    + left. exact (starts_with_app n (y :: x) t H).
    + right; auto.
Qed.

Lemma contains_app_l (n a x : pystr) :
  contains n x = true -> contains n (a ++ x) = true.
Proof.
  induction a as [|y a IH]; simpl; auto.
  intros H. rewrite (IH H). apply orb_true_r.
Qed.

End PyFacts.

Module LangFacts.

Import Lang PyFacts.
Local Open Scope N_scope.

Lemma between_one (lo hi c : N) :
  between [lo] [hi] c = (lo <=? c) && (c <=? hi).
Proof.
  unfold between; simpl.
  destruct (N.ltb_spec lo c), (N.eqb_spec lo c), (N.leb_spec lo c),
    (N.ltb_spec c hi), (N.eqb_spec c hi), (N.leb_spec c hi);
    simpl; try reflexivity; lia.
Qed.

(** With a second character in both bounds, the lower bound itself is
    excluded and the upper bound is included. *)
Lemma between_two (lo x hi y c : N) :
  between [lo; x] [hi; y] c = (lo <? c) && (c <=? hi).
Proof.
  unfold between; simpl.
  destruct (N.ltb_spec lo c), (N.eqb_spec lo c),
    (N.ltb_spec c hi), (N.eqb_spec c hi), (N.leb_spec c hi);
    simpl; try reflexivity; lia.
Qed.

(** The ranges that [contains_hanzi] tests, as numbers. *)
Lemma hanzi_char_ranges (c : N) :
  hanzi_char c =
  ((0x4e00 <=? c) && (c <=? 0x9fff))
  || ((0x3400 <=? c) && (c <=? 0x4dbf))
  || ((0x2000 <? c) && (c <=? 0x2a6d))
  || ((0x2a70 <? c) && (c <=? 0x2b73))
  || ((0x2b74 <? c) && (c <=? 0x2b81))
  || ((0x2b82 <? c) && (c <=? 0x2cea))
  || ((0xf900 <=? c) && (c <=? 0xfaff))
  || ((0x2f80 <? c) && (c <=? 0x2fa1)).
Proof.
  unfold hanzi_char. now rewrite !between_one, !between_two.
Qed.

Lemma hanzi_char_plain (c : N) :
  plain_char c = true -> hanzi_char c = spec_cjk_ideograph c.
Proof.
  intros Hp. apply eq_true_iff_eq.
  rewrite hanzi_char_ranges. unfold spec_cjk_ideograph.
  unfold plain_char in Hp.
  rewrite ?orb_true_iff, ?andb_true_iff, ?N.leb_le, ?N.ltb_lt in *.
  lia.
Qed.

Lemma contains_hanzi_plain (v : pystr) :
  forallb plain_char v = true ->
  contains_hanzi v = existsb spec_cjk_ideograph v.
Proof.
  unfold contains_hanzi. induction v as [|c v IH]; simpl; auto.
  rewrite andb_true_iff. intros [Hc Hv].
  now rewrite (hanzi_char_plain c Hc), (IH Hv).
Qed.

Lemma validate_language_zh (c : N) (v : pystr) :
  validate_language (c :: v) zh = contains_hanzi (c :: v).
Proof. reflexivity. Qed.

Lemma validate_language_en (c : N) (v : pystr) :
  validate_language (c :: v) en = negb (contains_hanzi (c :: v)).
Proof. reflexivity. Qed.

(** The guard [if not text or not lang]: the empty string passes under
    any tag. *)
Lemma validate_language_empty (lang : pystr) :
  validate_language [] lang = true.
Proof. reflexivity. Qed.

(** The ranges written with five hexadecimal digits are not the blocks
    their comments name: U+2014 (a dash) counts as a hanzi, and U+20000,
    the first ideograph of Extension B, does not. *)
Lemma contains_hanzi_mistyped_ranges :
  contains_hanzi [0x2014] = true /\ spec_cjk_ideograph 0x2014 = false
  /\ contains_hanzi [0x20000] = false /\ spec_cjk_ideograph 0x20000 = true.
Proof. repeat split; reflexivity. Qed.

(** For a non-empty string of characters of the Basic Multilingual Plane
    outside U+2001-U+2FA1, validation under [lang: zh] succeeds iff the
    string contains an ideograph of the blocks the specification names,
    and under [lang: en] iff it contains none. *)
Theorem validate_language_on_plain_text (v : pystr)
  (Hnonempty : v <> []) (Hplain : forallb plain_char v = true) :
  (validate_language v zh = true <->
     exists c, In c v /\ spec_cjk_ideograph c = true)
  /\ (validate_language v en = true <->
        forall c, In c v -> spec_cjk_ideograph c = false).
Proof.
  destruct v as [|c0 v]; [contradiction|].
  rewrite validate_language_zh, validate_language_en.
  rewrite (contains_hanzi_plain _ Hplain). split.
  - rewrite existsb_exists. reflexivity.
  - rewrite negb_true_iff. split.
    + intros H c Hc. destruct (spec_cjk_ideograph c) eqn:E; auto.
      assert (existsb spec_cjk_ideograph (c0 :: v) = true)
        by (apply existsb_exists; eauto).
      congruence.
    + intros H. destruct (existsb spec_cjk_ideograph (c0 :: v)) eqn:E; auto.
      apply existsb_exists in E. destruct E as (c & Hc & Hs).
      rewrite (H c Hc) in Hs. discriminate.
Qed.

(** The text U+4F60 U+597D satisfies the hypotheses. *)
Lemma validate_language_on_plain_text_witness :
  (validate_language [0x4F60; 0x597D] zh = true <->
     exists c, In c [0x4F60; 0x597D] /\ spec_cjk_ideograph c = true)
  /\ (validate_language [0x4F60; 0x597D] en = true <->
        forall c, In c [0x4F60; 0x597D] -> spec_cjk_ideograph c = false).
Proof.
  apply (validate_language_on_plain_text [0x4F60; 0x597D]).
  - discriminate.
  - reflexivity.
Defined.

(** The empty string passes [lang: zh] and contains no ideograph. *)
Lemma validate_language_zh_empty_string :
  ~ (validate_language [] zh = true <->
       exists c, In c [] /\ spec_cjk_ideograph c = true).
Proof.
  intros [H _]. destruct (H eq_refl) as (c & Hin & _). exact Hin.
Qed.

(** C4 on the code.  The ranges that the source writes with five
    hexadecimal digits are not the extension blocks that its comments and
    the specification name.  A text with a dash (U+2014) between two
    English words holds no ideograph, yet it passes [lang: zh] and fails
    [lang: en]; and the first ideograph of Extension B (U+20000) fails
    [lang: zh] and passes [lang: en]. *)
Theorem mistyped_ranges_misjudge_dash_and_extension_b :
  forallb (fun c => negb (spec_cjk_ideograph c))
    (lit "Hello" ++ [0x2014] ++ lit "world") = true
  /\ validate_language (lit "Hello" ++ [0x2014] ++ lit "world") zh = true
  /\ validate_language (lit "Hello" ++ [0x2014] ++ lit "world") en = false
  /\ spec_cjk_ideograph 0x20000 = true
  /\ validate_language [0x20000] zh = false
  /\ validate_language [0x20000] en = true.
Proof. repeat split; vm_compute; reflexivity. Qed.

End LangFacts.

Module EnumListFacts.

Import EnumList PyFacts Scenarios.

Lemma mem_cons (y x : pystr) (l : list pystr) :
  mem y (x :: l) = pystr_eqb y x || mem y l.
Proof. reflexivity. Qed.

Lemma mem_snoc (y x : pystr) (l : list pystr) :
  mem y (l ++ [x]) = mem y l || pystr_eqb y x.
Proof.
  unfold mem. rewrite existsb_app. simpl. now rewrite orb_false_r.
Qed.

(** The loop with its [seen] set keeps exactly the first occurrences. *)
Lemma deduplicate_keep_first (xs seen earlier : list pystr) :
  (forall y, mem y seen = mem y earlier) ->
  deduplicate seen xs = keep_first_from earlier xs.
Proof.
  revert seen earlier. induction xs as [|x xs IH]; intros seen earlier H.
  - reflexivity.
  - simpl. rewrite (H x). destruct (mem x earlier) eqn:E.
    + simpl. apply IH. intros y. rewrite mem_snoc, H.
      destruct (pystr_eqb y x) eqn:Eyx.
      * apply pystr_eqb_eq in Eyx. subst y. rewrite E. reflexivity.
      * now rewrite orb_false_r.
    + simpl. f_equal. apply IH. intros y.
      rewrite mem_cons, mem_snoc, H. apply orb_comm.
Qed.

Lemma deduplicate_spec (xs : list pystr) :
  deduplicate [] xs = dedupe_preserving_order xs.
Proof. apply deduplicate_keep_first. reflexivity. Qed.

(** With case-sensitive matching, the loop over the items returns them
    unchanged, or stops at the first one that is not a choice. *)
Lemma validate_each_case_sensitive (m : EnumListSchemaManager)
  (xs : list pystr) :
  case_sensitive m = true ->
  validate_each m (choices m) xs =
  match find (fun x => negb (mem x (choices m))) xs with
  | Some x => inl (NotAllowed x)
  | None => inr xs
  end.
Proof.
  intros Hcs. induction xs as [|x xs IH]; simpl.
  - reflexivity.
  - rewrite Hcs. destruct (mem x (choices m)); simpl.
    + rewrite IH.
      destruct (find (fun x0 => negb (mem x0 (choices m))) xs); reflexivity.
    + reflexivity.
Qed.

Lemma inter_all_allowed (allowed xs : list pystr) :
  find (fun x => negb (mem x allowed)) xs = None -> inter xs allowed = xs.
Proof.
  unfold inter. induction xs as [|x xs IH]; simpl; auto.
  destruct (mem x allowed); simpl; [|discriminate].
  intros H. now rewrite (IH H).
Qed.

(** The manager of the legacy path.  For an enum list with the default
    [unique_items] and case-sensitive matching, [validate_response] is the
    law: a reply with a value outside the allowed set is rejected as a
    whole; otherwise the reply is deduplicated keeping first occurrences,
    and the length after deduplication is checked against [min_items],
    then [max_items]. *)
Theorem validate_response_dedupe_law (m : EnumListSchemaManager)
  (xs : list pystr)
  (Hunique : unique_items m = true) (Hcase : case_sensitive m = true) :
  validate_response m xs =
  enum_list_law (choices m) (min_items m) (max_items m) xs.
Proof.
  unfold validate_response, enum_list_law.
  rewrite Hcase, Hunique, (validate_each_case_sensitive m xs Hcase).
  destruct (find (fun x => negb (mem x (choices m))) xs) eqn:E.
  - reflexivity.
  - rewrite (inter_all_allowed _ _ E), deduplicate_spec. reflexivity.
Qed.

(** The manager of the specification's third scenario stores [a, b] for
    the reply [a, b, a, b]. *)
Lemma validate_response_dedupe_law_witness :
  validate_response Scenarios.topics [lit "a"; lit "b"; lit "a"; lit "b"] =
  enum_list_law (choices topics) (min_items topics) (max_items topics)
    [lit "a"; lit "b"; lit "a"; lit "b"].
Proof.
  apply (validate_response_dedupe_law topics); reflexivity.
Defined.

Example topics_scenario :
  validate_response topics [lit "a"; lit "b"; lit "a"; lit "b"]
  = inr [lit "a"; lit "b"]
  /\ validate_response topics [] = inl (TooFew 1 0).
Proof. split; reflexivity. Qed.

(** The type built for the structured path accepts a reply with
    duplicates as long as its length, duplicates included, is within the
    bounds. *)
Lemma pydantic_accepts_duplicates :
  pydantic_accepts (choices topics) (min_items topics) (max_items topics)
    [lit "a"; lit "b"; lit "a"] = true
  /\ dedupe_preserving_order [lit "a"; lit "b"; lit "a"] = [lit "a"; lit "b"].
Proof. split; reflexivity. Qed.

End EnumListFacts.

Module TokensFacts.

Import Tokens PyFacts.
Local Open Scope Z_scope.

Lemma firstn_prefix (n : nat) (s : pystr) : exists t, s = firstn n s ++ t.
Proof. exists (skipn n s). symmetry. apply firstn_skipn. Qed.

Lemma slice_to_prefix (s : pystr) (n : Z) : exists t, s = slice_to s n ++ t.
Proof. unfold slice_to. destruct (0 <=? n); apply firstn_prefix. Qed.

(** What [truncate_input_for_model] returns is the beginning of the input:
    nothing is appended to it. *)
Lemma truncate_input_for_model_prefix
  (full_prompt input_text model : pystr) (safety_margin : Z) :
  exists t,
    input_text
    = fst (truncate_input_for_model full_prompt input_text model safety_margin)
      ++ t.
Proof.
  unfold truncate_input_for_model.
  destruct (_ <=? _); [exists []; simpl; now rewrite app_nil_r|].
  destruct (_ <=? 0); [exists input_text; reflexivity|].
  simpl.
  set (cut := slice_to input_text _).
  destruct (slice_to_prefix input_text
              ((context_limit model - safety_margin
                - estimate_tokens full_prompt) * 4)) as [t Ht].
  fold cut in Ht.
  destruct (len cut <? len input_text); [|now exists t].
  destruct (_ <? _); [|now exists t].
  destruct (slice_to_prefix cut (rfind_space cut)) as [t' Ht'].
  exists (t' ++ t). rewrite app_assoc, <- Ht'. exact Ht.
Qed.

(** The prompt that [process_row_structured] submits contains the marker
    only if the untruncated prompt already did. *)
Lemma full_prompt_content_adds_no_marker
  (truncate : bool) (templated_prompt input_text model : pystr) :
  contains TRUNCATED (templated_prompt ++ newlines ++ input_text) = false ->
  contains TRUNCATED
    (fst (full_prompt_content truncate templated_prompt input_text model))
  = false.
Proof.
  intros H. unfold full_prompt_content.
  destruct truncate; [|exact H].
  destruct (truncate_input_for_model_prefix templated_prompt input_text model
              DEFAULT_SAFETY_MARGIN) as [t Ht].
  destruct (truncate_input_for_model _ _ _ _) as [final was] eqn:E.
  cbn [fst] in *.
  destruct (contains TRUNCATED (templated_prompt ++ newlines ++ final)) eqn:C;
    [|reflexivity].
  apply (contains_app_r _ _ t) in C.
  rewrite <- !app_assoc, <- Ht in C. congruence.
Qed.

End TokensFacts.

Module TokensClaims.

Import Tokens Scenarios.
Local Open Scope Z_scope.

(** C6 on the code.  With truncation enabled, model [gpt-4] (context 8192,
    margin 2000) and an input of 30000 characters, [process_row_structured]
    cuts the input, the prompt it submits carries no "[TRUNCATED]" marker,
    and its estimate is 6193 tokens, above 8192 - 2000.  A prompt that is
    too long by itself is submitted whole, with an empty input. *)
Theorem structured_prompt_truncated_without_marker :
  context_limit (lit "gpt-4") - DEFAULT_SAFETY_MARGIN = 6192
  /\ (let '(sent, was_truncated) :=
        full_prompt_content true (lit "Summarize:") long_input (lit "gpt-4") in
      was_truncated = true
      /\ contains TRUNCATED sent = false
      /\ estimate_tokens sent = 6193)
  /\ (let '(sent, was_truncated) :=
        full_prompt_content true long_prompt (lit "hello") (lit "gpt-4") in
      was_truncated = true
      /\ contains TRUNCATED sent = false
      /\ estimate_tokens sent = 10000).
Proof. vm_compute. repeat split. Qed.

(** The sibling in llm/token_utils.py appends the marker; its result is
    above the budget too, by the length of the marker. *)
Example token_utils_truncation :
  let '(sent, was_truncated) :=
    token_utils_truncate_input_for_model
      (lit "Analyze this: " ++ long_input) long_input (lit "gpt-4") 2000 in
  was_truncated = true
  /\ contains TRUNCATED sent = true
  /\ estimate_tokens sent = 6196.
Proof. vm_compute. repeat split. Qed.

End TokensClaims.

Module QueryFacts.

Import Query.

(** The expectations of tests/unit/test_query_utils.py. *)
Example ensure_rowid_select_star :
  ensure_rowid_in_query (lit "SELECT * FROM documents")
  = lit "SELECT rowid, * FROM documents"
  /\ ensure_rowid_in_query (lit "select * from documents")
     = lit "select rowid, * from documents"
  /\ ensure_rowid_in_query (lit "SELECT rowid, * FROM documents")
     = lit "SELECT rowid, * FROM documents"
  /\ ensure_rowid_in_query (lit "SELECT id, name FROM documents")
     = lit "SELECT id, name FROM documents".
Proof. vm_compute. repeat split. Qed.

Example apply_null_filters_tests :
  apply_null_filters (lit "SELECT * FROM docs WHERE content IS NULL")
    (lit "content") true
  = lit "SELECT * FROM docs WHERE 1=1"
  /\ apply_null_filters (lit "SELECT * FROM docs") (lit "content") false
     = lit "SELECT * FROM docs WHERE content IS NULL"
  /\ apply_null_filters (lit "SELECT * FROM docs WHERE active = 1")
       (lit "content") false
     = lit "SELECT * FROM docs WHERE content IS NULL AND active = 1"
  /\ apply_null_filters (lit "SELECT * FROM docs WHERE content IS NULL")
       (lit "content") false
     = lit "SELECT * FROM docs WHERE content IS NULL".
Proof. vm_compute. repeat split. Qed.

Example add_order_and_limit_tests :
  add_order_and_limit (lit "SELECT * FROM docs") None
  = lit "SELECT * FROM docs ORDER BY rowid"
  /\ add_order_and_limit (lit "SELECT * FROM docs") (Some 10%N)
     = lit "SELECT * FROM docs ORDER BY rowid LIMIT 10"
  /\ add_order_and_limit (lit "SELECT * FROM docs ORDER BY created_at")
       (Some 10%N)
     = lit "SELECT * FROM docs ORDER BY created_at LIMIT 10"
  /\ add_order_and_limit (lit "SELECT * FROM docs LIMIT 100") (Some 10%N)
     = lit "SELECT * FROM docs ORDER BY rowid LIMIT 10"
  /\ add_order_and_limit (lit "SELECT * FROM docs LIMIT 50") None
     = lit "SELECT * FROM docs ORDER BY rowid LIMIT 50".
Proof. vm_compute. repeat split. Qed.

(** C7 on the code.  With [overwrite=true] the filter is not stripped but
    replaced by "WHERE 1=1" together with the AND next to it, which leaves
    a statement with two WHERE clauses, or with two conditions and no
    connective; with [overwrite=false] nothing is added when the statement
    contains the letters WHERE but no WHERE clause; and no ORDER BY is
    added when it contains the letters LIMIT but no LIMIT clause. *)
Theorem plan_overwrite_malformed_statement :
  plan (lit "SELECT * FROM docs WHERE active = 1 AND content IS NULL")
    (lit "content") true true None
  = lit "SELECT * FROM docs WHERE active = 1 WHERE 1=1 ORDER BY rowid"
  /\ plan (lit "SELECT * FROM docs WHERE content IS NULL AND active = 1")
       (lit "content") true true None
     = lit "SELECT * FROM docs WHERE 1=1 active = 1 ORDER BY rowid"
  /\ plan (lit "SELECT rowid, * FROM nowhere") (lit "content") true false None
     = lit "SELECT rowid, * FROM nowhere ORDER BY rowid"
  /\ plan (lit "SELECT rowid, * FROM limits") (lit "content") false false None
     = lit "SELECT rowid, * FROM limits".
Proof. vm_compute. repeat split. Qed.

End QueryFacts.

Module StrategyFacts.

Import Strategy Scenarios.

Section Rules.

Variable enum_builds : list pyval -> bool.
Variable create_model_builds : dict -> bool.

Let resolve := determine_enrichment_strategy enum_builds create_model_builds.

Ltac refuse :=
  split;
  [ intros [? H]; discriminate H
  | intros (H1 & H2 & H3);
    repeat match goal with
           | H : _ && _ = true |- _ =>
               apply andb_true_iff in H; destruct H
           end;
    try discriminate; try (specialize (H3 eq_refl)); congruence ].

(** Resolution returns exactly for a configuration with a schema that is
    well formed and gives an output table when its schema has several
    fields. *)
Lemma resolution_returns (enrichment_config : dict) (default_table : pystr) :
  (exists s, resolve enrichment_config default_table = Ret s)
  <-> truthy (get enrichment_config (lit "schema") PNone) = true
      /\ well_formed enum_builds create_model_builds enrichment_config = true
      /\ (is_complex (analyze_schema_complexity
                        (get enrichment_config (lit "schema") PNone)) = true ->
          truthy (get enrichment_config (lit "output_table") PNone) = true).
Proof.
  unfold resolve, determine_enrichment_strategy, well_formed,
    input_is_mapping.
  set (schema := get enrichment_config (lit "schema") PNone).
  set (output_table := get enrichment_config (lit "output_table") PNone).
  destruct (truthy schema); cbn [negb]; [|refuse].
  destruct (get enrichment_config (lit "input") (PDict [])); try refuse.
  destruct (is_complex (analyze_schema_complexity schema));
    destruct (truthy output_table); cbn [andb negb]; try refuse;
    (destruct (name_is_text enrichment_config); cbn [andb negb];
     [|refuse];
     destruct (create_pydantic_model_from_schema _ _ schema); [|refuse];
     destruct (sql_types_build enrichment_config schema); cbn [andb negb];
     [|refuse];
     split; [auto|intros _; eexists; reflexivity]).
Qed.

(** C8.  For a configuration with a schema: resolution fails when the
    schema has more than one field and no [output_table] is given; a
    strategy resolved with an [output_table] has storage mode
    [separate_table]; a strategy resolved for a schema with exactly one
    field and no [output_table] has storage mode [direct_column] and one
    output column, the field.  And resolution does return a strategy in
    the last two cases, for every configuration that is well formed: one
    with an [output_table] resolves to [separate_table], with the fields
    of the schema as output columns, and one with a single field and no
    [output_table] resolves to [direct_column]. *)
Theorem strategy_resolution_rules (enrichment_config : dict)
  (default_table : pystr)
  (Hschema : truthy (get enrichment_config (lit "schema") PNone) = true) :
  let schema := get enrichment_config (lit "schema") PNone in
  let output_table := get enrichment_config (lit "output_table") PNone in
  (forall fields,
      schema = PDict fields -> 1 < List.length fields ->
      truthy output_table = false ->
      exists e, resolve enrichment_config default_table = Raise e)
  /\ (forall s,
         resolve enrichment_config default_table = Ret s ->
         truthy output_table = true ->
         storage_mode s = separate_table)
  /\ (forall s field definition,
         resolve enrichment_config default_table = Ret s ->
         schema = PDict [(field, definition)] ->
         truthy output_table = false ->
         storage_mode s = direct_column /\ output_columns s = [field])
  /\ (well_formed enum_builds create_model_builds enrichment_config = true ->
      truthy output_table = true ->
      exists s,
        resolve enrichment_config default_table = Ret s
        /\ storage_mode s = separate_table
        /\ Strategy.output_table s = output_table
        /\ forall fields, schema = PDict fields ->
                          output_columns s = keys fields)
  /\ (forall field definition,
         well_formed enum_builds create_model_builds enrichment_config
         = true ->
         schema = PDict [(field, definition)] ->
         truthy output_table = false ->
         exists s,
           resolve enrichment_config default_table = Ret s
           /\ storage_mode s = direct_column
           /\ output_columns s = [field]).
Proof.
  intros schema output_table.
  assert (Hret : forall s,
             resolve enrichment_config default_table = Ret s ->
             storage_mode s
             = (if truthy output_table then separate_table
                else direct_column)
             /\ Strategy.output_table s
                = (if truthy output_table then output_table else PNone)
             /\ output_columns s
                = field_names (analyze_schema_complexity schema)).
  { intros s. unfold resolve, determine_enrichment_strategy.
    fold schema output_table.
    destruct (negb (truthy schema)); [discriminate|].
    destruct (get enrichment_config (lit "input") (PDict []));
      try discriminate.
    destruct (_ && _); [discriminate|].
    destruct (negb (name_is_text enrichment_config)); [discriminate|].
    destruct (create_pydantic_model_from_schema _ _ schema);
      [|discriminate].
    destruct (negb (sql_types_build enrichment_config schema));
      [discriminate|].
    intros H; injection H as <-.
    cbn [storage_mode Strategy.output_table output_columns].
    destruct (truthy output_table); auto. }
  assert (Hex : well_formed enum_builds create_model_builds
                  enrichment_config = true ->
                (is_complex (analyze_schema_complexity schema) = true ->
                 truthy output_table = true) ->
                exists s, resolve enrichment_config default_table = Ret s).
  { intros Hw Hc. apply resolution_returns. auto. }
  split; [|split; [|split; [|split]]].
  - intros fields Hf Hlen Hout.
    destruct (resolve enrichment_config default_table) as [s|e] eqn:E;
      [|eauto].
    exfalso.
    assert (Hs : exists s, resolve enrichment_config default_table = Ret s)
      by eauto.
    apply resolution_returns in Hs. destruct Hs as (_ & _ & Hc).
    fold schema output_table in Hc. rewrite Hf in Hc.
    destruct fields as [|f1 [|f2 fields]]; cbn in Hlen; try lia.
    specialize (Hc eq_refl). congruence.
  - intros s H Hout. destruct (Hret s H) as (Hm & _). now rewrite Hout in Hm.
  - intros s field definition H Hf Hout.
    destruct (Hret s H) as (Hm & _ & Hc).
    rewrite Hout in Hm. rewrite Hf in Hc. auto.
  - intros Hw Hout. destruct (Hex Hw (fun _ => Hout)) as [s H].
    exists s. destruct (Hret s H) as (Hm & Ht & Hc).
    rewrite Hout in Hm, Ht. repeat split; auto.
    intros fields Hf. now rewrite Hf in Hc.
  - intros field definition Hw Hf Hout.
    destruct (Hex Hw) as [s H].
    { rewrite Hf. discriminate. }
    exists s. destruct (Hret s H) as (Hm & _ & Hc).
    rewrite Hout in Hm. rewrite Hf in Hc. auto.
Qed.

End Rules.

(** The configuration of the first scenario has a schema of one field and
    no output table, and another one two fields and an output table; both
    are well formed, so that each resolves, the first to a direct column
    and the second to a separate table. *)
Lemma strategy_resolution_rules_witness :
  (exists s,
      determine_enrichment_strategy builds builds sentiment_config
        (lit "documents") = Ret s
      /\ storage_mode s = direct_column
      /\ output_columns s = [lit "sentiment"])
  /\ (exists s,
         determine_enrichment_strategy builds builds
           MoreScenarios.review_config (lit "documents") = Ret s
         /\ storage_mode s = separate_table
         /\ output_table s = PStr (lit "reviews")
         /\ forall fields,
              get MoreScenarios.review_config (lit "schema") PNone
              = PDict fields ->
              output_columns s = keys fields).
Proof.
  split.
  - destruct (strategy_resolution_rules builds builds sentiment_config
                (lit "documents") eq_refl) as (_ & _ & _ & _ & Hdirect).
    apply (Hdirect (lit "sentiment")
             (PDict [(lit "enum",
                      PList [PStr (lit "positive"); PStr (lit "negative");
                             PStr (lit "neutral")])]));
      reflexivity.
  - destruct (strategy_resolution_rules builds builds
                MoreScenarios.review_config (lit "documents") eq_refl)
      as (_ & _ & _ & Htable & _).
    apply Htable; reflexivity.
Defined.

(** It resolves, to a direct column named after the field. *)
Example sentiment_strategy :
  exists s,
    determine_enrichment_strategy builds builds sentiment_config
      (lit "documents") = Ret s
    /\ storage_mode s = direct_column
    /\ output_columns s = [lit "sentiment"]
    /\ output_table s = PNone.
Proof. eexists. repeat split. Qed.

End StrategyFacts.

Module EngineFacts.

Import Store Engine Trace Scenarios PyFacts.
Local Open Scope engine_scope.

Lemma audits_of_app (a b : list event) :
  audits_of (a ++ b) = audits_of a ++ audits_of b.
Proof. unfold audits_of. apply flat_map_app. Qed.

Lemma step_refl (st : state) : step st st [].
Proof. split; simpl; now rewrite app_nil_r. Qed.

Lemma step_trans (st1 st2 st3 : state) (e1 e2 : list event) :
  step st1 st2 e1 -> step st2 st3 e2 -> step st1 st3 (e1 ++ e2).
Proof.
  intros [T1 A1] [T2 A2]. split.
  - now rewrite T2, T1, app_assoc.
  - now rewrite A2, A1, audits_of_app, app_assoc.
Qed.

Lemma audits_of_calls (u : nat) (row : Row) (cs : list event) :
  Forall (call_event u row) cs -> audits_of cs = [].
Proof.
  induction 1 as [|e cs (_ & _ & Hc) _ IH]; simpl; auto.
  unfold is_call in Hc. destruct (ev_action e); try discriminate. exact IH.
Qed.

Lemma audits_of_writes (u : nat) (row : Row) (ws : list event) :
  Forall (write_event u row) ws -> audits_of ws = [].
Proof.
  induction 1 as [|e ws (_ & _ & Hc & _) _ IH]; simpl; auto.
  unfold is_write in Hc. destruct (ev_action e); try discriminate; exact IH.
Qed.

(** *** The primitives *)

Ltac step_now :=
  split;
  [ first [reflexivity | cbn; rewrite ?app_nil_r; reflexivity]
  | cbn; rewrite ?app_nil_r; reflexivity ].

Lemma provider_call_run (kind : call_kind) (u : nat) (row : Row) (st : state) :
  exists e st',
    provider_call kind u row st = (calls st, st')
    /\ step st st' [e] /\ call_event u row e
    /\ passes st' = passes st /\ output_tables st' = output_tables st.
Proof.
  eexists; eexists; split; [reflexivity|].
  split; [step_now|]. repeat split.
Qed.

Lemma fresh_pass_run (st : state) :
  exists st',
    fresh_pass st = (passes st, st')
    /\ step st st' [] /\ passes st' = S (passes st)
    /\ output_tables st' = output_tables st.
Proof.
  eexists; split; [reflexivity|].
  split; [step_now|]. split; reflexivity.
Qed.

Lemma store_raw_run (u : nat) (row : Row) (a : audit_row) (st : state) :
  exists e st',
    store_raw_enrichment_response u row a st = (tt, st')
    /\ step st st' [e]
    /\ ev_pass e = u /\ ev_row e = row /\ ev_action e = AuditAppend a
    /\ passes st' = passes st /\ output_tables st' = output_tables st.
Proof.
  eexists; eexists; split; [reflexivity|].
  split; [step_now|]. repeat split.
Qed.

Lemma update_database_run (p : params) (u : nat) (row : Row)
  (output_col : pyval) (entry : dict) (st : state) :
  exists ws st',
    update_database p u row output_col entry st = (tt, st')
    /\ step st st' ws /\ Forall (write_event u row) ws
    /\ passes st' = passes st.
Proof.
  unfold update_database. destruct (_ && _).
  - eexists; eexists; split; [reflexivity|].
    split; [step_now|]. split; [|reflexivity].
    constructor; [|constructor]. repeat split. discriminate.
  - exists [], st. split; [reflexivity|].
    split; [step_now|]. split; [constructor|reflexivity].
Qed.

Lemma write_output_table_run (w : world) (u : nat) (row : Row)
  (output_table : pyval) (key_column : pystr) (key_value : pyval)
  (output_data : dict) (model_used : pystr) (st : state) :
  exists r ws st',
    write_output_table w u row output_table key_column key_value output_data
      (uuid u) model_used st = (r, st')
    /\ step st st' ws /\ Forall (write_event u row) ws
    /\ passes st' = passes st.
Proof.
  unfold write_output_table.
  destruct (update_output_table _ _ _ _ _ _ _ _) as [[how ts]|e].
  - destruct how.
    + eexists; exists []; eexists; split; [reflexivity|].
      split; [step_now|]. split; [constructor|reflexivity].
    + eexists; eexists; eexists; split; [reflexivity|].
      split; [step_now|]. split; [|reflexivity].
      constructor; [|constructor]. repeat split.
      cbn. intros i H; now injection H as <-.
    + eexists; eexists; eexists; split; [reflexivity|].
      split; [step_now|]. split; [|reflexivity].
      constructor; [|constructor]. repeat split.
      cbn. intros i H; now injection H as <-.
  - eexists; exists []; eexists; split; [reflexivity|].
    split; [step_now|]. split; [constructor|reflexivity].
Qed.

(** *** Blocks *)

Lemma blocks_app (among : Row -> Prop) (lo mid hi : nat)
  (e1 e2 : list event) :
  blocks among lo mid e1 -> blocks among mid hi e2 ->
  blocks among lo hi (e1 ++ e2).
Proof.
  induction 1 as [u|u mid row b rest Hrow Hb Hrest IH]; intros H2.
  - exact H2.
  - rewrite <- app_assoc. econstructor; eauto.
Qed.

Lemma blocks_weaken (A B : Row -> Prop) (lo hi : nat) (evs : list event) :
  (forall r, A r -> B r) -> blocks A lo hi evs -> blocks B lo hi evs.
Proof. intros HAB. induction 1; econstructor; eauto. Qed.

Lemma blocks_one (among : Row -> Prop) (u : nat) (row : Row)
  (b : list event) :
  among row -> pass_block u row b -> blocks among u (S u) b.
Proof.
  intros Hrow Hb. rewrite <- (app_nil_r b).
  econstructor; eauto. constructor.
Qed.

(** *** The row processors *)

Lemma attempts_run (w : world) (reqs : Lang.requirements) (u : nat)
  (row : Row) (fp : pystr) (todo : list nat) (st : state) :
  exists cs r st',
    attempts w reqs u row fp todo st = (r, st')
    /\ step st st' cs /\ Forall (call_event u row) cs
    /\ passes st' = passes st
    /\ (forall res, r = Some res -> result_of u row res)
    /\ (todo <> [] -> max_retries <= last todo 0 -> r <> None).
Proof.
  revert st. induction todo as [|attempt todo IH]; intros st.
  - exists [], None, st. split; [reflexivity|].
    split; [apply step_refl|]. split; [constructor|].
    split; [reflexivity|]. split; [discriminate|]. congruence.
  - cbn [attempts]. unfold bind.
    destruct (provider_call_run structured u row st)
      as (c & st1 & E1 & S1 & C1 & P1 & _).
    rewrite E1.
    assert (Hdone : forall res,
               result_of u row res ->
               exists cs r st',
                 ret (Some res) st1 = (r, st')
                 /\ step st st' cs /\ Forall (call_event u row) cs
                 /\ passes st' = passes st
                 /\ (forall res, r = Some res -> result_of u row res)
                 /\ (attempt :: todo <> [] ->
                     max_retries <= last (attempt :: todo) 0 -> r <> None)).
    { intros res Hres. exists [c], (Some res), st1.
      split; [reflexivity|]. split; [exact S1|].
      split; [constructor; [exact C1|constructor]|].
      split; [exact P1|]. split; [|discriminate].
      intros res' H; injection H as <-; exact Hres. }
    destruct (checked_reply w reqs (calls st)) as [result_dict|[msg|msg|msg]].
    + apply Hdone. split; reflexivity.
    + destruct (Nat.ltb attempt max_retries) eqn:Elt.
      * destruct (IH st1) as (cs & r & st' & E & S2 & C2 & P2 & R2 & N2).
        exists (c :: cs), r, st'. split; [exact E|].
        split; [exact (step_trans _ _ _ _ _ S1 S2)|].
        split; [constructor; assumption|].
        split; [congruence|]. split; [exact R2|].
        intros _ Hlast. destruct todo as [|a todo'].
        -- simpl in Hlast. apply Nat.ltb_lt in Elt. lia.
        -- apply N2; [discriminate|exact Hlast].
      * apply Hdone. split; reflexivity.
    + apply Hdone. split; reflexivity.
    + apply Hdone. split; reflexivity.
Qed.

Lemma process_row_structured_run (w : world) (p : params)
  (pydantic_model : Strategy.DynamicModel) (row : Row) (st : state) :
  exists cs res st',
    process_row_structured w p pydantic_model row st
    = ((passes st, Some res), st')
    /\ step st st' cs /\ Forall (call_event (passes st) row) cs
    /\ passes st' = S (passes st)
    /\ result_of (passes st) row res.
Proof.
  unfold process_row_structured, bind.
  destruct (fresh_pass_run st) as (st1 & E1 & S1 & P1 & _). rewrite E1.
  destruct (prompt_parts w row) as [templated_prompt input_text].
  match goal with
  | |- context [attempts ?w ?r ?u ?row ?fp ?todo st1] =>
      destruct (attempts_run w r u row fp todo st1)
        as (cs & r' & st' & E & S2 & C2 & P2 & R2 & N2)
  end.
  rewrite E. destruct r' as [res|].
  - exists cs, res, st'. split; [reflexivity|].
    split; [exact (step_trans _ _ _ _ _ S1 S2)|].
    split; [exact C2|]. split; [congruence|]. apply R2; reflexivity.
  - exfalso. apply N2; [discriminate | cbn; unfold max_retries; lia | reflexivity].
Qed.

Lemma process_row_run (w : world) (p : params) (row : Row)
  (output_col : pyval) (st : state) :
  exists c res st',
    process_row w p row output_col st = ((passes st, res), st')
    /\ step st st' [c] /\ call_event (passes st) row c
    /\ passes st' = S (passes st)
    /\ result_of (passes st) row res.
Proof.
  unfold process_row, bind.
  destruct (fresh_pass_run st) as (st1 & E1 & S1 & P1 & _). rewrite E1.
  destruct (prompt_parts w row) as [templated_prompt input_text].
  destruct (provider_call_run text (passes st) row st1)
    as (c & st2 & E2 & S2 & C2 & P2 & _).
  rewrite E2.
  assert (Hdone : forall res,
             result_of (passes st) row res ->
             exists c0 res0 st',
               ret (passes st, res) st2 = ((passes st, res0), st')
               /\ step st st' [c0] /\ call_event (passes st) row c0
               /\ passes st' = S (passes st)
               /\ result_of (passes st) row res0).
  { intros res Hres. exists c, res, st2. split; [reflexivity|].
    split; [exact (step_trans _ _ _ _ _ S1 S2)|].
    split; [exact C2|]. split; [congruence|exact Hres]. }
  destruct (generate_text w (calls st1)) as [result|e].
  - match goal with
    | |- context [match ?v with Ret _ => _ | Raise _ => _ end] =>
        destruct v as [validated|e]
    end.
    + apply Hdone. split; reflexivity.
    + destruct (is_schema_validation_error e);
        apply Hdone; split; reflexivity.
  - apply Hdone. split; reflexivity.
Qed.

Lemma chunk_parses_run (u : nat) (row : Row) (n : nat) (st : state) :
  exists cs st',
    chunk_parses u row n st = (tt, st')
    /\ step st st' cs /\ Forall (call_event u row) cs
    /\ passes st' = passes st.
Proof.
  revert st. induction n as [|n IH]; intros st.
  - exists [], st. split; [reflexivity|]. split; [apply step_refl|].
    split; [constructor|reflexivity].
  - cbn [chunk_parses]. unfold bind.
    destruct (provider_call_run chunk u row st)
      as (c & st1 & E1 & S1 & C1 & P1 & _).
    rewrite E1.
    destruct (IH st1) as (cs & st' & E & S2 & C2 & P2).
    exists (c :: cs), st'. split; [exact E|].
    split; [exact (step_trans _ _ _ _ _ S1 S2)|].
    split; [constructor; assumption|congruence].
Qed.

Lemma process_translation_run (w : world) (p : params) (row : Row)
  (st : state) :
  exists cs res st',
    process_translation w p row st = ((passes st, res), st')
    /\ step st st' cs /\ Forall (call_event (passes st) row) cs
    /\ passes st' = S (passes st)
    /\ result_of (passes st) row res.
Proof.
  unfold process_translation, bind.
  destruct (fresh_pass_run st) as (st1 & E1 & S1 & P1 & _). rewrite E1.
  destruct (chunk_parses_run (passes st) row
              (chunk_calls (translation w (calls st1))) st1)
    as (cs & st2 & E2 & S2 & C2 & P2).
  rewrite E2.
  assert (Hdone : forall res,
             result_of (passes st) row res ->
             exists cs0 res0 st',
               ret (passes st, res) st2 = ((passes st, res0), st')
               /\ step st st' cs0 /\ Forall (call_event (passes st) row) cs0
               /\ passes st' = S (passes st)
               /\ result_of (passes st) row res0).
  { intros res Hres. exists cs, res, st2. split; [reflexivity|].
    split; [exact (step_trans _ _ _ _ _ S1 S2)|].
    split; [exact C2|]. split; [congruence|exact Hres]. }
  destruct (translated (translation w (calls st1))) as [[[zh en_] english]|e].
  - destruct (row_rowid row); apply Hdone; split; reflexivity.
  - apply Hdone; split; reflexivity.
Qed.

(** *** A pass: calls, audit row, writes *)

Lemma audit_event_of (p : params) (u : nat) (row : Row) (res : dict)
  (raw_json : pyval) (e : event) :
  result_of u row res ->
  ev_pass e = u -> ev_row e = row ->
  ev_action e = AuditAppend (audit_of p res raw_json) ->
  audit_event u row e.
Proof.
  intros [Hid Hsha] Hu Hrow Ha. repeat split; auto.
  eexists; split; [exact Ha|]. unfold audit_of; cbn [sha1 enrichment_id].
  rewrite Hid, Hsha. split; reflexivity.
Qed.

(** After the calls [cs] of pass [u], the audit row and then whatever a
    continuation writes make a pass. *)
Lemma pass_of (u : nat) (row : Row) (st st1 st2 st3 : state)
  (cs ws : list event) (ea : event) :
  step st st1 cs -> Forall (call_event u row) cs ->
  step st1 st2 [ea] -> audit_event u row ea ->
  step st2 st3 ws -> Forall (write_event u row) ws ->
  step st st3 (cs ++ ea :: ws) /\ pass_block u row (cs ++ ea :: ws).
Proof.
  intros S1 C S2 A S3 W. split; [|constructor; assumption].
  pose proof (step_trans _ _ _ _ _ S1 (step_trans _ _ _ _ _ S2 S3)) as H.
  exact H.
Qed.

Lemma save_legacy_run (w : world) (p : params) (row : Row)
  (output_col : pyval) (st : state) :
  exists r b st',
    save_legacy w p row output_col st = (r, st')
    /\ step st st' b /\ pass_block (passes st) row b
    /\ passes st' = S (passes st).
Proof.
  unfold save_legacy, bind.
  destruct (process_row_run w p row output_col st)
    as (c & res & st1 & E1 & S1 & C1 & P1 & R1).
  rewrite E1.
  match goal with
  | |- context [store_raw_enrichment_response ?u ?r ?a st1] =>
      destruct (store_raw_run u r a st1)
        as (ea & st2 & E2 & S2 & U2 & W2 & A2 & P2 & _)
  end.
  rewrite E2.
  pose proof (audit_event_of p _ row res _ ea R1 U2 W2 A2) as HA.
  assert (HC : Forall (call_event (passes st) row) [c])
    by (constructor; [exact C1|constructor]).
  destruct (truthy (get res (lit "updated") PNone)).
  - destruct (truthy (output_table p)).
    + rewrite (proj1 R1).
      match goal with
      | |- context [write_output_table ?w ?u ?r ?t ?k ?v ?d _ ?m st2] =>
          destruct (write_output_table_run w u r t k v d m st2)
            as (r3 & ws & st3 & E3 & S3 & W3 & P3)
      end.
      rewrite E3.
      destruct (pass_of _ _ _ _ _ _ _ _ _ S1 HC S2 HA S3 W3) as [HS HB].
      destruct r3; eexists; eexists; eexists;
        (split; [reflexivity|]); (split; [exact HS|]);
        (split; [exact HB|congruence]).
    + match goal with
      | |- context [update_database ?p ?u ?r ?c ?e st2] =>
          destruct (update_database_run p u r c e st2)
            as (ws & st3 & E3 & S3 & W3 & P3)
      end.
      rewrite E3.
      destruct (pass_of _ _ _ _ _ _ _ _ _ S1 HC S2 HA S3 W3) as [HS HB].
      eexists; eexists; eexists.
      split; [reflexivity|]. split; [exact HS|].
      split; [exact HB|congruence].
  - destruct (pass_of _ _ _ _ _ _ _ _ _ S1 HC S2 HA (step_refl st2)
                (Forall_nil _)) as [HS HB].
    eexists; eexists; eexists.
    split; [reflexivity|]. split; [exact HS|].
    split; [exact HB|congruence].
Qed.

Lemma update_columns_run (p : params) (u : nat) (row : Row) (result : dict)
  (cols : list pystr) (st : state) :
  exists ws st',
    update_columns p u row result cols st = (tt, st')
    /\ step st st' ws /\ Forall (write_event u row) ws
    /\ passes st' = passes st.
Proof.
  revert st. induction cols as [|col cols IH]; intros st.
  - exists [], st. split; [reflexivity|]. split; [apply step_refl|].
    split; [constructor|reflexivity].
  - cbn [update_columns]. unfold bind.
    match goal with
    | |- context [update_database ?p ?u ?r ?c ?e st] =>
        destruct (update_database_run p u r c e st)
          as (ws1 & st1 & E1 & S1 & W1 & P1)
    end.
    rewrite E1.
    destruct (IH st1) as (ws2 & st2 & E2 & S2 & W2 & P2).
    exists (ws1 ++ ws2), st2. split; [exact E2|].
    split; [exact (step_trans _ _ _ _ _ S1 S2)|].
    split; [apply Forall_app; split; assumption|congruence].
Qed.

(** The legacy code raises before it does anything, or makes one pass. *)
Lemma legacy_run (w : world) (p : params) (row : Row) (st : state) :
  exists r evs st',
    legacy w p row st = (r, st')
    /\ step st st' evs
    /\ blocks (eq row) (passes st) (passes st') evs.
Proof.
  unfold legacy.
  assert (Hraise : forall e : exn,
             exists r evs st',
               ret (@Raise (option dict) e) st = (r, st') /\ step st st' evs
               /\ blocks (eq row) (passes st) (passes st') evs).
  { intros e. exists (Raise e), [], st. split; [reflexivity|].
    split; [apply step_refl|constructor]. }
  destruct (pystr_eqb (name p) translate_to_english_by_line).
  - unfold bind.
    destruct (process_translation_run w p row st)
      as (cs & res & st1 & E1 & S1 & C1 & P1 & R1).
    rewrite E1.
    match goal with
    | |- context [store_raw_enrichment_response ?u ?r ?a st1] =>
        destruct (store_raw_run u r a st1)
          as (ea & st2 & E2 & S2 & U2 & W2 & A2 & P2 & _)
    end.
    rewrite E2.
    pose proof (audit_event_of p _ row res _ ea R1 U2 W2 A2) as HA.
    destruct (truthy (get res (lit "updated") PNone)).
    + destruct (update_columns_run p (passes st) row res translation_columns
                  st2) as (ws & st3 & E3 & S3 & W3 & P3).
      rewrite E3.
      destruct (pass_of _ _ _ _ _ _ _ _ _ S1 C1 S2 HA S3 W3) as [HS HB].
      eexists; eexists; eexists.
      split; [reflexivity|]. split; [exact HS|].
      replace (passes st3) with (S (passes st)) by congruence.
      apply (blocks_one (eq row) _ row); [reflexivity|exact HB].
    + destruct (pass_of _ _ _ _ _ _ _ _ _ S1 C1 S2 HA (step_refl st2)
                  (Forall_nil _)) as [HS HB].
      eexists; eexists; eexists.
      split; [reflexivity|]. split; [exact HS|].
      replace (passes st2) with (S (passes st)) by congruence.
      apply (blocks_one (eq row) _ row); [reflexivity|exact HB].
  - destruct (_ && _); [apply Hraise|].
    destruct (output_cols p) as [|output_col rest]; [apply Hraise|].
    destruct (save_legacy_run w p row output_col st)
      as (r & b & st' & E & HS & HB & P).
    exists r, b, st'. split; [exact E|]. split; [exact HS|].
    rewrite P. apply (blocks_one (eq row) _ row); [reflexivity|exact HB].
Qed.

(** [process_and_save] makes one pass, or two when the schema-driven part
    falls back on the legacy code after its audit row. *)
Lemma process_and_save_run (w : world) (p : params) (row : Row)
  (st : state) :
  exists r evs st',
    process_and_save w p row st = (r, st')
    /\ step st st' evs
    /\ blocks (eq row) (passes st) (passes st') evs.
Proof.
  unfold process_and_save.
  destruct (schema_driven p) as [[strategy pydantic_model]|];
    [|apply legacy_run].
  unfold bind.
  destruct (process_row_structured_run w p pydantic_model row st)
    as (cs & res & st1 & E1 & S1 & C1 & P1 & R1).
  rewrite E1.
  match goal with
  | |- context [store_raw_enrichment_response ?u ?r ?a st1] =>
      destruct (store_raw_run u r a st1)
        as (ea & st2 & E2 & S2 & U2 & W2 & A2 & P2 & _)
  end.
  rewrite E2.
  pose proof (audit_event_of p _ row res _ ea R1 U2 W2 A2) as HA.
  (* the pass so far, and what a fall back on the legacy code adds *)
  assert (Hstop : forall (r : outcome (option dict)) (ws : list event)
                         (st3 : state),
             step st2 st3 ws -> Forall (write_event (passes st) row) ws ->
             passes st3 = passes st2 ->
             exists r' evs st',
               (r, st3) = (r', st') /\ step st st' evs
               /\ blocks (eq row) (passes st) (passes st') evs).
  { intros r ws st3 S3 W3 P3.
    destruct (pass_of _ _ _ _ _ _ _ _ _ S1 C1 S2 HA S3 W3) as [HS HB].
    exists r, (cs ++ ea :: ws), st3. split; [reflexivity|].
    split; [exact HS|].
    replace (passes st3) with (S (passes st)) by congruence.
    apply (blocks_one (eq row) _ row); [reflexivity|exact HB]. }
  assert (Hfall : forall (ws : list event) (st3 : state),
             step st2 st3 ws -> Forall (write_event (passes st) row) ws ->
             passes st3 = passes st2 ->
             exists r' evs st',
               legacy w p row st3 = (r', st') /\ step st st' evs
               /\ blocks (eq row) (passes st) (passes st') evs).
  { intros ws st3 S3 W3 P3.
    destruct (pass_of _ _ _ _ _ _ _ _ _ S1 C1 S2 HA S3 W3) as [HS HB].
    destruct (legacy_run w p row st3) as (r & evs & st' & E & S4 & B4).
    exists r, ((cs ++ ea :: ws) ++ evs), st'. split; [exact E|].
    split; [exact (step_trans _ _ _ _ _ HS S4)|].
    apply blocks_app with (mid := passes st3); [|exact B4].
    replace (passes st3) with (S (passes st)) by congruence.
    apply (blocks_one (eq row) _ row); [reflexivity|exact HB]. }
  assert (Hcolumn :
            exists r' evs st',
              match Strategy.output_columns strategy with
              | [column_name] =>
                  match get res (lit "updated") PNone with
                  | PDict d =>
                      update_database p (passes st) row (PStr column_name)
                        [ (lit "rowid", get res (lit "rowid") PNone);
                          (lit "sha1", get res (lit "sha1") PNone);
                          (lit "original", PStr []);
                          (lit "updated", get d column_name PNone) ] ;;;
                      ret (Ret (Some res))
                  | _ => legacy w p row
                  end
              | _ => ret (Ret (Some res))
              end st2 = (r', st')
              /\ step st st' evs
              /\ blocks (eq row) (passes st) (passes st') evs).
  { destruct (Strategy.output_columns strategy) as [|column_name [|c2 cols]].
    - apply (Hstop _ [] st2); [apply step_refl|constructor|reflexivity].
    - destruct (get res (lit "updated") PNone);
        try (apply (Hfall [] st2);
             [apply step_refl|constructor|reflexivity]).
      unfold bind.
      match goal with
      | |- context [update_database ?p ?u ?r ?c ?e st2] =>
          destruct (update_database_run p u r c e st2)
            as (ws & st3 & E3 & S3 & W3 & P3)
      end.
      rewrite E3. apply (Hstop _ ws st3); assumption.
    - apply (Hstop _ [] st2); [apply step_refl|constructor|reflexivity]. }
  destruct (Strategy.storage_mode strategy); [exact Hcolumn|].
  destruct (truthy (get res (lit "updated") PNone)) eqn:Etruthy;
    [|exact Hcolumn].
  destruct (get res (lit "updated") PNone) eqn:Eupd; try exact Hcolumn.
  unfold bind. rewrite (proj1 R1).
  match goal with
  | |- context [write_output_table ?w ?u ?r ?t ?k ?v ?d _ ?m st2] =>
      destruct (write_output_table_run w u r t k v d m st2)
        as (r3 & ws & st3 & E3 & S3 & W3 & P3)
  end.
  rewrite E3. destruct r3.
  - apply (Hstop _ ws st3); assumption.
  - apply (Hfall ws st3); assumption.
Qed.

Lemma gather_run (w : world) (p : params) (rows : list Row) (st : state) :
  exists r evs st',
    gather w p rows st = (r, st')
    /\ step st st' evs
    /\ blocks (fun row => In row rows) (passes st) (passes st') evs.
Proof.
  revert st. induction rows as [|row rows IH]; intros st.
  - exists (Ret []), [], st. split; [reflexivity|].
    split; [apply step_refl|constructor].
  - cbn [gather]. unfold bind.
    destruct (process_and_save_run w p row st)
      as (r1 & e1 & st1 & E1 & S1 & B1).
    rewrite E1.
    destruct (IH st1) as (r2 & e2 & st2 & E2 & S2 & B2).
    rewrite E2.
    assert (HB : blocks (fun r => In r (row :: rows)) (passes st)
                   (passes st2) (e1 ++ e2)).
    { apply blocks_app with (mid := passes st1).
      - apply (blocks_weaken (eq row)); [|exact B1].
        intros r <-. left; reflexivity.
      - apply (blocks_weaken (fun r => In r rows)); [|exact B2].
        intros r Hr. right; exact Hr. }
    pose proof (step_trans _ _ _ _ _ S1 S2) as HS.
    destruct r1 as [res1|e]; [destruct r2 as [res2|e]|];
      eexists; eexists; eexists;
      (split; [reflexivity|]); (split; [exact HS|exact HB]).
Qed.

Lemma process_batch_run (w : world) (p : params) (results : list Row)
  (st : state) :
  exists r evs st',
    process_batch w p results st = (r, st')
    /\ step st st' evs
    /\ (forall skipped,
           skipped_rows st p results = Ret skipped ->
           blocks (fun row => In row (rows_to_process skipped results))
             (passes st) (passes st') evs
           /\ forall returned,
                r = Ret returned ->
                forall record, In record skipped ->
                               In (Some record) returned)
    /\ (forall e, skipped_rows st p results = Raise e -> evs = []).
Proof.
  unfold process_batch.
  destruct (skipped_rows st p results) as [skipped|e].
  - destruct (rows_to_process skipped results) as [|row todo] eqn:Etodo.
    + exists (Ret (map Some skipped)), [], st. split; [reflexivity|].
      split; [apply step_refl|]. split; [|discriminate].
      intros sk H; injection H as <-. rewrite Etodo.
      split; [constructor|].
      intros returned H; injection H as <-.
      intros record Hrec. apply in_map. exact Hrec.
    + unfold bind.
      destruct (gather_run w p (row :: todo) st)
        as (r & evs & st' & E & HS & HB).
      rewrite E.
      destruct r as [processed|e];
        eexists; exists evs; eexists;
        (split; [reflexivity|]); (split; [exact HS|]);
        (split; [|discriminate]);
        intros sk H; injection H as <-; rewrite Etodo;
        (split; [exact HB|]); intros returned H.
      * injection H as <-. intros record Hrec.
        apply in_or_app. right. apply in_map. exact Hrec.
      * discriminate.
  - exists (Raise e), [], st. split; [reflexivity|].
    split; [apply step_refl|]. split; [discriminate|reflexivity].
Qed.

(** *** What a sequence of passes guarantees *)

Lemma pass_block_rows (u : nat) (row : Row) (b : list event) :
  pass_block u row b -> Forall (fun e => ev_pass e = u /\ ev_row e = row) b.
Proof.
  intros [cs ea ws C A W]. apply Forall_app. split.
  - eapply Forall_impl; [|exact C]. intros e (H1 & H2 & _); auto.
  - constructor.
    + destruct A as (H1 & H2 & _); auto.
    + eapply Forall_impl; [|exact W]. intros e (H1 & H2 & _); auto.
Qed.

Lemma pass_block_audits (u : nat) (row : Row) (b : list event) :
  pass_block u row b ->
  exists a, audits_of b = [a] /\ sha1 a = sha1_of row
            /\ enrichment_id a = uuid u.
Proof.
  intros [cs ea ws C A W]. destruct A as (_ & _ & a & Ha & Hs & Hi).
  exists a. split; [|auto].
  rewrite audits_of_app, (audits_of_calls _ _ _ C).
  change (audits_of (ea :: ws))
    with (match ev_action ea with AuditAppend a => [a] | _ => [] end
          ++ audits_of ws).
  now rewrite Ha, (audits_of_writes _ _ _ W).
Qed.

Lemma blocks_le (among : Row -> Prop) (lo hi : nat) (evs : list event) :
  blocks among lo hi evs -> lo <= hi.
Proof. induction 1; lia. Qed.

Lemma blocks_rows (among : Row -> Prop) (lo hi : nat) (evs : list event) :
  blocks among lo hi evs ->
  Forall (fun e => among (ev_row e) /\ lo <= ev_pass e < hi) evs.
Proof.
  induction 1 as [u|u hi row b rest Hrow Hb Hrest IH]; [constructor|].
  pose proof (blocks_le _ _ _ _ Hrest) as Hle.
  apply Forall_app. split.
  - eapply Forall_impl; [|exact (pass_block_rows _ _ _ Hb)].
    intros e [-> ->]. split; [exact Hrow|lia].
  - eapply Forall_impl; [|exact IH]. intros e [? ?]. split; [auto|lia].
Qed.

Lemma blocks_audits (among : Row -> Prop) (lo hi : nat) (evs : list event) :
  blocks among lo hi evs ->
  Forall (fun a => exists row, among row /\ sha1 a = sha1_of row)
    (audits_of evs).
Proof.
  induction 1 as [u|u hi row b rest Hrow Hb Hrest IH]; [constructor|].
  rewrite audits_of_app.
  destruct (pass_block_audits _ _ _ Hb) as (a & -> & Hs & _).
  constructor; [exists row; auto|exact IH].
Qed.

Lemma not_call_and_write (e : event) :
  is_call e = true -> is_write e = true -> False.
Proof.
  unfold is_call, is_write. destruct (ev_action e); discriminate.
Qed.

(** Within a pass, a write comes after the audit row of the pass. *)
Lemma pass_block_order (u : nat) (row : Row) (b pre post : list event)
  (e : event) :
  pass_block u row b -> b = pre ++ e :: post -> is_write e = true ->
  audited_in pre e.
Proof.
  intros [cs ea ws C A W] Heq Hw.
  assert (He : ev_pass e = u /\ ev_row e = row).
  { pose proof (pass_block_rows u row _ (PassBlock C A W)) as F.
    rewrite Heq in F. apply Forall_app in F. destruct F as [_ F].
    inversion F; auto. }
  destruct He as [Hu Hrow].
  apply app_eq_app in Heq. destruct Heq as (l & [[H1 H2] | [H1 H2]]).
  - (* cs = pre ++ l, and e :: post = l ++ ea :: ws *)
    destruct l as [|x l]; cbn in H2.
    + injection H2 as <- _. destruct A as (_ & _ & a & Ha & _).
      unfold is_write in Hw. rewrite Ha in Hw. discriminate.
    + injection H2 as <- _. subst cs. apply Forall_app in C.
      destruct C as [_ C]. inversion C as [|? ? (_ & _ & Hc) _]; subst.
      destruct (not_call_and_write _ Hc Hw).
  - (* pre = cs ++ l, and ea :: ws = l ++ e :: post *)
    destruct l as [|x l]; cbn in H2.
    + injection H2 as -> _. destruct A as (_ & _ & a & Ha & _).
      unfold is_write in Hw. rewrite Ha in Hw. discriminate.
    + injection H2 as <- _. destruct A as (Au & Ar & a & Ha & _ & Hi).
      exists ea, a. subst pre. split; [apply in_or_app; right; left; auto|].
      split; [exact Ha|]. split; [congruence|]. split; [congruence|].
      rewrite Hu. exact Hi.
Qed.

Lemma audited_in_more (l pre : list event) (e : event) :
  audited_in pre e -> audited_in (l ++ pre) e.
Proof.
  intros (e' & a & Hin & H). exists e', a. split; [|exact H].
  apply in_or_app; right; exact Hin.
Qed.

Lemma audited_in_less (pre l : list event) (e : event) :
  audited_in pre e -> audited_in (pre ++ l) e.
Proof.
  intros (e' & a & Hin & H). exists e', a. split; [|exact H].
  apply in_or_app; left; exact Hin.
Qed.

(** Every event of a pass has the audit row of the pass. *)
Lemma pass_block_audited (u : nat) (row : Row) (b : list event) :
  pass_block u row b -> forall e, In e b -> audited_in b e.
Proof.
  intros Hb e He.
  pose proof (pass_block_rows u row b Hb) as F.
  rewrite Forall_forall in F. destruct (F e He) as [Hu Hr].
  destruct Hb as [cs ea ws C A W].
  destruct A as (Hu' & Hr' & a & Ha & _ & Hi).
  exists ea, a. split; [apply in_or_app; right; left; reflexivity|].
  rewrite Hu, Hr. auto.
Qed.

Lemma blocks_audited (among : Row -> Prop) (lo hi : nat)
  (evs : list event) :
  blocks among lo hi evs -> forall e, In e evs -> audited_in evs e.
Proof.
  induction 1 as [u|u hi row b rest Hrow Hb Hrest IH]; intros e He.
  - destruct He.
  - apply in_app_or in He. destruct He as [He|He].
    + apply audited_in_less. exact (pass_block_audited u row b Hb e He).
    + apply audited_in_more. exact (IH e He).
Qed.

(** The audit row of a pass precedes every projected write of the pass. *)
Lemma blocks_order (among : Row -> Prop) (lo hi : nat) (evs : list event) :
  blocks among lo hi evs ->
  forall pre e post,
    evs = pre ++ e :: post -> is_write e = true -> audited_in pre e.
Proof.
  induction 1 as [u|u hi row b rest Hrow Hb Hrest IH]; intros pre e post Heq Hw.
  - destruct pre; discriminate.
  - apply app_eq_app in Heq. destruct Heq as (l & [[H1 H2] | [H1 H2]]).
    + (* b = pre ++ l, and e :: post = l ++ rest *)
      destruct l as [|x l]; cbn in H2.
      * destruct (IH [] e post (eq_sym H2) Hw) as (e' & a & [] & _).
      * injection H2 as <- ->.
        exact (pass_block_order _ _ _ _ _ _ Hb H1 Hw).
    + (* pre = b ++ l, and rest = l ++ e :: post *)
      subst pre. apply audited_in_more. exact (IH l e post H2 Hw).
Qed.

Lemma filter_none {A : Type} (f : A -> bool) (l : list A) :
  Forall (fun x => f x = false) l -> filter f l = [].
Proof.
  induction 1 as [|x l Hx _ IH]; cbn; [reflexivity|]. now rewrite Hx.
Qed.

Lemma pass_block_one_audit (u : nat) (row : Row) (b : list event) :
  pass_block u row b -> List.length (filter (audit_of_pass u) b) = 1.
Proof.
  intros [cs ea ws C A W]. rewrite filter_app. cbn [filter].
  rewrite (filter_none (audit_of_pass u) cs).
  - rewrite (filter_none (audit_of_pass u) ws).
    + destruct A as (Hu & _ & a & Ha & _).
      unfold audit_of_pass, is_audit, in_pass. rewrite Ha, Hu, Nat.eqb_refl.
      reflexivity.
    + eapply Forall_impl; [|exact W]. intros e (_ & _ & Hw & _).
      unfold audit_of_pass, is_audit. unfold is_write in Hw.
      destruct (ev_action e); try discriminate; reflexivity.
  - eapply Forall_impl; [|exact C]. intros e (_ & _ & Hc).
    unfold audit_of_pass, is_audit. unfold is_call in Hc.
    destruct (ev_action e); try discriminate; reflexivity.
Qed.

(** Every pass appends exactly one audit row. *)
Lemma blocks_one_audit (among : Row -> Prop) (lo hi : nat)
  (evs : list event) :
  blocks among lo hi evs ->
  forall u, lo <= u < hi ->
            List.length (filter (audit_of_pass u) evs) = 1.
Proof.
  induction 1 as [v|v hi row b rest Hrow Hb Hrest IH]; intros u Hu; [lia|].
  rewrite filter_app, length_app.
  destruct (Nat.eq_dec u v) as [->|Hne].
  - rewrite (pass_block_one_audit _ _ _ Hb).
    rewrite (filter_none (audit_of_pass v) rest); [reflexivity|].
    eapply Forall_impl; [|exact (blocks_rows _ _ _ _ Hrest)].
    intros e [_ Hr]. unfold audit_of_pass, in_pass.
    destruct (Nat.eqb_spec (ev_pass e) v); [lia|apply andb_false_r].
  - rewrite (filter_none (audit_of_pass u) b).
    + apply IH. lia.
    + eapply Forall_impl; [|exact (pass_block_rows _ _ _ Hb)].
      intros e [He _]. unfold audit_of_pass, in_pass.
      destruct (Nat.eqb_spec (ev_pass e) u); [congruence|apply andb_false_r].
Qed.

Lemma uuid_injective (u v : nat) : uuid u = uuid v -> u = v.
Proof.
  unfold uuid. intros H. injection H as H. lia.
Qed.

(** *** The skip decision *)

Lemma skipped_by_audit_in (st : state) (p : params) (results : list Row)
  (row : Row) :
  In row results -> audit_skipped st p row = true ->
  In (skip_record row already_msg) (skipped_by_audit (audit st) p results).
Proof.
  intros Hin Hs. unfold skipped_by_audit. apply in_flat_map.
  exists row. split; [exact Hin|]. unfold audit_skipped in Hs.
  rewrite Hs. left; reflexivity.
Qed.

Lemma skipped_by_audit_sha1s (st : state) (p : params) (results : list Row)
  (s : pystr) :
  in_values (PStr s) (sha1s_of (skipped_by_audit (audit st) p results)) = true ->
  negb (pystr_eqb s NO_SHA1) && already_processed (audit st) s (name p) (model p)
  = true.
Proof.
  unfold in_values, sha1s_of. rewrite existsb_exists.
  intros (v & Hv & Heq). apply in_map_iff in Hv.
  destruct Hv as (r & <- & Hr). unfold skipped_by_audit in Hr.
  apply in_flat_map in Hr. destruct Hr as (row & _ & Hr).
  destruct (negb (pystr_eqb (sha1_of row) NO_SHA1)
            && already_processed (audit st) (sha1_of row) (name p) (model p))
    eqn:E; [|destruct Hr].
  destruct Hr as [<-|[]]. cbn in Heq. apply pystr_eqb_eq in Heq.
  subst s. exact E.
Qed.

Lemma id_of_skip_record (row : Row) (original : pyval) :
  id_of (skip_record row original) = row_id row.
Proof. reflexivity. Qed.

Lemma row_id_eqb_refl (row : Row) :
  pyval_eqb (fst (row_id row)) (fst (row_id row))
  && pyval_eqb (snd (row_id row)) (snd (row_id row)) = true.
Proof.
  unfold row_id, rowid_or, row_get. cbn.
  destruct (row_rowid row); cbn; rewrite ?Z.eqb_refl, pystr_eqb_refl;
    reflexivity.
Qed.

(** A row with a skip record is not processed. *)
Lemma skipped_row_not_processed (skipped : list dict) (results : list Row)
  (row : Row) (original : pyval) :
  In (skip_record row original) skipped ->
  ~ In row (rows_to_process skipped results).
Proof.
  intros Hrec Hin. unfold rows_to_process in Hin.
  apply filter_In in Hin. destruct Hin as [_ Hf].
  apply negb_true_iff in Hf.
  assert (in_ids (row_id row) (map id_of skipped) = true); [|congruence].
  unfold in_ids. apply existsb_exists. exists (row_id row). split.
  - rewrite <- (id_of_skip_record row original). apply in_map. exact Hrec.
  - apply row_id_eqb_refl.
Qed.

Lemma rows_to_process_in (skipped : list dict) (results : list Row)
  (row : Row) :
  In row (rows_to_process skipped results) -> In row results.
Proof. unfold rows_to_process. intros H. apply filter_In in H. tauto. Qed.

(** Without [overwrite], the rows skipped on the audit table are among
    the skipped rows. *)
Lemma skipped_rows_by_audit (st : state) (p : params) (results : list Row)
  (skipped : list dict) (record : dict) :
  overwrite p = false ->
  skipped_rows st p results = Ret skipped ->
  In record (skipped_by_audit (audit st) p results) ->
  In record skipped.
Proof.
  unfold skipped_rows. intros -> H Hin.
  destruct (truthy (output_table p)).
  - injection H as <-. apply in_or_app; left; exact Hin.
  - destruct (skipped_by_column p _ results); [|discriminate].
    injection H as <-. apply in_or_app; left; exact Hin.
Qed.

(** C1.  Without [overwrite], a row whose sha1 has a record in the audit
    table for the enrichment and the model is returned as skipped, and the
    run makes no provider call, appends no audit row and makes no
    projected write for a row with that sha1. *)
Theorem audited_row_is_skipped (w : world) (p : params)
  (results : list Row) (st : state) (row : Row)
  (Hoverwrite : overwrite p = false)
  (Hrow : In row results)
  (Hsha1 : sha1_of row <> NO_SHA1)
  (Haudit :
     already_processed (audit st) (sha1_of row) (name p) (model p) = true) :
  exists evs,
    trace (snd (process_batch w p results st)) = trace st ++ evs
    /\ audit (snd (process_batch w p results st))
       = audit st ++ audits_of evs
    /\ Forall (fun e => sha1_of (ev_row e) <> sha1_of row) evs
    /\ Forall (fun a => sha1 a <> sha1_of row) (audits_of evs)
    /\ forall returned,
         fst (process_batch w p results st) = Ret returned ->
         In (Some (skip_record row already_msg)) returned.
Proof.
  assert (Hskip : forall row', In row' results ->
                               sha1_of row' = sha1_of row ->
                               audit_skipped st p row' = true).
  { intros row' _ Heq. unfold audit_skipped. rewrite Heq, Haudit.
    apply pystr_eqb_neq in Hsha1. now rewrite Hsha1. }
  destruct (process_batch_run w p results st)
    as (r & evs & st' & E & [HT HA] & Hok & Hraise).
  rewrite E. cbn [fst snd]. exists evs.
  split; [exact HT|]. split; [exact HA|].
  destruct (skipped_rows st p results) as [skipped|e] eqn:Esk.
  - destruct (Hok skipped eq_refl) as [HB Hret].
    assert (Hother : forall row',
               In row' (rows_to_process skipped results) ->
               sha1_of row' <> sha1_of row).
    { intros row' Hin Heq.
      pose proof (rows_to_process_in _ _ _ Hin) as Hin'.
      apply (skipped_row_not_processed skipped results row' already_msg);
        [|exact Hin].
      apply (skipped_rows_by_audit st p results); auto.
      apply skipped_by_audit_in; auto. }
    split; [|split].
    + eapply Forall_impl; [|exact (blocks_rows _ _ _ _ HB)].
      intros e [He _]. apply Hother. exact He.
    + eapply Forall_impl; [|exact (blocks_audits _ _ _ _ HB)].
      intros a (row' & Hin & ->). apply Hother. exact Hin.
    + intros returned Hr. apply (Hret returned Hr).
      apply (skipped_rows_by_audit st p results); auto.
      apply skipped_by_audit_in; auto.
  - rewrite (Hraise e eq_refl). cbn.
    split; [constructor|]. split; [constructor|].
    unfold process_batch in E. rewrite Esk in E. injection E as <- _.
    intros; discriminate.
Qed.

(** Without [overwrite], a row is returned as skipped, and nothing is
    done for it, whether or not the audit table has a record: with an
    output table, when the table has a row for the key of the row, and for
    the model if the table has a [model_used] column; without one, when
    the column that the first entry of the argument [output_cols] names
    is truthy in the row. *)
Theorem row_with_output_is_skipped (w : world) (p : params)
  (results : list Row) (st : state) (row : Row)
  (Hoverwrite : overwrite p = false)
  (Hrow : In row results)
  (Houtput :
     (truthy (output_table p) = true
      /\ exists t,
           find_table (output_tables st) (output_table p) = Some t
           /\ existsb
                (key_matches (key_column p) (row_get row (key_column p) NO_KEY)
                   (has_column t "model_used") (model p))
                (rows t) = true)
     \/ (truthy (output_table p) = false
         /\ exists output_col rest,
              output_cols p = output_col :: rest
              /\ truthy (row_get_val row output_col) = true)) :
  exists evs,
    trace (snd (process_batch w p results st)) = trace st ++ evs
    /\ audit (snd (process_batch w p results st))
       = audit st ++ audits_of evs
    /\ Forall (fun e => ev_row e <> row) evs
    /\ forall returned,
         fst (process_batch w p results st) = Ret returned ->
         exists original, In (Some (skip_record row original)) returned.
Proof.
  assert (Hsk : exists skipped original,
             skipped_rows st p results = Ret skipped
             /\ In (skip_record row original) skipped).
  { unfold skipped_rows. rewrite Hoverwrite.
    destruct (audit_skipped st p row) eqn:Eas.
    - (* already skipped on the audit table *)
      pose proof (skipped_by_audit_in st p results row Hrow Eas) as Hin.
      destruct (truthy (output_table p)) eqn:Et.
      + eexists; exists already_msg. split; [reflexivity|].
        apply in_or_app; left; exact Hin.
      + destruct Houtput as [[H _]|(_ & c & rest & Hc & _)]; [congruence|].
        unfold skipped_by_column. rewrite Hc.
        destruct results as [|r0 results']; [destruct Hrow|].
        eexists; exists already_msg. split; [reflexivity|].
        apply in_or_app; left; exact Hin.
    - (* skipped on the output location *)
      assert (Hnot : in_values (PStr (sha1_of row))
                       (sha1s_of (skipped_by_audit (audit st) p results))
                     = false).
      { destruct (in_values _ _) eqn:E; [|reflexivity].
        apply skipped_by_audit_sha1s in E. unfold audit_skipped in Eas.
        congruence. }
      destruct Houtput as [(Ht & t & Hfind & Hex)|(Ht & c & rest & Hc & Hv)];
        rewrite Ht.
      + eexists; eexists. split; [reflexivity|].
        apply in_or_app; right.
        unfold skipped_by_output_table. rewrite Hfind.
        apply in_flat_map. exists row. split; [exact Hrow|].
        rewrite Hnot, Hex. left; reflexivity.
      + unfold skipped_by_column. rewrite Hc.
        destruct results as [|r0 results']; [destruct Hrow|].
        eexists; eexists. split; [reflexivity|].
        apply in_or_app; right.
        apply in_flat_map. exists row. split; [exact Hrow|].
        rewrite Hnot, Hv. left; reflexivity. }
  destruct Hsk as (skipped & original & Esk & Hrec).
  destruct (process_batch_run w p results st)
    as (r & evs & st' & E & [HT HA] & Hok & _).
  rewrite E. cbn [fst snd]. exists evs.
  split; [exact HT|]. split; [exact HA|].
  destruct (Hok skipped Esk) as [HB Hret]. split.
  - eapply Forall_impl; [|exact (blocks_rows _ _ _ _ HB)].
    intros e [He _] Heq. rewrite Heq in He.
    exact (skipped_row_not_processed skipped results row original Hrec He).
  - intros returned Hr. exists original. exact (Hret returned Hr _ Hrec).
Qed.

(** The enrichment id given to a write of a pass is the id of the pass. *)
Lemma pass_block_written_id (u : nat) (row : Row) (b : list event) :
  pass_block u row b ->
  forall e i, In e b -> written_id e = Some i ->
              i = uuid (ev_pass e).
Proof.
  intros [cs ea ws C A W] e i He Hi.
  apply in_app_or in He. destruct He as [He|[<-|He]].
  - rewrite Forall_forall in C. destruct (C e He) as (_ & _ & Hc).
    unfold is_call in Hc. unfold written_id in Hi.
    destruct (ev_action e); discriminate.
  - destruct A as (_ & _ & a & Ha & _). unfold written_id in Hi.
    rewrite Ha in Hi. discriminate.
  - rewrite Forall_forall in W. destruct (W e He) as (Hu & _ & _ & Hid).
    rewrite Hu. exact (Hid i Hi).
Qed.

Lemma blocks_written_id (among : Row -> Prop) (lo hi : nat)
  (evs : list event) :
  blocks among lo hi evs ->
  forall e i, In e evs -> written_id e = Some i ->
              i = uuid (ev_pass e).
Proof.
  induction 1 as [u|u hi row b rest Hrow Hb Hrest IH]; intros e i He Hi.
  - destruct He.
  - apply in_app_or in He. destruct He as [He|He].
    + exact (pass_block_written_id u row b Hb e i He Hi).
    + exact (IH e i He Hi).
Qed.

(** C2, as amended.  In every run, each pass over a row (one enrichment
    id, one or more provider calls) appends exactly one audit row, which
    carries the enrichment id of the pass; every projected write comes
    after the audit row of its pass; and the enrichment id that a write to
    an output table is given, which [update_output_table] stores with the
    data, is the enrichment id of that audit row. *)
Theorem one_audit_row_per_pass_before_its_writes (w : world) (p : params)
  (results : list Row) (st : state) :
  exists evs,
    trace (snd (process_batch w p results st)) = trace st ++ evs
    /\ audit (snd (process_batch w p results st))
       = audit st ++ audits_of evs
    /\ (forall e, In e evs ->
                  audited_in evs e
                  /\ List.length (filter (audit_of_pass (ev_pass e)) evs) = 1)
    /\ (forall pre e post,
           evs = pre ++ e :: post -> is_write e = true ->
           exists e' a,
             In e' pre /\ ev_action e' = AuditAppend a
             /\ ev_pass e' = ev_pass e /\ ev_row e' = ev_row e
             /\ enrichment_id a = uuid (ev_pass e)
             /\ forall i, written_id e = Some i -> i = enrichment_id a).
Proof.
  destruct (process_batch_run w p results st)
    as (r & evs & st' & E & [HT HA] & Hok & Hraise).
  rewrite E. cbn [fst snd]. exists evs.
  split; [exact HT|]. split; [exact HA|].
  destruct (skipped_rows st p results) as [skipped|e] eqn:Esk.
  - destruct (Hok skipped eq_refl) as [HB _]. split.
    + intros e He. split; [exact (blocks_audited _ _ _ _ HB e He)|].
      apply (blocks_one_audit _ _ _ _ HB).
      pose proof (blocks_rows _ _ _ _ HB) as F.
      rewrite Forall_forall in F. apply (F e He).
    + intros pre e post Heq Hw.
      destruct (blocks_order _ _ _ _ HB pre e post Heq Hw)
        as (e' & a & Hin & Ha & Hu & Hrow & Hid).
      exists e', a. repeat (split; [assumption|]).
      intros i Hi. rewrite Hid.
      apply (blocks_written_id _ _ _ _ HB e i); [|exact Hi].
      rewrite Heq. apply in_or_app; right; left; reflexivity.
  - rewrite (Hraise e eq_refl). split.
    + intros e0 [].
    + intros pre e0 post H. destruct pre; discriminate.
Qed.

(** The enrichment of the first scenario has an audit row for document A
    after the first run. *)
Lemma audited_row_is_skipped_witness :
  exists evs,
    trace (snd (process_batch positive (task sentiment_config)
                  [doc_a; doc_b; doc_c] after_first_run))
    = trace after_first_run ++ evs
    /\ audit (snd (process_batch positive (task sentiment_config)
                     [doc_a; doc_b; doc_c] after_first_run))
       = audit after_first_run ++ audits_of evs
    /\ Forall (fun e => sha1_of (ev_row e) <> sha1_of doc_a) evs
    /\ Forall (fun a => sha1 a <> sha1_of doc_a) (audits_of evs)
    /\ forall returned,
         fst (process_batch positive (task sentiment_config)
                [doc_a; doc_b; doc_c] after_first_run) = Ret returned ->
         In (Some (skip_record doc_a already_msg)) returned.
Proof.
  apply (audited_row_is_skipped positive (task sentiment_config)
           [doc_a; doc_b; doc_c] after_first_run doc_a).
  - reflexivity.
  - left; reflexivity.
  - vm_compute; discriminate.
  - vm_compute; reflexivity.
Defined.

(** Document D has a value in the output column that the configuration
    names, and no audit row. *)
Lemma row_with_output_is_skipped_witness :
  exists evs,
    trace (snd (process_batch positive (task sentiment_column_config)
                  [doc_d] fresh))
    = trace fresh ++ evs
    /\ audit (snd (process_batch positive (task sentiment_column_config)
                     [doc_d] fresh))
       = audit fresh ++ audits_of evs
    /\ Forall (fun e => ev_row e <> doc_d) evs
    /\ forall returned,
         fst (process_batch positive (task sentiment_column_config)
                [doc_d] fresh) = Ret returned ->
         exists original, In (Some (skip_record doc_d original)) returned.
Proof.
  apply (row_with_output_is_skipped positive (task sentiment_column_config)
           [doc_d] fresh doc_d).
  - reflexivity.
  - left; reflexivity.
  - right. split; [reflexivity|].
    exists (PStr (lit "sentiment")), []. split; reflexivity.
Defined.

(** The first scenario: three passes of one call, one audit row and one
    write each; the second run adds nothing and returns three skip
    records. *)
Example simple_enum_append :
  map mark_of (trace after_first_run)
  = [ (0, Call structured); (0, Audit); (0, Written);
      (1, Call structured); (1, Audit); (1, Written);
      (2, Call structured); (2, Audit); (2, Written) ]
  /\ process_batch positive (task sentiment_config) [doc_a; doc_b; doc_c]
       after_first_run
     = (Ret [ Some (skip_record doc_a already_msg);
              Some (skip_record doc_b already_msg);
              Some (skip_record doc_c already_msg) ],
        after_first_run).
Proof. split; vm_compute; reflexivity. Qed.

(** C2, as stated, fails.  When the first answer of the provider fails the
    language validation and the second passes, the pass makes two provider
    calls and appends one audit row: the calls and the audit rows are not
    one to one. *)
Lemma retried_calls_share_one_audit_row :
  map mark_of (trace (snd retry_run))
  = [ (0, Call structured); (0, Call structured); (0, Audit); (0, Written) ]
  /\ List.length (filter is_call (trace (snd retry_run))) = 2
  /\ List.length (filter is_audit (trace (snd retry_run))) = 1
  /\ List.length (filter is_audit (trace (snd retry_run)))
     <> List.length (filter is_call (trace (snd retry_run))).
Proof.
  repeat split; try (vm_compute; reflexivity).
  vm_compute. discriminate.
Qed.

(** [process_row_structured] itself stops after three provider calls. *)
Lemma attempts_calls (w : world) (reqs : Lang.requirements) (u : nat)
  (row : Row) (fp : pystr) (todo : list nat) (st : state) :
  calls (snd (attempts w reqs u row fp todo st))
  <= calls st + List.length todo.
Proof.
  revert st; induction todo as [|attempt todo IH]; intros st;
    cbn [attempts List.length].
  - cbn. lia.
  - unfold bind, provider_call.
    destruct (checked_reply w reqs (calls st)) as [d|[msg|msg|msg]];
      try (cbn [ret snd calls]; lia).
    destruct (Nat.ltb attempt max_retries); [|cbn [ret snd calls]; lia].
    match goal with |- calls (snd (attempts _ _ _ _ _ _ ?s)) <= _ =>
      specialize (IH s) end.
    cbn [calls] in IH. lia.
Qed.

Lemma process_row_structured_calls (w : world) (p : params)
  (pydantic_model : Strategy.DynamicModel) (row : Row) (st : state) :
  calls (snd (process_row_structured w p pydantic_model row st))
  <= calls st + 3.
Proof.
  unfold process_row_structured, bind, fresh_pass.
  destruct (prompt_parts w row) as [templated_prompt input_text].
  match goal with |- context [attempts ?w ?r ?u ?row ?fp ?todo ?s] =>
    pose proof (attempts_calls w r u row fp todo s) as H;
    destruct (attempts w r u row fp todo s) as [res st'] end.
  cbn in *. exact H.
Qed.

(** C5.  The run of the fourth scenario when every answer lacks Chinese
    text, in direct column mode: after the third attempt and the audit row
    of the pass, the schema-driven code raises on the [updated] that is
    [None], and the legacy code makes a fourth provider call and appends a
    second audit row; what is returned for the row is the result of the
    legacy pass, which has no [raw_json].  A provider that raises is called
    a second time in the same way. *)
Theorem exhausted_retries_fall_back_to_legacy_pass :
  map mark_of (trace (snd exhausted_run))
  = [ (0, Call structured); (0, Call structured); (0, Call structured);
      (0, Audit); (1, Call text); (1, Audit) ]
  /\ List.length (audit (snd exhausted_run)) = 2
  /\ (exists result,
         fst exhausted_run = Ret [Some result]
         /\ get result (lit "enrichment_id") PNone = uuid 1
         /\ get result (lit "updated") (PStr (lit "absent")) = PNone
         /\ has_key result (lit "raw_json") = false)
  /\ map mark_of (trace (snd provider_down_run))
     = [ (0, Call structured); (0, Audit); (1, Call text); (1, Audit) ].
Proof.
  split; [vm_compute; reflexivity|].
  split; [vm_compute; reflexivity|].
  split; [|vm_compute; reflexivity].
  eexists. split; [vm_compute; reflexivity|].
  repeat split; vm_compute; reflexivity.
Qed.

(** In an output table, data that is all null-like is not written. *)
Lemma update_output_table_null_like (current_time : pyval) (ts ts' : tables)
  (output_table : pyval) (key_column : pystr) (key_value : pyval)
  (output_data : dict) (enrichment_id : pyval) (model_used : pystr)
  (how : upsert) :
  forallb (fun cv => is_null_like (snd cv)) output_data = true ->
  update_output_table current_time ts output_table key_column key_value
    output_data enrichment_id model_used = Ret (how, ts') ->
  how = NoMeaningfulData.
Proof.
  intros Hnull. unfold update_output_table.
  assert (Hc : cleaned_data output_data = []).
  { unfold cleaned_data. apply filter_none.
    rewrite forallb_forall in Hnull. apply Forall_forall.
    intros cv Hin. now rewrite (Hnull cv Hin). }
  rewrite Hc.
  destruct output_table; try discriminate.
  destruct (find_table ts _); [|discriminate].
  destruct (negb _); [discriminate|].
  intros H; injection H as <- _. reflexivity.
Qed.

Lemma write_output_table_null_like (w : world) (u : nat) (row : Row)
  (output_table : pyval) (key_column : pystr) (key_value : pyval)
  (output_data : dict) (enrichment_id : pyval) (model_used : pystr)
  (st : state) :
  forallb (fun cv => is_null_like (snd cv)) output_data = true ->
  trace (snd (write_output_table w u row output_table key_column key_value
                output_data enrichment_id model_used st))
  = trace st.
Proof.
  intros Hnull. unfold write_output_table.
  destruct (update_output_table _ _ _ _ _ _ _ _) as [[how ts']|e] eqn:E;
    [|reflexivity].
  apply update_output_table_null_like in E; [|exact Hnull].
  subst how. reflexivity.
Qed.

(** C9.  In direct column mode there is no such test: when the provider
    returns the empty string for the single field of the schema, the run
    appends the audit row and then updates the column of the source table
    with the empty string. *)
Theorem empty_value_is_written_to_source_column :
  map mark_of (trace (snd empty_summary_run))
  = [ (0, Call structured); (0, Audit); (0, Written) ]
  /\ filter is_write (trace (snd empty_summary_run))
     = [ {| ev_pass := 0;
            ev_row := doc_a;
            ev_action :=
              ColumnUpdate (PStr (lit "documents")) (PStr (lit "summary"))
                (lit "sha1") (PStr (lit "aaaa")) (PStr []) |} ]
  /\ is_null_like (PStr []) = true.
Proof. repeat split; vm_compute; reflexivity. Qed.

(** C10 on the code.  In direct column mode the test for existing data
    is on [output_cols[0]], which [process_enrichment] takes from the
    [output_column] entry of the configuration, and not on the column
    that the run writes, the output column of the strategy.  For a
    configuration with a schema and no [output_column] entry it is
    [None]: document D, whose [sentiment] column holds [neutral] and which
    has no audit record, is not skipped without [overwrite]; the provider
    is called and the column is overwritten with [positive]. *)
Theorem row_with_data_is_processed_again :
  overwrite (task sentiment_config) = false
  /\ output_table (task sentiment_config) = PNone
  /\ output_cols (task sentiment_config) = [PNone]
  /\ option_map Strategy.output_columns
       (enrichment_strategy (task sentiment_config))
     = Some [lit "sentiment"]
  /\ row_get doc_d (lit "sentiment") PNone = PStr (lit "neutral")
  /\ audit fresh = []
  /\ skipped_rows fresh (task sentiment_config) [doc_d] = Ret []
  /\ map mark_of (trace (snd MoreScenarios.schema_only_run))
     = [ (0, Call structured); (0, Audit); (0, Written) ]
  /\ filter is_write (trace (snd MoreScenarios.schema_only_run))
     = [ {| ev_pass := 0;
            ev_row := doc_d;
            ev_action :=
              ColumnUpdate (PStr (lit "documents")) (PStr (lit "sentiment"))
                (lit "sha1") (PStr (lit "dddd")) (PStr (lit "positive")) |} ].
Proof. repeat split; vm_compute; reflexivity. Qed.

(** C3 on the code.  The structured path stores an enum list as the
    provider returned it.  The reply [a, b, a] to the second scenario
    passes the type that [yaml_to_pydantic_type] builds (three items, all
    allowed), where the law of the specification stores [a, b]; the audit
    row holds the reply with its duplicate, and so does the row that
    [update_output_table] inserts, as the JSON text of the list. *)
Theorem enum_list_is_stored_with_duplicates :
  EnumList.pydantic_accepts
    [lit "a"; lit "b"; lit "c"; lit "d"] (Some 1%Z) (Some 3%Z)
    MoreScenarios.a_b_a = true
  /\ EnumList.enum_list_law
       [lit "a"; lit "b"; lit "c"; lit "d"] (Some 1%Z) (Some 3%Z)
       MoreScenarios.a_b_a = inr [lit "a"; lit "b"]
  /\ map mark_of (trace (snd MoreScenarios.repeated_topics_run))
     = [ (0, Call structured); (0, Audit); (0, Written) ]
  /\ map raw_json (audit (snd MoreScenarios.repeated_topics_run))
     = [ PJson (PDict [(lit "topics",
                        PList [PStr (lit "a"); PStr (lit "b");
                               PStr (lit "a")])]) ]
  /\ filter is_write (trace (snd MoreScenarios.repeated_topics_run))
     = [ {| ev_pass := 0;
            ev_row := doc_a;
            ev_action :=
              OutputTableWrite (PStr (lit "labels")) (lit "sha1")
                (PStr (lit "aaaa")) Inserted
                [(lit "topics",
                  PJson (PList [PStr (lit "a"); PStr (lit "b");
                                PStr (lit "a")]))]
                (uuid 0) |} ]
  /\ option_map
       (fun t => map (fun r => get r (lit "topics") PNone) (rows t))
       (find_table (output_tables (snd MoreScenarios.repeated_topics_run))
          (PStr (lit "labels")))
     = Some [ PJson (PList [PStr (lit "a"); PStr (lit "b");
                            PStr (lit "a")]) ].
Proof. repeat split; vm_compute; reflexivity. Qed.

End EngineFacts.

(* ================================================================== *)
(** * Further properties *)
(* ================================================================== *)

Module LangLaws.

Import Lang Text PyFacts LangFacts.
Local Open Scope N_scope.

Section Languages.

Variable repr : pyval -> pystr.

Lemma validate_fields_iff (instance : dict) (reqs : list (pystr * pyval)) :
  validate_fields repr instance reqs = Ret tt <->
  forall field expected_lang,
    In (field, expected_lang) reqs ->
    get instance field PNone <> PNone ->
    check_value repr (get instance field PNone) expected_lang = Ret true.
Proof.
  induction reqs as [|[f l] reqs IH]; cbn [validate_fields].
  - split; [intros _ ? ? []|reflexivity].
  - assert (Hcons : (forall field expected_lang,
                        In (field, expected_lang) ((f, l) :: reqs) ->
                        get instance field PNone <> PNone ->
                        check_value repr (get instance field PNone)
                          expected_lang = Ret true)
                    <-> ((get instance f PNone <> PNone ->
                          check_value repr (get instance f PNone) l = Ret true)
                         /\ forall field expected_lang,
                             In (field, expected_lang) reqs ->
                             get instance field PNone <> PNone ->
                             check_value repr (get instance field PNone)
                               expected_lang = Ret true)).
    { split.
      - intros H. split; [apply H; left; reflexivity|].
        intros ? ? Hin. apply H. right; exact Hin.
      - intros [H1 H2] ? ? [E|Hin]; [injection E as <- <-; exact H1|].
        apply H2; exact Hin. }
    rewrite Hcons. clear Hcons.
    destruct (get instance f PNone) eqn:E;
      try (destruct (check_value repr _ l) as [[|]|e] eqn:C;
           [ rewrite IH; split; [intros H; split; [reflexivity|exact H]|tauto]
           | split; [discriminate|intros [H _]; specialize (H ltac:(discriminate)); discriminate]
           | split; [discriminate|intros [H _]; specialize (H ltac:(discriminate)); discriminate] ]).
    rewrite IH. split; [intros H; split; [congruence|exact H]|tauto].
Qed.

Lemma validate_items_iff (field : pystr) (expected_lang : pyval) (i : nat)
  (items : list pyval) :
  validate_items repr field expected_lang i items = Ret tt <->
  forall item, In item items -> item <> PNone ->
               check_value repr item expected_lang = Ret true.
Proof.
  revert i. induction items as [|item items IH]; intros i;
    cbn [validate_items].
  - split; [intros _ ? []|reflexivity].
  - assert (Hcons : (forall x, In x (item :: items) -> x <> PNone ->
                                check_value repr x expected_lang = Ret true)
                    <-> ((item <> PNone ->
                          check_value repr item expected_lang = Ret true)
                         /\ forall x, In x items -> x <> PNone ->
                                      check_value repr x expected_lang
                                      = Ret true)).
    { split.
      - intros H. split; [apply H; left; reflexivity|].
        intros ? Hin. apply H. right; exact Hin.
      - intros [H1 H2] ? [<-|Hin]; [exact H1|]. apply H2; exact Hin. }
    rewrite Hcons. clear Hcons.
    destruct item;
      try (destruct (check_value repr _ expected_lang) as [[|]|e] eqn:C;
           [ rewrite IH; split; [intros H; split; [reflexivity|exact H]|tauto]
           | split; [discriminate|intros [H _]; specialize (H ltac:(discriminate)); discriminate]
           | split; [discriminate|intros [H _]; specialize (H ltac:(discriminate)); discriminate] ]).
    rewrite IH. split; [intros H; split; [congruence|exact H]|tauto].
Qed.

Lemma validate_arrays_iff (instance : dict) (reqs : list (pystr * pyval)) :
  validate_arrays repr instance reqs = Ret tt <->
  forall field expected_lang items,
    In (field, expected_lang) reqs ->
    get instance field PNone = PList items ->
    forall item, In item items -> item <> PNone ->
                 check_value repr item expected_lang = Ret true.
Proof.
  induction reqs as [|[f l] reqs IH]; cbn [validate_arrays].
  - split; [intros _ ? ? ? []|reflexivity].
  - assert (Hcons : (forall field expected_lang items,
                        In (field, expected_lang) ((f, l) :: reqs) ->
                        get instance field PNone = PList items ->
                        forall item, In item items -> item <> PNone ->
                                     check_value repr item expected_lang
                                     = Ret true)
                    <-> ((forall items,
                             get instance f PNone = PList items ->
                             forall item, In item items -> item <> PNone ->
                                          check_value repr item l = Ret true)
                         /\ forall field expected_lang items,
                             In (field, expected_lang) reqs ->
                             get instance field PNone = PList items ->
                             forall item, In item items -> item <> PNone ->
                                          check_value repr item expected_lang
                                          = Ret true)).
    { split.
      - intros H. split; [intros items; apply H; left; reflexivity|].
        intros ? ? ? Hin. apply H. right; exact Hin.
      - intros [H1 H2] ? ? ? [E|Hin];
          [injection E as <- <-; apply H1|apply H2; exact Hin]. }
    rewrite Hcons. clear Hcons.
    destruct (get instance f PNone) eqn:E;
      try (rewrite IH; split; [intros H; split; [discriminate|exact H]|tauto]).
    destruct (validate_items repr f l 0 l0) as [[]|e] eqn:V.
    + pose proof (proj1 (validate_items_iff f l 0 l0) V) as V'. rewrite IH. split.
      * intros H. split; [|exact H]. intros items Hi; injection Hi as <-. exact V'.
      * tauto.
    + split; [discriminate|]. intros [H _].
      assert (V' : validate_items repr f l 0 l0 = Ret tt)
        by (apply validate_items_iff; exact (H l0 eq_refl)).
      congruence.
Qed.

(** X1.  [validate_languages] accepts an instance exactly when every field that
    has a language requirement and is not [None] passes
    [validate_language], and so does every item other than [None] of every
    list field that has a requirement on its items. *)
Theorem validate_languages_accepts_iff (r : requirements) (instance : dict) :
  validate_languages repr r instance = Ret tt <->
  (forall field expected_lang,
      In (field, expected_lang) (language_requirements r) ->
      get instance field PNone <> PNone ->
      check_value repr (get instance field PNone) expected_lang = Ret true)
  /\ (forall field expected_lang items,
         In (field, expected_lang) (array_language_requirements r) ->
         get instance field PNone = PList items ->
         forall item, In item items -> item <> PNone ->
                      check_value repr item expected_lang = Ret true).
Proof.
  unfold validate_languages.
  rewrite <- validate_fields_iff, <- validate_arrays_iff.
  destruct (validate_fields repr instance (language_requirements r))
    as [[]|e].
  - tauto.
  - split; [discriminate|]. intros [H _]; discriminate.
Qed.

End Languages.

(** X2.  No character up to U+2000 counts as a hanzi: a text made of such
    characters only, if it is not empty, fails [lang: zh] and passes
    [lang: en]. *)
Theorem text_below_u2000_is_not_chinese (v : pystr)
  (Hnonempty : v <> []) (Hbelow : forallb (fun c => c <=? 0x2000) v = true) :
  validate_language v zh = false /\ validate_language v en = true.
Proof.
  assert (Hplain : forallb plain_char v = true).
  { rewrite forallb_forall in *. intros c Hc. unfold plain_char.
    now rewrite (Hbelow c Hc). }
  assert (Hno : contains_hanzi v = false).
  { rewrite (contains_hanzi_plain v Hplain).
    destruct (existsb spec_cjk_ideograph v) eqn:E; [|reflexivity].
    apply existsb_exists in E. destruct E as (c & Hc & Hs).
    rewrite forallb_forall in Hbelow. specialize (Hbelow c Hc).
    unfold spec_cjk_ideograph in Hs.
    rewrite ?orb_true_iff, ?andb_true_iff, ?N.leb_le in *. lia. }
  destruct v as [|c v]; [contradiction|].
  rewrite validate_language_zh, validate_language_en, Hno. split; reflexivity.
Qed.

Lemma text_below_u2000_is_not_chinese_witness :
  validate_language (lit "Hello world") zh = false
  /\ validate_language (lit "Hello world") en = true.
Proof.
  apply (text_below_u2000_is_not_chinese (lit "Hello world")).
  - discriminate.
  - reflexivity.
Defined.

End LangLaws.

Module EnumLaws.

Import Enum Text PyFacts.
Local Open Scope N_scope.

Lemma lstrip_all (cls : N -> bool) (a b : pystr) :
  forallb cls a = true -> lstrip cls (a ++ b) = lstrip cls b.
Proof.
  induction a as [|c a IH]; cbn; [reflexivity|].
  intros H. apply andb_true_iff in H. destruct H as [Hc Ha].
  now rewrite Hc, IH.
Qed.

Lemma lstrip_length (cls : N -> bool) (s : pystr) :
  (List.length (lstrip cls s) <= List.length s)%nat.
Proof.
  induction s as [|c s IH]; cbn; [lia|]. destruct (cls c); cbn; lia.
Qed.

(** Text that [lstrip] leaves as it is starts with a character that is
    not of the class, and stays as it is with more text after it. *)
Lemma lstrip_fixed_app (cls : N -> bool) (s b : pystr) :
  lstrip cls s = s -> s <> [] -> lstrip cls (s ++ b) = s ++ b.
Proof.
  destruct s as [|c s]; [congruence|]. cbn. intros H _.
  destruct (cls c); [|reflexivity].
  pose proof (lstrip_length cls s) as L. rewrite H in L. cbn in L. lia.
Qed.

Lemma lstrip_only (cls : N -> bool) (a : pystr) :
  forallb cls a = true -> lstrip cls a = [].
Proof.
  intros H. rewrite <- (app_nil_r a). now rewrite lstrip_all.
Qed.

Lemma forallb_rev {A : Type} (f : A -> bool) (l : list A) :
  forallb f (rev l) = forallb f l.
Proof.
  induction l as [|x l IH]; cbn; [reflexivity|].
  rewrite forallb_app, IH. cbn. rewrite andb_true_r. apply andb_comm.
Qed.

(** Padding with characters of the class is stripped away. *)
Lemma strip_chars_padded (cls : N -> bool) (a s b : pystr) :
  forallb cls a = true -> forallb cls b = true -> bare cls s ->
  strip_chars cls (a ++ s ++ b) = s.
Proof.
  intros Ha Hb [Hl Hr]. unfold strip_chars, rstrip in *.
  rewrite lstrip_all by exact Ha.
  destruct s as [|c s].
  - cbn [app]. rewrite (lstrip_only cls b Hb). reflexivity.
  - rewrite lstrip_fixed_app by (auto; discriminate).
    rewrite rev_app_distr, lstrip_all by (now rewrite forallb_rev).
    exact Hr.
Qed.

Lemma quote_not_space (c : N) : is_quote c = true -> isspace c = false.
Proof.
  unfold is_quote. intros H. apply orb_true_iff in H.
  destruct H as [H|H]; apply N.eqb_eq in H; subst c; reflexivity.
Qed.

Lemma lstrip_head (cls : N -> bool) (c : N) (s : pystr) :
  cls c = false -> lstrip cls (c :: s) = c :: s.
Proof. intros H. cbn. now rewrite H. Qed.

Lemma lstrip_fixed_head (cls : N -> bool) (c : N) (s : pystr) :
  lstrip cls (c :: s) = c :: s -> cls c = false.
Proof.
  cbn. destruct (cls c) eqn:E; [|reflexivity]. intros H.
  pose proof (lstrip_length cls s) as L. rewrite H in L. cbn in L. lia.
Qed.

(** Bare text wrapped in quotation marks neither starts nor ends with
    white space. *)
Lemma lstrip_space_quoted (q s q' : pystr) :
  forallb is_quote q = true -> forallb is_quote q' = true ->
  lstrip isspace s = s ->
  lstrip isspace (q ++ s ++ q') = q ++ s ++ q'.
Proof.
  intros Hq Hq' Hs.
  destruct q as [|c q].
  - cbn [app]. destruct s as [|c s].
    + cbn [app]. destruct q' as [|c q']; [reflexivity|].
      apply lstrip_head, quote_not_space.
      cbn in Hq'. now apply andb_true_iff in Hq'.
    + apply lstrip_fixed_app; [exact Hs|discriminate].
  - cbn [app]. apply lstrip_head, quote_not_space.
    cbn in Hq. now apply andb_true_iff in Hq.
Qed.

Lemma rstrip_rev (cls : N -> bool) (s : pystr) :
  rstrip cls s = s <-> lstrip cls (rev s) = rev s.
Proof.
  unfold rstrip. split; intros H.
  - rewrite <- H at 2. now rewrite rev_involutive.
  - rewrite H. apply rev_involutive.
Qed.

Lemma bare_space_quoted (q s q' : pystr) :
  forallb is_quote q = true -> forallb is_quote q' = true ->
  bare isspace s -> bare isspace (q ++ s ++ q').
Proof.
  intros Hq Hq' [Hl Hr]. split.
  - now apply lstrip_space_quoted.
  - apply rstrip_rev. rewrite !rev_app_distr, <- app_assoc.
    apply lstrip_space_quoted; try (now rewrite forallb_rev).
    now apply rstrip_rev.
Qed.

(** X3.  A reply wrapped in white space and, inside it, in quotation
    marks is cleaned to the text between them, provided that text itself
    neither starts nor ends with white space or a quotation mark; so the
    wrapped reply gets the verdict of the bare one. *)
Theorem validate_response_ignores_wrapping
    (m : EnumSchemaManager) (ws q s q' ws' : pystr)
    (Hws : forallb isspace (ws ++ ws') = true)
    (Hq : forallb is_quote (q ++ q') = true)
    (Hspace : bare isspace s)
    (Hquote : bare is_quote s) :
  clean (ws ++ (q ++ s ++ q') ++ ws') = s /\
  validate_response m (ws ++ (q ++ s ++ q') ++ ws') = validate_response m s.
Proof.
  rewrite forallb_app in Hws, Hq.
  apply andb_true_iff in Hws. destruct Hws as [Hws Hws'].
  apply andb_true_iff in Hq. destruct Hq as [Hq Hq'].
  assert (Hclean : forall a b c d,
             forallb isspace a = true -> forallb isspace d = true ->
             forallb is_quote b = true -> forallb is_quote c = true ->
             clean (a ++ (b ++ s ++ c) ++ d) = s).
  { intros a b c d Ha Hd Hb Hc. unfold clean.
    rewrite strip_chars_padded by (auto using bare_space_quoted).
    now apply strip_chars_padded. }
  split; [now apply Hclean|].
  unfold validate_response.
  rewrite (Hclean ws q q' ws') by assumption.
  replace (clean s) with s; [reflexivity|].
  symmetry. specialize (Hclean [] [] [] [] eq_refl eq_refl eq_refl eq_refl).
  cbn [app] in Hclean. now rewrite !app_nil_r in Hclean.
Qed.

Lemma validate_response_ignores_wrapping_witness :
  clean (lit "  " ++ (lit "'" ++ lit "positive" ++ lit "'") ++ [10])
  = lit "positive" /\
  validate_response sentiment_choices
    (lit "  " ++ (lit "'" ++ lit "positive" ++ lit "'") ++ [10])
  = validate_response sentiment_choices (lit "positive").
Proof.
  apply (validate_response_ignores_wrapping sentiment_choices
           (lit "  ") (lit "'") (lit "positive") (lit "'") [10]);
    [reflexivity | reflexivity | split; reflexivity | split; reflexivity].
Defined.

Lemma enum_mem_In (x : pystr) (l : list pystr) :
  EnumList.mem x l = true -> In x l.
Proof.
  unfold EnumList.mem. intros H. apply existsb_exists in H.
  destruct H as [y [Hy E]]. apply pystr_eqb_eq in E. now subst.
Qed.

Lemma original_case_in (cs lowered : list pystr) (item c : pystr) :
  EnumList.original_case cs lowered item = Some c -> In c cs.
Proof.
  revert lowered. induction cs as [|c0 cs IH]; intros [|l lowered]; cbn;
    try discriminate.
  destruct (pystr_eqb l item).
  - intros [= ->]. now left.
  - intros H. right. eauto.
Qed.

Lemma original_case_lowered (cs : list pystr) (item c : pystr) :
  EnumList.original_case cs (map lower cs) item = Some c ->
  lower c = item.
Proof.
  induction cs as [|c0 cs IH]; cbn; [discriminate|].
  destruct (pystr_eqb (lower c0) item) eqn:E.
  - intros [= <-]. now apply pystr_eqb_eq.
  - exact IH.
Qed.

Lemma original_case_found (cs : list pystr) (item : pystr) :
  In item (map lower cs) ->
  exists c, EnumList.original_case cs (map lower cs) item = Some c.
Proof.
  induction cs as [|c0 cs IH]; cbn; [tauto|].
  destruct (pystr_eqb (lower c0) item) eqn:E; [eauto|].
  intros [H|H]; [|auto].
  rewrite <- H, pystr_eqb_refl in E. discriminate.
Qed.

(** X4.  The verdict of the single-choice check. An accepted reply is
    one of the choices; with case sensitivity it is the cleaned reply
    itself, without it a choice that is the cleaned reply up to case.  A
    rejected reply, once cleaned (and lowered when case is ignored), is
    none of the choices (lowered); the rejection carries the cleaned
    reply. *)
Theorem validate_response_verdict
    (m : EnumSchemaManager) (response : pystr)
    (Hcase : case_sensitive m = true
             \/ ascii (clean response) && forallb ascii (choices m) = true) :
  match validate_response m response with
  | Accepted value =>
      In value (choices m) /\
      (if case_sensitive m then value = clean response
       else lower value = lower (clean response))
  | NotAChoice cleaned_response =>
      cleaned_response = clean response /\
      (if case_sensitive m then ~ In (clean response) (choices m)
       else ~ In (lower (clean response)) (map lower (choices m)))
  end.
Proof.
  clear Hcase. unfold validate_response.
  destruct (case_sensitive m).
  - destruct (EnumList.mem (clean response) (choices m)) eqn:E.
    + split; [now apply enum_mem_In|reflexivity].
    + split; [reflexivity|]. intros H.
      assert (EnumList.mem (clean response) (choices m) = true); [|congruence].
      unfold EnumList.mem. apply existsb_exists. exists (clean response).
      split; [exact H|apply pystr_eqb_refl].
  - destruct (EnumList.mem (lower (clean response)) (map lower (choices m)))
      eqn:E.
    + destruct (original_case_found (choices m) (lower (clean response))
                  (enum_mem_In _ _ E)) as [c Hc].
      rewrite Hc. split.
      * eapply original_case_in; eauto.
      * eapply original_case_lowered; eauto.
    + split; [reflexivity|]. intros H.
      assert (EnumList.mem (lower (clean response)) (map lower (choices m))
              = true); [|congruence].
      unfold EnumList.mem. apply existsb_exists. eexists.
      split; [exact H|apply pystr_eqb_refl].
Qed.

Lemma validate_response_verdict_witness :
  match validate_response sentiment_choices (lit " 'positive' ") with
  | Accepted value =>
      In value (choices sentiment_choices) /\
      (if case_sensitive sentiment_choices
       then value = clean (lit " 'positive' ")
       else lower value = lower (clean (lit " 'positive' ")))
  | NotAChoice cleaned_response =>
      cleaned_response = clean (lit " 'positive' ") /\
      (if case_sensitive sentiment_choices
       then ~ In (clean (lit " 'positive' ")) (choices sentiment_choices)
       else ~ In (lower (clean (lit " 'positive' ")))
                 (map lower (choices sentiment_choices)))
  end.
Proof.
  apply (validate_response_verdict sentiment_choices (lit " 'positive' ")).
  right. reflexivity.
Defined.

End EnumLaws.

Module EnumListLaws.

Import EnumList Text PyFacts EnumListFacts Scenarios EnumListNotions.

Lemma mem_In (x : pystr) (l : list pystr) : mem x l = true <-> In x l.
Proof.
  unfold mem. rewrite existsb_exists. split.
  - intros (y & Hy & E). apply pystr_eqb_eq in E. now subst.
  - intros H. exists x. split; [exact H|apply pystr_eqb_refl].
Qed.

Lemma original_case_some (cs : list pystr) (f : pystr -> pystr)
  (k c : pystr) :
  original_case cs (map f cs) k = Some c -> In c cs /\ f c = k.
Proof.
  induction cs as [|x cs IH]; cbn; [discriminate|].
  destruct (pystr_eqb (f x) k) eqn:E.
  - intros H; injection H as <-. apply pystr_eqb_eq in E. auto.
  - intros H. destruct (IH H). auto.
Qed.


Lemma validate_each_cons (m : EnumListSchemaManager) (x : pystr)
  (xs v : list pystr) :
  validate_each m (checked m) (x :: xs) = inr v ->
  exists c v', v = c ++ v'
               /\ validate_each m (checked m) [x] = inr c
               /\ validate_each m (checked m) xs = inr v'.
Proof.
  cbn [validate_each].
  destruct (mem _ (checked m)); [|discriminate].
  destruct (validate_each m (checked m) xs) as [r|v']; [discriminate|].
  destruct (case_sensitive m).
  - intros H; injection H as <-. exists [x], v'. auto.
  - destruct (original_case _ _ _) as [c|].
    + intros H; injection H as <-. exists [c], v'. auto.
    + intros H; injection H as <-. exists [], v'. auto.
Qed.

Lemma validate_each_one (m : EnumListSchemaManager) (x : pystr)
  (c : list pystr) :
  validate_each m (checked m) [x] = inr c ->
  Forall (settled m) c /\ (case_sensitive m = true -> c = [x]).
Proof.
  unfold settled, checked. cbn [validate_each].
  destruct (case_sensitive m) eqn:Hcs.
  - destruct (mem x (choices m)) eqn:Hm; [|discriminate].
    intros H; injection H as <-. split; [|reflexivity].
    constructor; [|constructor]. split; [now apply mem_In|].
    now rewrite Hm.
  - destruct (mem (lower x) (map lower (choices m))) eqn:Hm; [|discriminate].
    destruct (original_case _ _ _) as [c0|] eqn:Ho.
    + intros H; injection H as <-. split; [|discriminate].
      destruct (original_case_some _ _ _ _ Ho) as [Hin Hl].
      constructor; [|constructor]. split; [exact Hin|].
      now rewrite Hl, Hm, Ho.
    + intros H; injection H as <-. split; [constructor|discriminate].
Qed.

Lemma validate_each_settled (m : EnumListSchemaManager)
  (xs v : list pystr) :
  validate_each m (checked m) xs = inr v ->
  Forall (settled m) v /\ (case_sensitive m = true -> v = xs).
Proof.
  revert v. induction xs as [|x xs IH]; intros v H.
  - injection H as <-. split; [constructor|reflexivity].
  - destruct (validate_each_cons m x xs v H) as (c & v' & -> & Hc & Hv).
    destruct (validate_each_one m x c Hc) as [F1 E1].
    destruct (IH v' Hv) as [F2 E2]. split.
    + apply Forall_app; auto.
    + intros Hcs. now rewrite (E1 Hcs), (E2 Hcs).
Qed.

Lemma validate_each_fixed (m : EnumListSchemaManager) (v : list pystr) :
  Forall (settled m) v -> validate_each m (checked m) v = inr v.
Proof.
  induction 1 as [|c v [_ Hc] _ IH]; [reflexivity|].
  cbn [validate_each] in *. rewrite IH.
  destruct (mem _ (checked m)); [|discriminate].
  destruct (case_sensitive m); [reflexivity|].
  destruct (original_case _ _ _); injection Hc as Hc; [now subst|discriminate].
Qed.

Lemma deduplicate_sound (seen xs : list pystr) :
  NoDup (deduplicate seen xs)
  /\ forall y, In y (deduplicate seen xs) -> In y xs /\ mem y seen = false.
Proof.
  revert seen. induction xs as [|x xs IH]; intros seen; cbn.
  - split; [constructor|intros ? []].
  - destruct (mem x seen) eqn:E.
    + destruct (IH seen) as [N S]. split; [exact N|].
      intros y Hy. destruct (S y Hy). auto.
    + destruct (IH (x :: seen)) as [N S]. split.
      * constructor; [|exact N]. intros Hin. destruct (S x Hin) as [_ Hm].
        rewrite mem_cons, pystr_eqb_refl in Hm. discriminate.
      * intros y [<-|Hy]; [auto|]. destruct (S y Hy) as [Hin Hm].
        rewrite mem_cons in Hm. apply orb_false_iff in Hm. tauto.
Qed.

Lemma deduplicate_fixed (seen xs : list pystr) :
  NoDup xs -> (forall y, In y xs -> mem y seen = false) ->
  deduplicate seen xs = xs.
Proof.
  intros N. revert seen. induction N as [|x xs Hx N IH]; intros seen H; cbn.
  - reflexivity.
  - rewrite (H x (or_introl eq_refl)). f_equal. apply IH.
    intros y Hy. rewrite mem_cons, (H y (or_intror Hy)), orb_false_r.
    apply pystr_eqb_neq. intros ->. contradiction.
Qed.

(** The list after the optional deduplication. *)
Lemma validate_response_inr (m : EnumListSchemaManager)
  (xs items : list pystr) :
  validate_response m xs = inr items ->
  exists v,
    validate_each m (checked m) xs = inr v
    /\ items = (if unique_items m then deduplicate [] v else v)
    /\ (bound_set (min_items m)
        && (Z.of_nat (List.length items) <? bound_value (min_items m))%Z
        = false)
    /\ (bound_set (max_items m)
        && (bound_value (max_items m) <? Z.of_nat (List.length items))%Z
        = false).
Proof.
  unfold validate_response. fold (checked m).
  destruct (validate_each m (checked m) xs) as [r|v]; [discriminate|].
  cbv zeta.
  destruct (bound_set (min_items m) && _) eqn:Hlo; [discriminate|].
  destruct (bound_set (max_items m) && _) eqn:Hhi; [discriminate|].
  intros H; injection H as <-. exists v. auto.
Qed.

(** X5.  What [validate_response] returns when it accepts a reply: items that
    are choices (and items of the reply, when the matching is
    case-sensitive), each once unless [unique_items] is off, at least
    [min_items] of them, and at most [max_items] unless that is [None] or
    0. *)
Theorem validate_response_accepted (m : EnumListSchemaManager)
  (xs items : list pystr)
  (Hcase : case_sensitive m = true
           \/ forallb ascii (choices m ++ xs) = true)
  (Haccepted : validate_response m xs = inr items) :
  (forall x, In x items -> In x (choices m))
  /\ (case_sensitive m = true -> forall x, In x items -> In x xs)
  /\ (unique_items m = true -> NoDup items)
  /\ (forall lo, min_items m = Some lo ->
                 (lo <= Z.of_nat (List.length items))%Z)
  /\ (forall hi, max_items m = Some hi -> hi <> 0%Z ->
                 (Z.of_nat (List.length items) <= hi)%Z).
Proof.
  destruct (validate_response_inr m xs items Haccepted)
    as (v & Hv & Hitems & Hlo & Hhi).
  destruct (validate_each_settled m xs v Hv) as [F E].
  rewrite Forall_forall in F.
  assert (Hsub : forall x, In x items -> In x v).
  { subst items. destruct (unique_items m); [|auto].
    intros x Hx. now apply (deduplicate_sound [] v). }
  split; [intros x Hx; exact (proj1 (F x (Hsub x Hx)))|].
  split; [intros Hcs x Hx; rewrite <- (E Hcs); auto|].
  split.
  { intros Hu. subst items. rewrite Hu. apply (deduplicate_sound [] v). }
  split.
  - intros lo Hm. rewrite Hm in Hlo. cbn in Hlo.
    destruct (Z.eqb_spec lo 0); cbn in Hlo; [lia|].
    apply Z.ltb_ge in Hlo. exact Hlo.
  - intros hi Hm Hnz. rewrite Hm in Hhi. cbn in Hhi.
    destruct (Z.eqb_spec hi 0); [contradiction|]. cbn in Hhi.
    apply Z.ltb_ge in Hhi. exact Hhi.
Qed.

Lemma validate_response_accepted_witness :
  (forall x, In x [lit "a"; lit "b"] -> In x (choices topics))
  /\ (case_sensitive topics = true ->
      forall x, In x [lit "a"; lit "b"] ->
                In x [lit "a"; lit "b"; lit "a"; lit "b"])
  /\ (unique_items topics = true -> NoDup [lit "a"; lit "b"])
  /\ (forall lo, min_items topics = Some lo ->
                 (lo <= Z.of_nat (List.length [lit "a"; lit "b"]))%Z)
  /\ (forall hi, max_items topics = Some hi -> hi <> 0%Z ->
                 (Z.of_nat (List.length [lit "a"; lit "b"]) <= hi)%Z).
Proof.
  apply (validate_response_accepted topics
           [lit "a"; lit "b"; lit "a"; lit "b"] [lit "a"; lit "b"]).
  - left; reflexivity.
  - reflexivity.
Defined.

(** X6.  What [validate_response] accepts, it accepts again and returns
    unchanged. *)
Theorem validate_response_fixed_point (m : EnumListSchemaManager)
  (xs items : list pystr)
  (Hcase : case_sensitive m = true
           \/ forallb ascii (choices m ++ xs) = true)
  (Haccepted : validate_response m xs = inr items) :
  validate_response m items = inr items.
Proof.
  destruct (validate_response_inr m xs items Haccepted)
    as (v & Hv & Hitems & Hlo & Hhi).
  destruct (validate_each_settled m xs v Hv) as [F _].
  assert (Fi : Forall (settled m) items).
  { subst items. destruct (unique_items m); [|exact F].
    rewrite Forall_forall in *. intros x Hx. apply F.
    now apply (deduplicate_sound [] v). }
  assert (Hd : (if unique_items m then deduplicate [] items else items)
               = items).
  { destruct (unique_items m); [|reflexivity].
    apply deduplicate_fixed; [|reflexivity].
    subst items. apply (deduplicate_sound [] v). }
  unfold validate_response. fold (checked m).
  rewrite (validate_each_fixed m items Fi). cbv zeta.
  rewrite Hd, Hlo, Hhi. reflexivity.
Qed.

Lemma validate_response_fixed_point_witness :
  validate_response topics [lit "a"; lit "b"] = inr [lit "a"; lit "b"].
Proof.
  apply (validate_response_fixed_point topics
           [lit "a"; lit "b"; lit "a"; lit "b"] [lit "a"; lit "b"]).
  - left; reflexivity.
  - reflexivity.
Defined.

End EnumListLaws.

Module TokensLaws.

Import Tokens PyFacts TokensFacts.
Local Open Scope Z_scope.

Lemma len_nonneg (s : pystr) : 0 <= len s.
Proof. unfold len. lia. Qed.

Lemma len_slice_to (s : pystr) (n : Z) :
  0 <= n -> len (slice_to s n) <= n /\ len (slice_to s n) <= len s.
Proof.
  intros Hn. unfold slice_to, len.
  destruct (Z.leb_spec 0 n); [|lia].
  rewrite length_firstn. lia.
Qed.

(** X7.  [truncate_input_for_model] of llm_operations.py keeps the beginning of
    the input; it reports a truncation exactly when the two estimates
    together exceed the budget, and returns the input as it is otherwise;
    and when the prompt alone is within the budget, the estimates of the
    prompt and of the returned input together are within it. *)
Theorem truncate_input_for_model_fits
  (full_prompt input_text model : pystr) (safety_margin : Z) :
  let budget := context_limit model - safety_margin in
  let result :=
    truncate_input_for_model full_prompt input_text model safety_margin in
  (exists dropped, input_text = fst result ++ dropped)
  /\ (snd result = false <->
      estimate_tokens full_prompt + estimate_tokens input_text <= budget)
  /\ (snd result = false -> fst result = input_text)
  /\ (estimate_tokens full_prompt <= budget ->
      estimate_tokens full_prompt + estimate_tokens (fst result) <= budget).
Proof.
  cbv zeta. split; [apply truncate_input_for_model_prefix|].
  unfold truncate_input_for_model.
  set (budget := context_limit model - safety_margin).
  destruct (Z.leb_spec (estimate_tokens full_prompt
                        + estimate_tokens input_text) budget) as [Hfit|Hover].
  - cbn. repeat split; auto.
  - destruct (Z.leb_spec (budget - estimate_tokens full_prompt) 0)
      as [Hnone|Hsome].
    + cbn [fst snd]. split; [split; [discriminate|lia]|].
      split; [discriminate|].
      intros Hp. replace (estimate_tokens []) with 0 by reflexivity. lia.
    + cbn [fst snd]. split; [split; [discriminate|lia]|].
      split; [discriminate|]. intros _.
      set (chars := (budget - estimate_tokens full_prompt) * 4).
      set (cut := slice_to input_text chars).
      assert (Hcut : len cut <= chars)
        by (apply len_slice_to; unfold chars; lia).
      assert (Hle : forall t, len t <= len cut ->
                              estimate_tokens full_prompt + estimate_tokens t
                              <= budget).
      { intros t Ht. unfold estimate_tokens at 2.
        assert (len t / 4 <= budget - estimate_tokens full_prompt); [|lia].
        apply Z.div_le_upper_bound; unfold chars in *; lia. }
      destruct (len cut <? len input_text); [|apply Hle; lia].
      destruct (4 * chars <? 5 * rfind_space cut) eqn:Hsp;
        [|apply Hle; lia].
      apply Hle. apply len_slice_to.
      apply Z.ltb_lt in Hsp. unfold chars in Hsp. lia.
Qed.

End TokensLaws.

Module TokenUtilsLaws.

Import Tokens PyFacts TokensFacts.
Local Open Scope Z_scope.

(** [str.replace] leaves the text as it is, or puts [new] somewhere. *)
Lemma replace_go_first (old new s : pystr) :
  replace_go old new 0 s = s
  \/ exists before rest, replace_go old new 0 s = before ++ new ++ rest.
Proof.
  induction s as [|c s IH]; cbn [replace_go]; [left; reflexivity|].
  destruct (starts_with old (c :: s)).
  - right. exists [], (replace_go old new (List.length old - 1) s).
    reflexivity.
  - destruct IH as [->|(before & rest & ->)]; [left; reflexivity|].
    right. exists (c :: before), rest. reflexivity.
Qed.

(** X8.  [truncate_input_for_model] of llm/token_utils.py returns the prompt it
    was given, or a prompt with the marker; it reports no truncation only
    when it returns the prompt it was given. *)
Theorem token_utils_truncation_is_marked
  (full_prompt input_text model : pystr) (safety_margin : Z) :
  let result :=
    token_utils_truncate_input_for_model full_prompt input_text model
      safety_margin in
  (fst result = full_prompt \/ contains TRUNCATED (fst result) = true)
  /\ (snd result = false -> fst result = full_prompt)
  /\ (estimate_tokens full_prompt <= context_limit model - safety_margin ->
      result = (full_prompt, false)).
Proof.
  cbv zeta. unfold token_utils_truncate_input_for_model.
  destruct (estimate_tokens full_prompt <=? context_limit model - safety_margin)
    eqn:Efit.
  { cbn. auto. }
  split; [|split; [|intros H; apply Z.leb_le in H; congruence]].
  - set (available := context_limit model - safety_margin
                      - estimate_tokens (replace input_text [] full_prompt)).
    destruct (available <=? 0) eqn:Enone; [left; reflexivity|].
    destruct (available * 4 <? len input_text) eqn:Ecut;
      [|left; reflexivity].
    cbn [fst].
    destruct input_text as [|c input_text].
    { apply Z.ltb_lt in Ecut. apply Z.leb_gt in Enone.
      unfold len in Ecut. cbn in Ecut. lia. }
    set (truncated := slice_to (c :: input_text) (available * 4)
                      ++ lit "... [TRUNCATED]").
    change (replace (c :: input_text) truncated full_prompt)
      with (replace_go (c :: input_text) truncated 0 full_prompt).
    destruct (replace_go_first (c :: input_text) truncated full_prompt)
      as [->|(before & rest & ->)]; [left; reflexivity|].
    right. unfold truncated.
    replace (before ++ (slice_to (c :: input_text) (available * 4)
                        ++ lit "... [TRUNCATED]") ++ rest)
      with ((before ++ slice_to (c :: input_text) (available * 4)
             ++ lit "... ") ++ TRUNCATED ++ rest)
      by (rewrite <- !app_assoc; reflexivity).
    apply contains_app_l. apply contains_app_r. reflexivity.
  - destruct (_ <=? 0); [discriminate|].
    destruct (_ <? len input_text); [discriminate|reflexivity].
Qed.

End TokenUtilsLaws.

Module StrategyLaws.

Import Strategy Scenarios MoreScenarios.

Section Resolved.

Variable enum_builds : list pyval -> bool.
Variable create_model_builds : dict -> bool.

Lemma create_pydantic_model_from_schema_fields (schema : pyval)
  (m : DynamicModel) :
  create_pydantic_model_from_schema enum_builds create_model_builds schema
  = Ret m ->
  exists field definition fields,
    schema = PDict ((field, definition) :: fields)
    /\ model_fields m = field :: keys fields.
Proof.
  unfold create_pydantic_model_from_schema.
  destruct schema as [ | | | | |[|[field definition] fields]| ];
    try discriminate.
  destruct (forallb _ _); [|discriminate].
  destruct (create_model_builds _); [|discriminate].
  intros H; injection H as <-. exists field, definition, fields.
  split; reflexivity.
Qed.

(** X9.  What every resolved strategy satisfies: it carries a model whose
    fields are its output columns, of which there is at least one; in
    [direct_column] mode there is exactly one output column and no output
    table; in [separate_table] mode the output table is the one that the
    configuration names. *)
Theorem resolved_strategy_invariants (enrichment_config : dict)
  (default_table : pystr) (s : EnrichmentStrategy)
  (Hresolved :
     determine_enrichment_strategy enum_builds create_model_builds
       enrichment_config default_table = Ret s) :
  (exists m, pydantic_model s = Some m
             /\ model_fields m = output_columns s)
  /\ output_columns s <> []
  /\ schema_dict s = get enrichment_config (lit "schema") PNone
  /\ (storage_mode s = direct_column ->
      output_table s = PNone
      /\ truthy (get enrichment_config (lit "output_table") PNone) = false
      /\ exists field, output_columns s = [field])
  /\ (storage_mode s = separate_table ->
      output_table s = get enrichment_config (lit "output_table") PNone
      /\ truthy (output_table s) = true).
Proof.
  revert Hresolved. unfold determine_enrichment_strategy.
  set (schema := get enrichment_config (lit "schema") PNone).
  set (table := get enrichment_config (lit "output_table") PNone).
  destruct (negb _); [discriminate|].
  destruct (get enrichment_config (lit "input") (PDict []));
    try discriminate.
  destruct (is_complex _ && negb _) eqn:Hc; [discriminate|].
  destruct (negb (name_is_text enrichment_config)); [discriminate|].
  destruct (create_pydantic_model_from_schema _ _ _) as [m|e] eqn:Hm;
    [|discriminate].
  destruct (negb (sql_types_build enrichment_config schema));
    [discriminate|].
  destruct (create_pydantic_model_from_schema_fields _ m Hm)
    as (field & definition & fields & Hs & Hf).
  intros H; injection H as <-.
  cbn [pydantic_model output_columns schema_dict storage_mode output_table].
  rewrite Hs in *.
  cbn [analyze_schema_complexity field_names is_complex keys map fst
       List.length Nat.ltb Nat.leb] in *.
  split; [exists m; split; [reflexivity|exact Hf]|].
  split; [discriminate|]. split; [reflexivity|].
  destruct (truthy table) eqn:Ht.
  - split; [discriminate|]. intros _. split; [reflexivity|exact Ht].
  - split; [|discriminate]. intros _. split; [reflexivity|].
    split; [reflexivity|].
    rewrite andb_true_r in Hc.
    destruct fields; [exists field; reflexivity|discriminate].
Qed.

End Resolved.

Lemma resolved_strategy_invariants_witness :
  (exists m, pydantic_model sentiment_resolved = Some m
             /\ model_fields m = output_columns sentiment_resolved)
  /\ output_columns sentiment_resolved <> []
  /\ schema_dict sentiment_resolved
     = get sentiment_config (lit "schema") PNone
  /\ (storage_mode sentiment_resolved = direct_column ->
      output_table sentiment_resolved = PNone
      /\ truthy (get sentiment_config (lit "output_table") PNone) = false
      /\ exists field, output_columns sentiment_resolved = [field])
  /\ (storage_mode sentiment_resolved = separate_table ->
      output_table sentiment_resolved
      = get sentiment_config (lit "output_table") PNone
      /\ truthy (output_table sentiment_resolved) = true).
Proof.
  apply (resolved_strategy_invariants builds builds sentiment_config
           (lit "documents") sentiment_resolved).
  reflexivity.
Defined.

End StrategyLaws.

Module EngineLaws.

Import Store Engine Trace Scenarios MoreScenarios PyFacts EngineFacts EngineNotions.
Local Open Scope engine_scope.

Lemma attempts_step (w : world) (reqs : Lang.requirements) (u : nat)
  (row : Row) (fp : pystr) (attempt : nat) (todo : list nat) (st : state) :
  attempts w reqs u row fp (attempt :: todo) st
  = let st1 := snd (provider_call structured u row st) in
    match checked_reply w reqs (calls st) with
    | Ret result_dict =>
        (Some (structured_success u row fp result_dict), st1)
    | Raise (LanguageValidationError msg) =>
        if Nat.ltb attempt max_retries
        then attempts w reqs u row fp todo st1
        else (Some (structured_error u row fp (rowid_or row NO_ROWID)
                      (language_failure msg)), st1)
    | Raise e =>
        (Some (structured_error u row fp
                 (rowid_or row (PStr (lit "unknown"))) (exn_str e)), st1)
    end.
Proof.
  cbn [attempts]. unfold bind. cbn [provider_call fst snd].
  destruct (checked_reply w reqs (calls st)) as [d|[msg|msg|msg]];
    try reflexivity.
  destruct (Nat.ltb attempt max_retries); reflexivity.
Qed.

(** X12.  [process_row_structured] always returns a result, after one to three
    provider calls: every call but the last failed the language
    validation, and the result is built from the reply to the last call,
    an error record if that reply was an exception (after the third
    language failure, or at once for any other exception). *)
Theorem process_row_structured_retry_policy (w : world) (p : params)
  (pydantic_model : Strategy.DynamicModel) (row : Row) (st : state) :
  let reqs := Strategy.requirements pydantic_model in
  let full_prompt :=
    fst (Tokens.full_prompt_content (truncate p) (fst (prompt_parts w row))
           (snd (prompt_parts w row)) (model p)) in
  exists res n,
    fst (process_row_structured w p pydantic_model row st)
    = (passes st, Some res)
    /\ calls (snd (process_row_structured w p pydantic_model row st))
       = calls st + n
    /\ 1 <= n <= 3
    /\ (forall i, S i < n ->
                  is_language_failure (checked_reply w reqs (calls st + i)))
    /\ final_result (passes st) row full_prompt n
         (checked_reply w reqs (calls st + (n - 1))) res.
Proof.
  cbv zeta. unfold process_row_structured, bind.
  destruct (prompt_parts w row) as [templated_prompt input_text].
  cbn [fst snd fresh_pass].
  set (fp := fst (Tokens.full_prompt_content _ _ _ _)).
  set (reqs := Strategy.requirements pydantic_model).
  remember {| audit := audit st; output_tables := output_tables st;
              calls := calls st; passes := S (passes st);
              trace := trace st |} as st0 eqn:Hst0.
  set (u := passes st).
  assert (C0 : calls st = calls st0) by (subst st0; reflexivity).
  rewrite C0. clear Hst0 C0.
  change (seq 0 (max_retries + 1)) with [0; 1; 2].
  rewrite attempts_step. cbv zeta.
  set (st1 := snd (provider_call structured u row st0)).
  assert (C1 : calls st1 = S (calls st0)) by reflexivity.
  destruct (checked_reply w reqs (calls st0)) as [d|[msg|msg|msg]] eqn:E0.
  1, 3, 4:
    eexists; exists 1; cbn [fst snd ret];
    (split; [reflexivity|]); (split; [lia|]); (split; [lia|]);
    (split; [intros i Hi; lia|]);
    replace (calls st0 + (1 - 1)) with (calls st0) by lia;
    rewrite E0; reflexivity.
  change (Nat.ltb 0 max_retries) with true. cbv iota.
  rewrite attempts_step. cbv zeta.
  set (st2 := snd (provider_call structured u row st1)).
  assert (C2 : calls st2 = S (S (calls st0))) by reflexivity.
  rewrite C1.
  destruct (checked_reply w reqs (S (calls st0)))
    as [d|[msg1|msg1|msg1]] eqn:E1.
  1, 3, 4:
    eexists; exists 2; cbn [fst snd ret];
    (split; [reflexivity|]); (split; [lia|]); (split; [lia|]);
    (split;
     [intros i Hi; assert (i = 0) by lia; subst i;
      rewrite Nat.add_0_r, E0; eexists; reflexivity|]);
    replace (calls st0 + (2 - 1)) with (S (calls st0)) by lia;
    rewrite E1; reflexivity.
  change (Nat.ltb 1 max_retries) with true. cbv iota.
  rewrite attempts_step. cbv zeta.
  set (st3 := snd (provider_call structured u row st2)).
  assert (C3 : calls st3 = S (S (S (calls st0)))) by reflexivity.
  rewrite C2.
  assert (Hfail : forall i, S i < 3 ->
                            is_language_failure
                              (checked_reply w reqs (calls st0 + i))).
  { intros i Hi. assert (i = 0 \/ i = 1) as [->| ->] by lia.
    - rewrite Nat.add_0_r, E0; eexists; reflexivity.
    - replace (calls st0 + 1) with (S (calls st0)) by lia.
      rewrite E1; eexists; reflexivity. }
  change (Nat.ltb 2 max_retries) with false. cbv iota.
  destruct (checked_reply w reqs (S (S (calls st0))))
    as [d|[msg2|msg2|msg2]] eqn:E2;
    eexists; exists 3; cbn [fst snd ret];
    (split; [reflexivity|]); (split; [lia|]); (split; [lia|]);
    (split; [exact Hfail|]);
    replace (calls st0 + (3 - 1)) with (S (S (calls st0))) by lia;
    rewrite E2; cbn [final_result]; auto.
Qed.

(** *** Audit records after a run *)

Lemma audited_step (st st' : state) (evs : list event) (p : params)
  (row : Row) :
  step st st' evs -> audited st p row = true -> audited st' p row = true.
Proof.
  intros [_ HA] H. unfold audited, already_processed in *.
  rewrite HA, existsb_app, H. reflexivity.
Qed.

Lemma stored_audited (p : params) (u : nat) (row : Row) (res : dict)
  (raw_json : pyval) (st : state) :
  result_of u row res ->
  audited (snd (store_raw_enrichment_response u row
                  (audit_of p res raw_json) st)) p row = true.
Proof.
  intros [_ Hsha]. unfold audited, already_processed.
  cbn [store_raw_enrichment_response snd audit].
  rewrite existsb_app. cbn [existsb audit_of sha1 enrichment_name model_used].
  rewrite Hsha, !pystr_eqb_refl. cbn. apply orb_true_r.
Qed.

Lemma appends_ret {A : Type} (a : A) : appends (ret a).
Proof. intros st. split; [exists []; apply step_refl|cbn; lia]. Qed.

Lemma appends_bind {A B : Type} (m : M A) (k : A -> M B) :
  appends m -> (forall a, appends (k a)) -> appends (bind m k).
Proof.
  intros Hm Hk st. unfold bind.
  destruct (Hm st) as [[e1 S1] P1]. destruct (m st) as [a st1].
  cbn [snd] in S1, P1.
  destruct (Hk a st1) as [[e2 S2] P2]. split; [|lia].
  exists (e1 ++ e2). exact (step_trans _ _ _ _ _ S1 S2).
Qed.

Lemma appends_legacy (w : world) (p : params) (row : Row) :
  appends (legacy w p row).
Proof.
  intros st. destruct (legacy_run w p row st) as (r & evs & st' & E & S & B).
  rewrite E. split; [exists evs; exact S|exact (blocks_le _ _ _ _ B)].
Qed.

Lemma appends_update_database (p : params) (u : nat) (row : Row)
  (output_col : pyval) (entry : dict) :
  appends (update_database p u row output_col entry).
Proof.
  intros st.
  destruct (update_database_run p u row output_col entry st)
    as (ws & st' & E & S & _ & P).
  rewrite E. split; [exists ws; exact S|cbn [snd]; lia].
Qed.

Lemma appends_update_columns (p : params) (u : nat) (row : Row)
  (result : dict) (cols : list pystr) :
  appends (update_columns p u row result cols).
Proof.
  intros st.
  destruct (update_columns_run p u row result cols st)
    as (ws & st' & E & S & _ & P).
  rewrite E. split; [exists ws; exact S|cbn [snd]; lia].
Qed.

Lemma appends_write_output_table (w : world) (u : nat) (row : Row)
  (output_table : pyval) (key_column : pystr) (key_value : pyval)
  (output_data : dict) (enrichment_id : pyval) (model_used : pystr) :
  appends (write_output_table w u row output_table key_column key_value
             output_data enrichment_id model_used).
Proof.
  intros st. unfold write_output_table.
  destruct (update_output_table _ _ _ _ _ _ _ _) as [[how ts]|e].
  - destruct how; cbn [snd]; (split; [|cbn; lia]);
      eexists; step_now.
  - split; [|cbn; lia]. exists []. step_now.
Qed.

Ltac appends_now :=
  repeat first
    [ apply appends_ret
    | apply appends_legacy
    | apply appends_update_database
    | apply appends_update_columns
    | apply appends_write_output_table
    | apply appends_bind; [|intros ?]
    | match goal with
      | |- appends (match ?x with _ => _ end) => destruct x
      end ].

(** After the audit row of a pass, whatever follows keeps the record. *)
Lemma audited_after_store {A : Type} (p : params) (u : nat) (row : Row)
  (res : dict) (raw_json : pyval) (k : M A) (st : state) :
  result_of u row res -> appends k ->
  audited
    (snd ((store_raw_enrichment_response u row (audit_of p res raw_json)
           ;;; k) st)) p row = true
  /\ passes st
     <= passes (snd ((store_raw_enrichment_response u row
                        (audit_of p res raw_json) ;;; k) st)).
Proof.
  intros R Hk. unfold bind.
  pose proof (stored_audited p u row res raw_json st R) as H.
  assert (P : passes (snd (store_raw_enrichment_response u row
                             (audit_of p res raw_json) st)) = passes st)
    by reflexivity.
  destruct (store_raw_enrichment_response _ _ _ st) as [[] st2].
  cbn [snd] in H, P. destruct (Hk st2) as [[evs S] P2].
  split; [exact (audited_step _ _ _ _ _ S H)|lia].
Qed.

Ltac after_store R1 P1 :=
  match goal with
  | |- context [bind (store_raw_enrichment_response ?u ?r
                        (audit_of ?p ?res ?raw)) ?k ?st1] =>
      let H1 := fresh "H" in
      let H2 := fresh "H" in
      assert (Hk : appends (k tt)) by appends_now;
      destruct (audited_after_store p u r res raw (k tt) st1 R1 Hk)
        as [H1 H2];
      split; [exact H1|rewrite P1 in H2; exact H2]
  end.

Lemma save_legacy_progress (w : world) (p : params) (row : Row)
  (output_col : pyval) (st : state) :
  audited (snd (save_legacy w p row output_col st)) p row = true
  /\ passes st < passes (snd (save_legacy w p row output_col st)).
Proof.
  remember (save_legacy w p row output_col st) as run eqn:Erun.
  unfold save_legacy in Erun. unfold bind at 1 in Erun.
  destruct (process_row_run w p row output_col st)
    as (c & res & st1 & E1 & _ & _ & P1 & R1).
  rewrite E1 in Erun. subst run. after_store R1 P1.
Qed.

Lemma legacy_progress (w : world) (p : params) (row : Row) (st : state) :
  (exists res, fst (legacy w p row st) = Ret res) ->
  audited (snd (legacy w p row st)) p row = true
  /\ passes st < passes (snd (legacy w p row st)).
Proof.
  remember (legacy w p row st) as run eqn:Erun.
  unfold legacy in Erun.
  destruct (pystr_eqb (name p) translate_to_english_by_line).
  - intros _. unfold bind at 1 in Erun.
    destruct (process_translation_run w p row st)
      as (cs & res & st1 & E1 & _ & _ & P1 & R1).
    rewrite E1 in Erun. subst run. after_store R1 P1.
  - destruct (_ && _); [subst run; intros [res H]; discriminate|].
    destruct (output_cols p) as [|output_col rest];
      [subst run; intros [res H]; discriminate|].
    intros _. subst run. apply save_legacy_progress.
Qed.

(** A row for which [process_and_save] returns has an audit record, and
    got at least one pass. *)
Lemma process_and_save_progress (w : world) (p : params) (row : Row)
  (st : state) :
  (exists res, fst (process_and_save w p row st) = Ret res) ->
  audited (snd (process_and_save w p row st)) p row = true
  /\ passes st < passes (snd (process_and_save w p row st)).
Proof.
  remember (process_and_save w p row st) as run eqn:Erun.
  unfold process_and_save in Erun.
  destruct (schema_driven p) as [[strategy pydantic_model]|];
    [|subst run; apply legacy_progress].
  intros _. unfold bind at 1 in Erun.
  destruct (process_row_structured_run w p pydantic_model row st)
    as (cs & res & st1 & E1 & _ & _ & P1 & R1).
  rewrite E1 in Erun. subst run. after_store R1 P1.
Qed.

Lemma appends_gather (w : world) (p : params) (rows : list Row) :
  appends (gather w p rows).
Proof.
  intros st. destruct (gather_run w p rows st) as (r & evs & st' & E & S & B).
  rewrite E. split; [exists evs; exact S|exact (blocks_le _ _ _ _ B)].
Qed.

(** When [gather] returns, there is a result for every row, an audit
    record for every row, and at least one pass for every row. *)
Lemma gather_progress (w : world) (p : params) (rows : list Row)
  (st : state) (results : list (option dict)) :
  fst (gather w p rows st) = Ret results ->
  List.length results = List.length rows
  /\ passes st + List.length rows <= passes (snd (gather w p rows st))
  /\ forall row, In row rows ->
                 audited (snd (gather w p rows st)) p row = true.
Proof.
  revert st results. induction rows as [|row rows IH]; intros st results.
  - cbn. intros H; injection H as <-.
    split; [reflexivity|]. split; [lia|intros ? []].
  - cbn [gather]. unfold bind.
    pose proof (process_and_save_progress w p row st) as H1.
    destruct (process_and_save w p row st) as [r st1]. cbn [fst snd] in H1.
    specialize (IH st1).
    destruct (appends_gather w p rows st1) as [[evs S] _].
    destruct (gather w p rows st1) as [rs st2]. cbn [fst snd] in *.
    destruct r as [result|e]; [|intros H; discriminate].
    destruct rs as [rest|e]; [|intros H; discriminate].
    cbn [ret fst snd]. intros H; injection H as <-.
    destruct (IH rest eq_refl) as (Hlen & Hpass & Hrows).
    destruct H1 as [Ha Hp]; [eexists; reflexivity|].
    split; [cbn; lia|]. split; [cbn [List.length]; lia|].
    intros row' [<-|Hin]; [|exact (Hrows row' Hin)].
    exact (audited_step _ _ _ _ _ S Ha).
Qed.

(** *** Skip records *)

Lemma skipped_by_audit_records (st : state) (p : params)
  (results : list Row) (record : dict) :
  In record (skipped_by_audit (audit st) p results) ->
  exists row, In row results /\ audit_skipped st p row = true
              /\ record = skip_record row already_msg.
Proof.
  unfold skipped_by_audit. intros H. apply in_flat_map in H.
  destruct H as (row & Hrow & H). exists row.
  unfold audit_skipped. destruct (_ && _); [|destruct H].
  destruct H as [<-|[]]. auto.
Qed.

Lemma skipped_by_column_records (p : params) (seen : list pyval)
  (results : list Row) (additional : list dict) (record : dict) :
  skipped_by_column p seen results = Ret additional ->
  In record additional ->
  exists row output_col rest,
    In row results /\ output_cols p = output_col :: rest
    /\ truthy (row_get_val row output_col) = true
    /\ record = skip_record row (row_get_val row output_col).
Proof.
  unfold skipped_by_column.
  destruct results as [|r0 results]; [intros H; injection H as <-; intros []|].
  destruct (output_cols p) as [|output_col rest]; [discriminate|].
  remember (r0 :: results) as rs.
  intros H; injection H as <-. intros H. apply in_flat_map in H.
  destruct H as (row & Hrow & H). exists row, output_col, rest.
  destruct (truthy (row_get_val row output_col)) eqn:E; [|destruct H].
  destruct (negb _); [|destruct H]. destruct H as [<-|[]]. auto.
Qed.

Lemma skipped_by_output_table_records (ts : tables) (p : params)
  (seen : list pyval) (results : list Row) (record : dict) :
  In record (skipped_by_output_table ts p seen results) ->
  exists row original, In row results /\ record = skip_record row original.
Proof.
  unfold skipped_by_output_table.
  destruct (find_table ts (output_table p)); [|intros []].
  intros H. apply in_flat_map in H. destruct H as (row & Hrow & H).
  destruct (_ && _); [|destruct H]. destruct H as [<-|[]]. eauto.
Qed.

Lemma skipped_rows_records (st : state) (p : params) (results : list Row)
  (skipped : list dict) (record : dict) :
  skipped_rows st p results = Ret skipped -> In record skipped ->
  exists row original, In row results /\ record = skip_record row original.
Proof.
  unfold skipped_rows. destruct (overwrite p).
  { intros H; injection H as <-. intros []. }
  destruct (truthy (output_table p)).
  - intros H; injection H as <-. intros H. apply in_app_or in H.
    destruct H as [H|H].
    + destruct (skipped_by_audit_records _ _ _ _ H) as (row & ? & _ & ?).
      eauto.
    + exact (skipped_by_output_table_records _ _ _ _ _ H).
  - destruct (skipped_by_column p _ results) as [additional|e] eqn:E;
      [|discriminate].
    intros H; injection H as <-. intros H. apply in_app_or in H.
    destruct H as [H|H].
    + destruct (skipped_by_audit_records _ _ _ _ H) as (row & ? & _ & ?).
      eauto.
    + destruct (skipped_by_column_records _ _ _ _ _ E H)
        as (row & c & rest & ? & _ & _ & ?).
      eauto.
Qed.

Lemma pyval_eqb_PInt (z : Z) (v : pyval) :
  pyval_eqb (PInt z) v = true -> v = PInt z.
Proof.
  destruct v; cbn [pyval_eqb]; try discriminate.
  intros H. apply Z.eqb_eq in H. now subst.
Qed.

Lemma pyval_eqb_PStr (s : pystr) (v : pyval) :
  pyval_eqb (PStr s) v = true -> v = PStr s.
Proof.
  destruct v; cbn [pyval_eqb]; try discriminate.
  intros H. apply pystr_eqb_eq in H. now subst.
Qed.

Lemma rowid_or_cases (row : Row) (default : pyval) :
  rowid_or row default
  = match row_rowid row with Some z => PInt z | None => default end.
Proof. reflexivity. Qed.

Lemma row_id_eqb (row : Row) (j : pyval * pyval) :
  pyval_eqb (fst (row_id row)) (fst j) && pyval_eqb (snd (row_id row)) (snd j)
  = true ->
  j = row_id row.
Proof.
  destruct j as [a b]. unfold row_id. cbn [fst snd].
  rewrite rowid_or_cases, andb_true_iff. intros [Ha Hb].
  apply pyval_eqb_PStr in Hb. subst b.
  destruct (row_rowid row).
  - apply pyval_eqb_PInt in Ha. now subst.
  - apply pyval_eqb_PStr in Ha. now subst.
Qed.

(** A row of the batch is processed, or a row with its rowid and sha1 has
    a skip record. *)
Lemma processed_or_skipped (st : state) (p : params) (results : list Row)
  (skipped : list dict) (row : Row) :
  skipped_rows st p results = Ret skipped -> In row results ->
  In row (rows_to_process skipped results)
  \/ exists row' original,
       In row' results /\ row_id row' = row_id row
       /\ In (skip_record row' original) skipped.
Proof.
  intros Hsk Hrow. unfold rows_to_process.
  destruct (in_ids (row_id row) (map id_of skipped)) eqn:E.
  - right. unfold in_ids in E. apply existsb_exists in E.
    destruct E as (j & Hj & E). apply row_id_eqb in E. subst j.
    apply in_map_iff in Hj. destruct Hj as (record & Hid & Hrec).
    destruct (skipped_rows_records _ _ _ _ _ Hsk Hrec)
      as (row' & original & Hrow' & ->).
    exists row', original. rewrite id_of_skip_record in Hid. auto.
  - left. apply filter_In. split; [exact Hrow|]. now rewrite E.
Qed.

(** What [process_batch] returns and where it ends, in its three cases. *)
Lemma process_batch_cases (w : world) (p : params) (results : list Row)
  (st : state) (returned : list (option dict)) :
  fst (process_batch w p results st) = Ret returned ->
  exists skipped,
    skipped_rows st p results = Ret skipped
    /\ ((rows_to_process skipped results = []
         /\ process_batch w p results st = (Ret (map Some skipped), st))
        \/ exists processed,
             fst (gather w p (rows_to_process skipped results) st)
             = Ret processed
             /\ returned = processed ++ map Some skipped
             /\ snd (process_batch w p results st)
                = snd (gather w p (rows_to_process skipped results) st)).
Proof.
  unfold process_batch.
  destruct (skipped_rows st p results) as [skipped|e]; [|discriminate].
  intros H. exists skipped. split; [reflexivity|].
  destruct (rows_to_process skipped results) as [|row todo] eqn:Etodo.
  - left. auto.
  - right. unfold bind in *.
    destruct (gather w p (row :: todo) st) as [[processed|e] st'];
      [|discriminate].
    cbn in H. injection H as <-. exists processed. auto.
Qed.

(** X13.  When [process_batch] returns, every row of the batch has an audit
    record for its sha1, the enrichment and the model, or a skip record
    is returned for a row of the batch with its rowid and sha1. *)
Theorem batch_rows_are_audited_or_skipped (w : world) (p : params)
  (results : list Row) (st : state) (returned : list (option dict))
  (Hreturned : fst (process_batch w p results st) = Ret returned) :
  forall row, In row results ->
    audited (snd (process_batch w p results st)) p row = true
    \/ exists row' original,
         In row' results /\ row_id row' = row_id row
         /\ In (Some (skip_record row' original)) returned.
Proof.
  intros row Hrow.
  destruct (process_batch_cases w p results st returned Hreturned)
    as (skipped & Hsk & Hcases).
  assert (Hin : forall record, In record skipped ->
                               In (Some record) returned).
  { destruct Hcases as [[_ E]|(processed & _ & -> & _)].
    - rewrite E in Hreturned. injection Hreturned as <-.
      intros; now apply in_map.
    - intros. apply in_or_app; right. now apply in_map. }
  destruct (processed_or_skipped st p results skipped row Hsk Hrow)
    as [Htodo|(row' & original & ? & ? & ?)].
  - left. destruct Hcases as [[E _]|(processed & Hg & _ & ->)].
    + rewrite E in Htodo. destruct Htodo.
    + now apply (gather_progress w p _ st processed Hg).
  - right. exists row', original. auto.
Qed.

Lemma blocks_audit_count (among : Row -> Prop) (lo hi : nat)
  (evs : list event) :
  blocks among lo hi evs ->
  lo + List.length (audits_of evs) = hi.
Proof.
  induction 1 as [u|u hi row b rest Hrow Hb Hrest IH]; [cbn; lia|].
  rewrite audits_of_app, length_app.
  destruct (pass_block_audits _ _ _ Hb) as (a & -> & _). cbn. lia.
Qed.

Lemma rows_to_process_nil (results : list Row) :
  rows_to_process [] results = results.
Proof.
  unfold rows_to_process. cbn.
  induction results as [|r rs IH]; cbn; [reflexivity|now f_equal].
Qed.

(** X14.  With [overwrite], no row is skipped: when [process_batch] returns,
    there is one result for every row of the batch, at least one audit
    row was appended for every row, and every row has an audit record. *)
Theorem overwrite_processes_every_row (w : world) (p : params)
  (results : list Row) (st : state) (returned : list (option dict))
  (Hoverwrite : overwrite p = true)
  (Hreturned : fst (process_batch w p results st) = Ret returned) :
  List.length returned = List.length results
  /\ List.length (audit st) + List.length results
     <= List.length (audit (snd (process_batch w p results st)))
  /\ forall row, In row results ->
                 audited (snd (process_batch w p results st)) p row = true.
Proof.
  assert (Hsk : skipped_rows st p results = Ret [])
    by (unfold skipped_rows; now rewrite Hoverwrite).
  pose proof (rows_to_process_nil results) as Htodo.
  destruct (process_batch_cases w p results st returned Hreturned)
    as (skipped & Hsk' & Hcases).
  rewrite Hsk in Hsk'. injection Hsk' as <-. rewrite Htodo in Hcases.
  destruct Hcases as [[E1 E2]|(processed & Hg & -> & E)].
  - subst results. rewrite E2 in *. injection Hreturned as <-.
    cbn. split; [reflexivity|]. split; [lia|intros ? []].
  - rewrite E. cbn [map]. rewrite app_nil_r.
    destruct (gather_progress w p results st processed Hg)
      as (Hlen & Hpass & Haud).
    split; [exact Hlen|]. split; [|exact Haud].
    destruct (gather_run w p results st) as (r & evs & st' & Eg & [_ HA] & B).
    rewrite Eg in *. cbn [snd] in *.
    rewrite HA, length_app. pose proof (blocks_audit_count _ _ _ _ B). lia.
Qed.

(** *** Running a batch again *)

Lemma audit_skipped_step (st st' : state) (evs : list event) (p : params)
  (row : Row) :
  step st st' evs ->
  audit_skipped st p row = true -> audit_skipped st' p row = true.
Proof.
  unfold audit_skipped. intros S H. apply andb_true_iff in H.
  destruct H as [H1 H2]. rewrite H1. cbn [andb].
  exact (audited_step _ _ _ _ _ S H2).
Qed.

Lemma skipped_by_column_in (p : params) (seen : list pyval)
  (results : list Row) (row : Row) (output_col : pyval)
  (rest : list pyval) :
  In row results -> output_cols p = output_col :: rest ->
  truthy (row_get_val row output_col) = true ->
  in_values (PStr (sha1_of row)) seen = false ->
  exists additional,
    skipped_by_column p seen results = Ret additional
    /\ In (skip_record row (row_get_val row output_col)) additional.
Proof.
  intros Hrow Hc Ht Hs. unfold skipped_by_column. rewrite Hc.
  destruct results as [|r0 results]; [destruct Hrow|].
  remember (r0 :: results) as rs.
  eexists. split; [reflexivity|]. apply in_flat_map. exists row.
  split; [exact Hrow|]. rewrite Ht, Hs. left; reflexivity.
Qed.

Lemma skipped_by_column_returns (p : params) (seen seen' : list pyval)
  (results : list Row) (additional : list dict) :
  skipped_by_column p seen results = Ret additional ->
  exists additional', skipped_by_column p seen' results = Ret additional'.
Proof.
  unfold skipped_by_column. destruct results; [eauto|].
  destruct (output_cols p); [discriminate|eauto].
Qed.

Section Again.

Variables w w' : world.
Variable p : params.
Variable results : list Row.
Variable st : state.
Variable returned : list (option dict).

Hypothesis Hoverwrite : overwrite p = false.
Hypothesis Hdirect : truthy (output_table p) = false.
Hypothesis Hsha1 : forall row, In row results -> sha1_of row <> NO_SHA1.
Hypothesis Hreturned : fst (process_batch w p results st) = Ret returned.

Let st' := snd (process_batch w p results st).

Lemma first_run_step : exists evs, step st st' evs.
Proof.
  unfold st'.
  destruct (process_batch_run w p results st) as (r & evs & s & E & S & _).
  rewrite E. exists evs. exact S.
Qed.

(** After the first run every row is covered by a skip record of the
    second. *)
Lemma second_run_skips (skipped' : list dict) (row : Row) :
  skipped_rows st' p results = Ret skipped' -> In row results ->
  exists row' original,
    In row' results /\ row_id row' = row_id row
    /\ In (skip_record row' original) skipped'.
Proof.
  intros Hsk' Hrow.
  destruct first_run_step as [evs S].
  destruct (process_batch_cases w p results st returned Hreturned)
    as (skipped & Hsk & Hcases).
  (* a row with an audit record is skipped on the audit table *)
  assert (Haudit : forall r, In r results -> audit_skipped st' p r = true ->
                             In (skip_record r already_msg) skipped').
  { intros r Hr Ha.
    apply (skipped_rows_by_audit st' p results); auto.
    apply skipped_by_audit_in; auto. }
  (* a row with a value in the output column is skipped either way *)
  assert (Hcolumn : forall r c rest,
             In r results -> output_cols p = c :: rest ->
             truthy (row_get_val r c) = true ->
             exists original, In (skip_record r original) skipped').
  { intros r c rest Hr Hc Ht.
    destruct (audit_skipped st' p r) eqn:Ea; [eauto|].
    assert (Hnot : in_values (PStr (sha1_of r))
                     (sha1s_of (skipped_by_audit (audit st') p results))
                   = false).
    { destruct (in_values _ _) eqn:E; [|reflexivity].
      apply skipped_by_audit_sha1s in E. unfold audit_skipped in Ea.
      congruence. }
    destruct (skipped_by_column_in p _ results r c rest Hr Hc Ht Hnot)
      as (additional & Eadd & Hin).
    revert Hsk'. unfold skipped_rows. rewrite Hoverwrite, Hdirect, Eadd.
    intros H; injection H as <-. eexists. apply in_or_app; right; exact Hin. }
  destruct (processed_or_skipped st p results skipped row Hsk Hrow)
    as [Htodo|(row1 & original & Hrow1 & Hid & Hrec)].
  - (* processed by the first run *)
    exists row, already_msg. split; [exact Hrow|]. split; [reflexivity|].
    apply Haudit; [exact Hrow|].
    assert (Ha : audited st' p row = true).
    { destruct Hcases as [[E _]|(processed & Hg & _ & E)].
      - rewrite E in Htodo. destruct Htodo.
      - unfold st'. rewrite E.
        now apply (gather_progress w p _ st processed Hg). }
    unfold audit_skipped. fold (audited st' p row). rewrite Ha.
    pose proof (Hsha1 row Hrow) as Hne. apply pystr_eqb_neq in Hne.
    now rewrite Hne.
  - (* skipped by the first run *)
    revert Hsk. unfold skipped_rows. rewrite Hoverwrite, Hdirect.
    destruct (skipped_by_column p _ results) as [additional|e] eqn:Eadd;
      [|discriminate].
    intros H; injection H as <-. apply in_app_or in Hrec.
    destruct Hrec as [Hrec|Hrec].
    + destruct (skipped_by_audit_records _ _ _ _ Hrec)
        as (row2 & Hrow2 & Ha & E).
      exists row2, already_msg. split; [exact Hrow2|]. split.
      * rewrite <- Hid, <- (id_of_skip_record row1 original), E.
        reflexivity.
      * apply Haudit; [exact Hrow2|].
        exact (audit_skipped_step _ _ _ _ _ S Ha).
    + destruct (skipped_by_column_records _ _ _ _ _ Eadd Hrec)
        as (row2 & c & rest & Hrow2 & Hc & Ht & E).
      destruct (Hcolumn row2 c rest Hrow2 Hc Ht) as [original2 Hin].
      exists row2, original2. split; [exact Hrow2|]. split; [|exact Hin].
      rewrite <- Hid, <- (id_of_skip_record row1 original), E.
      reflexivity.
Qed.

(** X15.  Running the batch again, without [overwrite] and without an output
    table, on rows that have a sha1: the second run processes nothing.  It
    leaves the state as the first run left it, whatever the provider would
    answer, and returns skip records only, one or more for every row. *)
Theorem second_run_processes_nothing :
  exists skipped',
    process_batch w' p results st' = (Ret (map Some skipped'), st')
    /\ forall row, In row results ->
         exists row' original,
           In row' results /\ row_id row' = row_id row
           /\ In (skip_record row' original) skipped'.
Proof.
  destruct (process_batch_cases w p results st returned Hreturned)
    as (skipped & Hsk & _).
  assert (Hsk' : exists skipped', skipped_rows st' p results = Ret skipped').
  { revert Hsk. unfold skipped_rows. rewrite Hoverwrite, Hdirect.
    destruct (skipped_by_column p _ results) as [additional|e] eqn:Eadd;
      [|discriminate].
    intros _.
    destruct (skipped_by_column_returns p _
                (sha1s_of (skipped_by_audit (audit st') p results))
                results additional Eadd) as [additional' ->].
    eauto. }
  destruct Hsk' as [skipped' Hsk']. exists skipped'.
  split; [|intros row Hrow; exact (second_run_skips skipped' row Hsk' Hrow)].
  assert (Hnone : rows_to_process skipped' results = []).
  { unfold rows_to_process. apply filter_none. apply Forall_forall.
    intros row Hrow.
    destruct (second_run_skips skipped' row Hsk' Hrow)
      as (row' & original & _ & Hid & Hin).
    apply negb_false_iff. unfold in_ids. apply existsb_exists.
    exists (row_id row). split; [|apply row_id_eqb_refl].
    rewrite <- Hid, <- (id_of_skip_record row' original).
    now apply in_map. }
  unfold process_batch. rewrite Hsk', Hnone. reflexivity.
Qed.

End Again.



(** X16.  When the structured pass ends with an error record and the strategy
    does not have exactly one output column, [process_and_save] appends
    the audit row with the error and does nothing more: it makes no write
    and no further provider call, and returns the error record. *)
Theorem error_record_is_audited_only (w : world) (p : params) (row : Row)
  (st : state) (strategy : Strategy.EnrichmentStrategy)
  (pydantic_model : Strategy.DynamicModel)
  (full_prompt : pystr) (rowid : pyval) (msg : pystr)
  (Hschema : schema_driven p = Some (strategy, pydantic_model))
  (Hcolumns : List.length (Strategy.output_columns strategy) <> 1)
  (Herror :
     fst (process_row_structured w p pydantic_model row st)
     = (passes st,
        Some (structured_error (passes st) row full_prompt rowid msg))) :
  let error := structured_error (passes st) row full_prompt rowid msg in
  process_and_save w p row st
  = (Ret (Some error),
     snd (store_raw_enrichment_response (passes st) row
            (audit_of p error (error_json msg))
            (snd (process_row_structured w p pydantic_model row st)))).
Proof.
  cbv zeta. unfold process_and_save. rewrite Hschema. unfold bind at 1.
  destruct (process_row_structured w p pydantic_model row st)
    as [[u result] st1].
  cbn [fst snd] in *. injection Herror as -> ->.
  set (error := structured_error (passes st) row full_prompt rowid msg).
  assert (Hu : get error (lit "updated") PNone = PNone) by reflexivity.
  assert (Hr : get error (lit "raw_json") PNone = error_json msg)
    by reflexivity.
  rewrite Hu, Hr. cbn [truthy error_json].
  unfold bind.
  destruct (store_raw_enrichment_response _ _ _ st1) as [[] st2] eqn:E.
  cbn [snd].
  destruct (Strategy.storage_mode strategy);
    destruct (Strategy.output_columns strategy) as [|c1 [|c2 cols]];
    try reflexivity; cbn in Hcolumns; congruence.
Qed.


Lemma error_record_is_audited_only_witness :
  process_and_save provider_down review_task doc_a fresh
  = (Ret (Some (structured_error 0 doc_a prompt_a (PInt 1) (lit "timeout"))),
     snd (store_raw_enrichment_response 0 doc_a
            (audit_of review_task
               (structured_error 0 doc_a prompt_a (PInt 1) (lit "timeout"))
               (error_json (lit "timeout")))
            (snd (process_row_structured provider_down review_task
                    review_model doc_a fresh)))).
Proof.
  apply (error_record_is_audited_only provider_down review_task doc_a fresh
           review_resolved review_model prompt_a (PInt 1) (lit "timeout")).
  - reflexivity.
  - vm_compute. discriminate.
  - reflexivity.
Defined.

Ltac have_sha1 :=
  let row := fresh "row" in
  let H := fresh "H" in
  intros row H; cbn in H;
  repeat (destruct H as [H|H]; [subst row; discriminate|]);
  destruct H.

Lemma batch_rows_are_audited_or_skipped_witness :
  audited (snd first_run) (task sentiment_config) doc_b = true
  \/ exists row' original,
       In row' three_docs /\ row_id row' = row_id doc_b
       /\ In (Some (skip_record row' original)) (returned_by first_run).
Proof.
  apply (batch_rows_are_audited_or_skipped positive (task sentiment_config)
           three_docs fresh (returned_by first_run)).
  - vm_compute. reflexivity.
  - right. left. reflexivity.
Defined.

Lemma overwrite_processes_every_row_witness :
  List.length (returned_by overwrite_run) = List.length three_docs
  /\ List.length (audit after_first_run) + List.length three_docs
     <= List.length (audit (snd overwrite_run))
  /\ forall row, In row three_docs ->
       audited (snd overwrite_run) (overwriting (task sentiment_config)) row
       = true.
Proof.
  apply (overwrite_processes_every_row positive
           (overwriting (task sentiment_config)) three_docs after_first_run
           (returned_by overwrite_run)).
  - reflexivity.
  - vm_compute. reflexivity.
Defined.

Lemma second_run_processes_nothing_witness :
  exists skipped',
    process_batch provider_down (task sentiment_config) three_docs
      (snd first_run)
    = (Ret (map Some skipped'), snd first_run)
    /\ forall row, In row three_docs ->
         exists row' original,
           In row' three_docs /\ row_id row' = row_id row
           /\ In (skip_record row' original) skipped'.
Proof.
  apply (second_run_processes_nothing positive provider_down
           (task sentiment_config) three_docs fresh (returned_by first_run)).
  - reflexivity.
  - reflexivity.
  - have_sha1.
  - vm_compute. reflexivity.
Defined.

End EngineLaws.

Module QueryLaws.

Import Query Text QueryNotions PyFacts.
Local Open Scope N_scope.

Lemma match_here_plus (cls : N -> bool) (r : regex) (prev : option N)
  (s : pystr) :
  match_here (Plus cls :: r) prev s = more cls (match_here r) [] s.
Proof.
  cbn [match_here].
  match goal with
  | |- ?f [] s = _ =>
      enough (H : forall taken, f taken s = more cls (match_here r) taken s)
        by apply H
  end.
  induction s as [|c s IH]; intros taken; cbn [more]; [reflexivity|].
  destruct (cls c); [|reflexivity]. now rewrite IH.
Qed.

Lemma more_taken (cls : N -> bool)
  (k : option N -> pystr -> option (list pystr * pystr))
  (s taken : pystr) (ms : list pystr) (rest : pystr) :
  more cls k taken s = Some (ms, rest) ->
  exists g c ms' s',
    ms = (taken ++ g ++ [c]) :: ms' /\ cls c = true
    /\ k (Some c) s' = Some (ms', rest).
Proof.
  revert taken. induction s as [|c s IH]; intros taken; cbn [more];
    [discriminate|].
  destruct (cls c) eqn:Ec; [|discriminate].
  destruct (more cls k (taken ++ [c]) s) as [res|] eqn:Em.
  - intros H; injection H as ->.
    destruct (IH _ Em) as (g & c' & ms' & s' & -> & Hc & Hk).
    exists (c :: g), c', ms', s'. rewrite <- app_assoc. auto.
  - destruct (k (Some c) s) as [[ms0 rest0]|] eqn:Ek; [|discriminate].
    intros H; injection H as <- <-. exists [], c, ms0, s. auto.
Qed.

Lemma match_here_lit (text : pystr) (r : regex) (prev : option N)
  (s : pystr) :
  match_here (Lit text :: r) prev s
  = match match_lit text s with
    | Some (m, rest) =>
        match match_here r (last_of prev m) rest with
        | Some (ms, rest') => Some (m :: ms, rest')
        | None => None
        end
    | None => None
    end.
Proof. reflexivity. Qed.

Lemma match_here_lit_groups (text : pystr) (r : regex) (prev : option N)
  (s : pystr) (ms : list pystr) (rest : pystr) :
  match_here (Lit text :: r) prev s = Some (ms, rest) ->
  exists m ms' prev' s',
    ms = m :: ms' /\ match_here r prev' s' = Some (ms', rest).
Proof.
  rewrite match_here_lit.
  destruct (match_lit text s) as [[m rest0]|]; [|discriminate].
  destruct (match_here r (last_of prev m) rest0) as [[ms' rest']|] eqn:E;
    [|discriminate].
  intros H; injection H as <- <-.
  exists m, ms', (last_of prev m), rest0. auto.
Qed.

Lemma match_here_plus_groups (cls : N -> bool) (r : regex)
  (prev : option N) (s : pystr) (ms : list pystr) (rest : pystr) :
  match_here (Plus cls :: r) prev s = Some (ms, rest) ->
  exists g c ms' s',
    ms = (g ++ [c]) :: ms' /\ cls c = true
    /\ match_here r (Some c) s' = Some (ms', rest).
Proof.
  rewrite match_here_plus. intros H.
  destruct (more_taken _ _ _ _ _ _ H) as (g & c & ms' & s' & E & Hc & Hk).
  exists g, c, ms', s'. auto.
Qed.

Lemma after_app (prev : option N) (a b : pystr) :
  after prev (a ++ b) = after (after prev a) b.
Proof. unfold after. apply fold_left_app. Qed.

Lemma after_snoc (prev : option N) (a : pystr) (c : N) :
  after prev (a ++ [c]) = Some c.
Proof. rewrite after_app. reflexivity. Qed.

(** A match after [a] is found by [search]. *)
Lemma search_from_at (r : regex) (prev : option N) (a b : pystr) :
  match_here r (after prev a) b <> None ->
  search_from r prev (a ++ b) = true.
Proof.
  revert prev. induction a as [|c a IH]; intros prev H.
  - cbn in *. destruct b; cbn [search_from];
      destruct (match_here r prev _); congruence.
  - cbn [app search_from].
    destruct (match_here r prev (c :: a ++ b)); [reflexivity|].
    apply IH. exact H.
Qed.

Lemma sub_from_no_match (r : regex) (repl : list pystr -> pystr)
  (prev : option N) (s : pystr) :
  search_from r prev s = false -> sub_from r repl prev 0 s = s.
Proof.
  revert prev. induction s as [|c s IH]; intros prev; cbn [sub_from];
    [reflexivity|].
  cbn [search_from]. destruct (match_here r prev (c :: s)); [discriminate|].
  intros H. now rewrite IH.
Qed.

(** The first replacement of [re.sub]: the text before the first match is
    kept, then comes the replacement. *)
Lemma sub_from_first (r : regex) (repl : list pystr -> pystr)
  (prev : option N) (s : pystr) :
  (forall prev', match_here r prev' [] = None) ->
  search_from r prev s = true ->
  exists pre mid ms rest tail,
    s = pre ++ mid
    /\ match_here r (after prev pre) mid = Some (ms, rest)
    /\ sub_from r repl prev 0 s = pre ++ repl ms ++ tail.
Proof.
  intros Hempty. revert prev. induction s as [|c s IH]; intros prev.
  - cbn [search_from]. rewrite Hempty. discriminate.
  - cbn [search_from sub_from].
    destruct (match_here r prev (c :: s)) as [[ms rest]|] eqn:E.
    + intros _. exists [], (c :: s), ms, rest.
      destruct (List.length (c :: s) - List.length rest)%nat;
        eexists; (split; [reflexivity|]); (split; [exact E|]); reflexivity.
    + intros H. destruct (IH (Some c) H)
        as (pre & mid & ms & rest & tail & -> & Hm & Hs).
      exists (c :: pre), mid, ms, rest, tail.
      split; [reflexivity|]. split; [exact Hm|]. cbn [app]. now rewrite Hs.
Qed.

Lemma match_lit_self (text rest : pystr) :
  match_lit text (text ++ rest) = Some (text, rest).
Proof.
  induction text as [|x text IH]; cbn [match_lit app]; [reflexivity|].
  now rewrite N.eqb_refl, IH.
Qed.

Lemma space_not_word (c : N) : is_space c = true -> is_word c = false.
Proof.
  unfold is_space, is_word, is_digit.
  rewrite ?orb_true_iff, ?andb_true_iff, ?N.leb_le. intros H.
  apply not_true_is_false. rewrite ?orb_true_iff, ?andb_true_iff, ?N.leb_le,
    N.eqb_eq. lia.
Qed.

Lemma upper_app (a b : pystr) : upper (a ++ b) = upper a ++ upper b.
Proof. apply map_app. Qed.

(** ** ensure_rowid_in_query *)

Lemma select_star_groups (prev : option N) (s : pystr) (ms : list pystr)
  (rest : pystr) :
  match_here select_star_pattern prev s = Some (ms, rest) ->
  exists g0 g c g2 g3 g4,
    ms = [g0; g ++ [c]; g2; g3; g4] /\ is_space c = true.
Proof.
  unfold select_star_pattern. intros H.
  destruct (match_here_lit_groups _ _ _ _ _ _ H)
    as (g0 & ms1 & p1 & s1 & -> & H1).
  destruct (match_here_plus_groups _ _ _ _ _ _ H1)
    as (g & c & ms2 & s2 & -> & Hc & H2).
  destruct (match_here_lit_groups _ _ _ _ _ _ H2)
    as (g2 & ms3 & p3 & s3 & -> & H3).
  destruct (match_here_plus_groups _ _ _ _ _ _ H3)
    as (g3 & c3 & ms4 & s4 & -> & _ & H4).
  destruct (match_here_lit_groups _ _ _ _ _ _ H4)
    as (g4 & ms5 & p5 & s5 & -> & H5).
  cbn in H5. injection H5 as <- _.
  exists g0, g, c, g2, (g3 ++ [c3]), g4. auto.
Qed.

Lemma rowid_here (c : N) (rest : pystr) :
  is_word c = false ->
  match_here rowid_word (Some c) (lit "rowid, *" ++ rest) <> None.
Proof.
  intros Hc. unfold rowid_word. cbn [match_here word_before].
  rewrite Hc. vm_compute. discriminate.
Qed.

Lemma select_star_never_empty (prev : option N) :
  match_here select_star_pattern prev [] = None.
Proof. reflexivity. Qed.

(** X17.  [ensure_rowid_in_query] gives a query that mentions rowid whenever the
    query mentions it or has a SELECT * FROM, and applying it to its own
    result changes nothing. *)
Theorem ensure_rowid_in_query_idempotent (query : pystr)
  (Hascii : ascii query = true) :
  (search rowid_word query = true \/ search select_star_pattern query = true
   -> search rowid_word (ensure_rowid_in_query query) = true)
  /\ ensure_rowid_in_query (ensure_rowid_in_query query)
     = ensure_rowid_in_query query.
Proof.
  assert (Hfound : search rowid_word query = false ->
                   search select_star_pattern query = true ->
                   search rowid_word
                     (sub select_star_pattern
                        (fun ms => group ms 0 ++ group ms 1 ++ lit "rowid, *"
                                   ++ group ms 3 ++ group ms 4) query)
                   = true).
  { intros _ Hs. unfold search, sub in *.
    destruct (sub_from_first select_star_pattern
                (fun ms => group ms 0 ++ group ms 1 ++ lit "rowid, *"
                           ++ group ms 3 ++ group ms 4)
                None query select_star_never_empty Hs)
      as (pre & mid & ms & rest & tail & _ & Hm & ->).
    destruct (select_star_groups _ _ _ _ Hm)
      as (g0 & g & c & g2 & g3 & g4 & -> & Hc).
    cbn [group nth].
    replace (pre ++ (g0 ++ (g ++ [c]) ++ lit "rowid, *" ++ g3 ++ g4) ++ tail)
      with ((pre ++ g0 ++ g ++ [c]) ++ lit "rowid, *" ++ (g3 ++ g4 ++ tail))
      by (rewrite <- !app_assoc; reflexivity).
    apply search_from_at.
    replace (pre ++ g0 ++ g ++ [c]) with ((pre ++ g0 ++ g) ++ [c])
      by (rewrite <- !app_assoc; reflexivity).
    rewrite after_snoc. apply rowid_here. now apply space_not_word. }
  unfold ensure_rowid_in_query.
  destruct (search rowid_word query) eqn:E1.
  - rewrite E1. auto.
  - destruct (search select_star_pattern query) eqn:E2.
    + rewrite (Hfound eq_refl eq_refl). auto.
    + rewrite E1, E2. split; [intros [H|H]; discriminate|reflexivity].
Qed.

Lemma ensure_rowid_in_query_idempotent_witness :
  (search rowid_word (lit "SELECT * FROM documents") = true
   \/ search select_star_pattern (lit "SELECT * FROM documents") = true
   -> search rowid_word
        (ensure_rowid_in_query (lit "SELECT * FROM documents")) = true)
  /\ ensure_rowid_in_query
       (ensure_rowid_in_query (lit "SELECT * FROM documents"))
     = ensure_rowid_in_query (lit "SELECT * FROM documents").
Proof.
  apply (ensure_rowid_in_query_idempotent (lit "SELECT * FROM documents")).
  reflexivity.
Defined.

(** ** apply_null_filters *)

Lemma is_null_here (column : pystr) (prev : option N) (rest : pystr) :
  match_here (is_null column) prev (column ++ lit " IS NULL" ++ rest)
  <> None.
Proof.
  unfold is_null. rewrite match_here_lit, match_lit_self.
  generalize (last_of prev column) as prev'. intros prev'.
  vm_compute. discriminate.
Qed.

Lemma where_clause_never_empty (prev : option N) :
  match_here where_clause prev [] = None.
Proof. reflexivity. Qed.

(** X18.  Without [overwrite], and for a column name that is an identifier,
    [apply_null_filters] gives a query that has the IS NULL test on the
    column whenever it changes the query, and applying it to its own
    result changes nothing. *)
Theorem apply_null_filters_append_idempotent (query column : pystr)
  (Hascii : ascii query = true)
  (Hcolumn : is_identifier column = true) :
  (apply_null_filters query column false <> query ->
   search (is_null column) (apply_null_filters query column false) = true)
  /\ apply_null_filters (apply_null_filters query column false) column false
     = apply_null_filters query column false.
Proof.
  assert (Hfilter : apply_null_filters query column false <> query ->
                    search (is_null column)
                      (apply_null_filters query column false) = true).
  { unfold apply_null_filters.
    destruct (search (is_null column) query) eqn:E; cbn [negb];
      [congruence|].
    destruct (contains (lit "WHERE") (upper query)).
    - destruct (search where_clause query) eqn:Ew.
      + intros _. unfold search, sub in *.
        destruct (sub_from_first where_clause
                    (fun ms => group ms 0 ++ group ms 1 ++ group ms 2
                               ++ column ++ lit " IS NULL AND ")
                    None query where_clause_never_empty Ew)
          as (pre & mid & ms & rest & tail & _ & _ & ->).
        replace (pre ++ (group ms 0 ++ group ms 1 ++ group ms 2 ++ column
                         ++ lit " IS NULL AND ") ++ tail)
          with ((pre ++ group ms 0 ++ group ms 1 ++ group ms 2)
                ++ column ++ lit " IS NULL" ++ (lit " AND " ++ tail))
          by (rewrite <- !app_assoc; reflexivity).
        apply search_from_at. apply is_null_here.
      + unfold sub. rewrite (sub_from_no_match _ _ _ _ Ew). congruence.
    - intros _.
      replace (query ++ lit " WHERE " ++ column ++ lit " IS NULL")
        with ((query ++ lit " WHERE ") ++ column ++ lit " IS NULL" ++ [])
        by (rewrite <- !app_assoc, app_nil_r; reflexivity).
      apply search_from_at. apply is_null_here. }
  split; [exact Hfilter|].
  destruct (pystr_eqb (apply_null_filters query column false) query) eqn:E.
  - apply pystr_eqb_eq in E. now rewrite E.
  - apply pystr_eqb_neq in E. specialize (Hfilter E).
    unfold apply_null_filters at 1. now rewrite Hfilter.
Qed.

Lemma apply_null_filters_append_idempotent_witness :
  (apply_null_filters (lit "SELECT * FROM docs") (lit "summary") false
   <> lit "SELECT * FROM docs" ->
   search (is_null (lit "summary"))
     (apply_null_filters (lit "SELECT * FROM docs") (lit "summary") false)
   = true)
  /\ apply_null_filters
       (apply_null_filters (lit "SELECT * FROM docs") (lit "summary") false)
       (lit "summary") false
     = apply_null_filters (lit "SELECT * FROM docs") (lit "summary") false.
Proof.
  apply (apply_null_filters_append_idempotent (lit "SELECT * FROM docs")
           (lit "summary")); reflexivity.
Defined.

(** ** add_order_and_limit *)

Lemma limit_clause_never_empty (prev : option N) :
  match_here limit_clause prev [] = None.
Proof. reflexivity. Qed.

(** X19.  With no limit given, [add_order_and_limit] gives a query with an
    ORDER BY whenever it changes the query, and applying it to its own
    result changes nothing. *)
Theorem add_order_idempotent (query : pystr) (Hascii : ascii query = true) :
  (add_order_and_limit query None <> query ->
   contains (lit "ORDER BY") (upper (add_order_and_limit query None)) = true)
  /\ add_order_and_limit (add_order_and_limit query None) None
     = add_order_and_limit query None.
Proof.
  assert (Horder : add_order_and_limit query None <> query ->
                   contains (lit "ORDER BY")
                     (upper (add_order_and_limit query None)) = true).
  { unfold add_order_and_limit.
    destruct (contains (lit "ORDER BY") (upper query)) eqn:E; cbn [negb];
      [congruence|].
    destruct (contains (lit "LIMIT") (upper query)).
    - destruct (search limit_clause query) eqn:El.
      + intros _. unfold search, sub in *.
        destruct (sub_from_first limit_clause
                    (fun ms => lit " ORDER BY rowid" ++ group ms 0
                               ++ group ms 1 ++ group ms 2)
                    None query limit_clause_never_empty El)
          as (pre & mid & ms & rest & tail & _ & _ & ->).
        rewrite upper_app. apply contains_app_l.
        rewrite <- !app_assoc, upper_app. apply contains_app_r.
        reflexivity.
      + unfold sub. rewrite (sub_from_no_match _ _ _ _ El). congruence.
    - intros _. rewrite upper_app. apply contains_app_l. reflexivity. }
  split; [exact Horder|].
  destruct (pystr_eqb (add_order_and_limit query None) query) eqn:E.
  - apply pystr_eqb_eq in E. now rewrite E.
  - apply pystr_eqb_neq in E. specialize (Horder E).
    unfold add_order_and_limit at 1. now rewrite Horder.
Qed.

Lemma add_order_idempotent_witness :
  (add_order_and_limit (lit "SELECT * FROM docs LIMIT 5") None
   <> lit "SELECT * FROM docs LIMIT 5" ->
   contains (lit "ORDER BY")
     (upper (add_order_and_limit (lit "SELECT * FROM docs LIMIT 5") None))
   = true)
  /\ add_order_and_limit
       (add_order_and_limit (lit "SELECT * FROM docs LIMIT 5") None) None
     = add_order_and_limit (lit "SELECT * FROM docs LIMIT 5") None.
Proof.
  apply (add_order_idempotent (lit "SELECT * FROM docs LIMIT 5")).
  reflexivity.
Defined.

End QueryLaws.
